(** * HalideNsightDemo: the two-stage blur benchmark of [src/nsightDemo/blur.cpp]

    A shallow embedding of the harness: the two stage definitions of
    [Blur::Blur], [get_output_buffer], [schedule_for_gpu], [test_performance],
    [main] and [find_gpu_target].

    The Halide library, the C runtime and [clock.h] are external to the
    repository.  What the harness asks of them is recorded as a chronological
    list of events; what it reads from them (the host target, the device probe,
    the clock) is an environment record.  Values of type [float] and [double]
    are kept behind a small arithmetic interface with three instances: IEEE
    binary32/binary64 (the Standard Library's [SpecFloat], round to nearest
    even), exact rationals, and a symbolic instance that collects the loads an
    expression performs.

    The floating-point instances are related to the exact one by the number a
    datum denotes ([float_value]) and by a rounding analysis of [SFadd],
    [SFsub] and [SFdiv]: each returns a finite number within [2^-prec]
    relative or [2^(emin-1)] absolute of the exact result, as long as that
    result is below [2^(emax-1)] in magnitude. *)

From Stdlib Require Import ZArith QArith Qpower Qabs Qfield List String Bool.
From Stdlib Require Import Lia Lqa Morphisms Setoid.
From Stdlib Require Import Floats.SpecFloat.
Import ListNotations.

Local Open Scope string_scope.
Local Open Scope list_scope.
Local Open Scope Z_scope.

(** ** Machine integers *)

(** C++ [int] is 32 bits wide, two's complement. *)
Definition wrap32 (z : Z) : Z := (z + 2 ^ 31) mod 2 ^ 32 - 2 ^ 31.

Definition sub32 (a b : Z) : Z := wrap32 (a - b).

Definition INT_MAX : Z := 2 ^ 31 - 1.

(** ** Arithmetic of [float] and [double] *)

(** The operations the program applies to floating-point values: conversion
    from [int], [+], [-], [/] and [<]. *)
Class Arith (T : Type) : Type := {
  of_int : Z -> T;
  add : T -> T -> T;
  sub : T -> T -> T;
  div : T -> T -> T;
  ltb : T -> T -> bool
}.

(** IEEE 754 binary formats, round to nearest, ties to even. *)
Definition binary_arith (prec emax : Z) : Arith spec_float := {|
  of_int z := binary_normalize prec emax z 0 false;
  add := SFadd prec emax;
  sub := SFsub prec emax;
  div := SFdiv prec emax;
  ltb := SFltb
|}.

(** C++ [float]. *)
Definition binary32 : Arith spec_float := binary_arith 24 128.

(** C++ [double]. *)
Definition binary64 : Arith spec_float := binary_arith 53 1024.

(** Exact rational arithmetic: the same operations without rounding. *)
Definition exact : Arith Q := {|
  of_int := inject_Z;
  add := Qplus;
  sub := Qminus;
  div := Qdiv;
  ltb a b := negb (Qle_bool b a)
|}.

(** A coordinate of a 4-D buffer. *)
Definition coord : Type := (Z * Z * Z * Z)%type.

(** Symbolic evaluation: an expression denotes the list of buffer cells it
    loads, in evaluation order; constants load nothing. *)
Definition loads : Arith (list coord) := {|
  of_int _ := [];
  add := @app coord;
  sub := @app coord;
  div := @app coord;
  ltb _ _ := false
|}.

(** ** Halide targets *)

Module Target.

Inductive OS : Type :=
| OSUnknown | Linux | Windows | OSX | Android | IOS | QuRT | NoOS.

(** The GPU API features of [Halide::Target::Feature]; every other feature
    (instruction-set extensions, [JIT], [Debug], ...) is [HostFeature]. *)
Inductive Feature : Type :=
| CUDA | OpenCL | Metal | D3D12Compute | OpenGLCompute
| HostFeature (n : nat).

Definition Feature_eqb (f g : Feature) : bool :=
  match f, g with
  | CUDA, CUDA | OpenCL, OpenCL | Metal, Metal
  | D3D12Compute, D3D12Compute | OpenGLCompute, OpenGLCompute => true
  | HostFeature n, HostFeature m => Nat.eqb n m
  | _, _ => false
  end.

Definition OS_eqb (a b : OS) : bool :=
  match a, b with
  | OSUnknown, OSUnknown | Linux, Linux | Windows, Windows | OSX, OSX
  | Android, Android | IOS, IOS | QuRT, QuRT | NoOS, NoOS => true
  | _, _ => false
  end.

(** [Halide::Target]: the operating system and the set of enabled
    features. *)
Record t : Type := mk { os : OS; features : list Feature }.

Definition has_feature (tg : t) (f : Feature) : bool :=
  existsb (Feature_eqb f) (features tg).

Definition with_feature (tg : t) (f : Feature) : t :=
  {| os := os tg; features := f :: features tg |}.

(** [Target::has_gpu_feature]: some GPU API is enabled. *)
Definition has_gpu_feature (tg : t) : bool :=
  has_feature tg CUDA || has_feature tg OpenCL || has_feature tg Metal
  || has_feature tg D3D12Compute || has_feature tg OpenGLCompute.

End Target.

(** ** Buffers *)

(** [Halide::Buffer<float>]: the extent of each dimension (every minimum is
    0 for the buffers this program builds) and the contents, [None] for
    freshly allocated storage. *)
Record Buffer (F : Type) : Type := mkBuffer {
  extents : list Z;
  data : option (coord -> F)
}.
Arguments mkBuffer {F}.
Arguments extents {F}.
Arguments data {F}.

(** [b.dim(i).extent()] *)
Definition dim_extent {F} (b : Buffer F) (i : nat) : Z := nth i (extents b) 0.

(** [b(n, c, x, y)] *)
Definition load {F} `{Arith F} (b : Buffer F) (n c x y : Z) : F :=
  match data b with
  | Some d => d (n, c, x, y)
  | None => of_int 0
  end.

(** Whether a coordinate lies inside a buffer of the given extents. *)
Definition in_bounds (ext : list Z) (p : coord) : Prop :=
  let '(n, c, x, y) := p in
  0 <= n < nth 0 ext 0 /\ 0 <= c < nth 1 ext 0 /\
  0 <= x < nth 2 ext 0 /\ 0 <= y < nth 3 ext 0.

(** ** The stage graph ([Blur::Blur]) *)

Section Stages.
Context {F : Type} `{Arith F}.

(** The image the stages read, as a function of the four coordinates.
    Halide index expressions are 32-bit and their overflow is undefined;
    coordinates are unbounded integers here. *)
Variable input : Z -> Z -> Z -> Z -> F.

(** [producer(n, c, x, y) = (input(n, c, x, y) + input(n, c, x+1, y)
                             + input(n, c, x+2, y)) / 3] *)
Definition producer (n c x y : Z) : F :=
  div (add (add (input n c x y) (input n c (x + 1) y)) (input n c (x + 2) y))
      (of_int 3).

(** [consumer(n, c, x, y) = (producer(n, c, x, y) + producer(n, c, x, y+1)
                             + producer(n, c, x, y+2)) / 3] *)
Definition consumer (n c x y : Z) : F :=
  div (add (add (producer n c x y) (producer n c x (y + 1)))
           (producer n c x (y + 2)))
      (of_int 3).

(** The 3-tap average the two stages are instances of, with its taps added
    left to right as C++ does. *)
Definition avg3 (a b c : F) : F := div (add (add a b) c) (of_int 3).

End Stages.

(** ** Events: what the harness asks of its collaborators *)

(** The [Var]s the schedule names. *)
Inductive Var : Type :=
| v_n | v_c | v_x | v_y | v_nc | v_nco | v_nci | v_xo | v_xi.

(** The two [Func]s of a [Blur]. *)
Inductive Func : Type := producer_func | consumer_func.

(** What can be compiled and realized: the [Func] [consumer] or the
    [Pipeline] [auto_blur] built from it. *)
Inductive Runnable : Type := run_consumer | run_auto_blur.

Inductive MemoryType : Type := MemoryType_Auto.

(** Scheduling directives of [Halide::Func]. *)
Inductive directive : Type :=
| fuse (inner outer fused : Var)
| tile (x y xo yo xi yi : Var) (xfactor yfactor : Z)
| gpu_blocks (vars : list Var)
| gpu_threads (vars : list Var)
| compute_at (f : Func) (v : Var)
| store_in (m : MemoryType).

Inductive stream : Type := stdout | stderr.

Section Events.
Variable T : Type.

(** An argument of a [printf] call. *)
Inductive arg : Type :=
| AStr (s : string)
| AInt (z : Z)
| ADouble (d : T)
| ATarget (tg : Target.t).

Inductive event : Type :=
| Print (to : stream) (fmt : string) (args : list arg)
| LoadPlugin (name : string)
| NewBuffer (ext : list Z)
| Schedule (f : Func) (d : directive)
| SetEstimates (f : Func) (bounds : list (Z * Z))
| AutoSchedule (name : string) (tg : Target.t)
| CompileJit (r : Runnable) (tg : Target.t)
| Realize (r : Runnable) (out : list Z)
| DeviceSync.

(** What the program reads from its surroundings.  [current_time k] is the
    value of the [k]-th call of [current_time()], in milliseconds;
    [rand k] the value of the [k]-th call of [rand()]. *)
Record Env : Type := mkEnv {
  get_host_target : Target.t;
  host_supports_target_device : Target.t -> bool;
  current_time : nat -> T;
  rand : nat -> Z
}.

(** A computation: from the number of clock readings taken so far to a
    result, the events emitted, and the new number of clock readings. *)
Definition M (A : Type) : Type := nat -> A * list event * nat.

Definition ret {A} (a : A) : M A := fun k => (a, [], k).

Definition bind {A B} (m : M A) (f : A -> M B) : M B :=
  fun k =>
    let '(a, tr, k') := m k in
    let '(b, tr', k'') := f a k' in
    (b, tr ++ tr', k'').

Definition emit (e : event) : M unit := fun k => (tt, [e], k).

Definition read_clock (env : Env) : M T :=
  fun k => (current_time env k, [], S k).

Definition result {A} (r : A * list event * nat) : A := fst (fst r).
Definition trace {A} (r : A * list event * nat) : list event := snd (fst r).

End Events.

Arguments AStr {T}.
Arguments AInt {T}.
Arguments ADouble {T}.
Arguments ATarget {T}.
Arguments Print {T}.
Arguments LoadPlugin {T}.
Arguments NewBuffer {T}.
Arguments Schedule {T}.
Arguments SetEstimates {T}.
Arguments AutoSchedule {T}.
Arguments CompileJit {T}.
Arguments Realize {T}.
Arguments DeviceSync {T}.
Arguments get_host_target {T}.
Arguments host_supports_target_device {T}.
Arguments current_time {T}.
Arguments rand {T}.
Arguments ret {T A}.
Arguments bind {T A B}.
Arguments emit {T}.
Arguments read_clock {T}.
Arguments result {T A}.
Arguments trace {T A}.

Notation "x <- m ;; k" := (bind m (fun x => k))
  (at level 61, m at next level, right associativity).
Notation "m ;; k" := (bind m (fun _ => k))
  (at level 61, right associativity).

Definition printf {T} (fmt : string) (args : list (arg T)) : M T unit :=
  emit (Print stdout fmt args).

Definition fprintf {T} (to : stream) (fmt : string) (args : list (arg T))
  : M T unit :=
  emit (Print to fmt args).

(** [Halide::load_plugin(name)] *)
Definition load_plugin {T} (name : string) : M T unit :=
  emit (LoadPlugin name).

(** [s.empty()] *)
Definition empty (s : string) : bool :=
  match s with
  | EmptyString => true
  | String _ _ => false
  end.

(** ** The program *)

(** The fields of [class Blur] that are data: the [Func]s [producer] and
    [consumer] and the pipeline [auto_blur] are determined by [input] through
    the stage definitions above. *)
Record Blur (F : Type) : Type := mkBlur {
  input : Buffer F;
  scheduler : string
}.
Arguments mkBlur {F}.
Arguments input {F}.
Arguments scheduler {F}.

Section Program.
Context {F T : Type} {float_arith : Arith F} {double_arith : Arith T}.

Variable env : Env T.

(** [Blur::get_output_buffer] *)
Definition get_output_buffer (b : Blur F) : Buffer F :=
  mkBuffer [dim_extent (input b) 0;
            dim_extent (input b) 1;
            sub32 (dim_extent (input b) 2) 2;
            sub32 (dim_extent (input b) 3) 2]
           None.

(** [consumer.realize(output)] and [auto_blur.realize(output)]: every cell
    of the output receives the value of [consumer] there.  A schedule
    changes the order of evaluation, not the values. *)
Definition realize (b : Blur F) (output : Buffer F) : Buffer F :=
  mkBuffer (extents output)
           (Some (fun '(n, c, x, y) => consumer (load (input b)) n c x y)).

(** The candidates of [find_gpu_target], in the order they are tried. *)
Definition features_to_try (target : Target.t) : list Target.Feature :=
  if Target.OS_eqb (Target.os target) Target.OSX
  then [Target.Metal]
  else [Target.CUDA].

(** The loop of [find_gpu_target]: the first candidate the host supports. *)
Fixpoint first_supported (target : Target.t) (fs : list Target.Feature)
  : option Target.t :=
  match fs with
  | [] => None
  | f :: rest =>
      let new_target := Target.with_feature target f in
      if host_supports_target_device env new_target
      then Some new_target
      else first_supported target rest
  end.

(** [find_gpu_target] *)
Definition find_gpu_target : M T Target.t :=
  let target := get_host_target env in
  match first_supported target (features_to_try target) with
  | Some new_target => ret new_target
  | None =>
      printf "Requested GPU(s) are not supported. (Do you have the proper hardware and/or driver installed?)\n" [] ;;
      ret target
  end.

(** The manual CUDA schedule of [schedule_for_gpu]. *)
Definition manual_cuda_schedule : M T unit :=
  emit (Schedule consumer_func (fuse v_n v_c v_nc)) ;;
  emit (Schedule consumer_func (tile v_nc v_x v_nco v_xo v_nci v_xi 32 32)) ;;
  emit (Schedule consumer_func (gpu_blocks [v_nco; v_y])) ;;
  emit (Schedule consumer_func (gpu_threads [v_nci; v_xi])) ;;
  emit (Schedule producer_func (compute_at consumer_func v_nci)) ;;
  emit (Schedule producer_func (store_in MemoryType_Auto)).

(** [Blur::schedule_for_gpu] *)
Definition schedule_for_gpu (b : Blur F) : M T bool :=
  target <- find_gpu_target ;;
  if negb (Target.has_gpu_feature target) then ret false
  else
    (if empty (scheduler b) then
       (if Target.has_feature target Target.CUDA
        then manual_cuda_schedule
        else ret tt) ;;
       printf "Target: %s\n" [ATarget target] ;;
       emit (CompileJit run_consumer target)
     else
       emit (SetEstimates consumer_func
               [(0, dim_extent (input b) 0);
                (0, dim_extent (input b) 1);
                (0, dim_extent (input b) 2);
                (0, dim_extent (input b) 3)]) ;;
       emit (AutoSchedule (scheduler b) target) ;;
       emit (CompileJit run_auto_blur target)) ;;
    ret true.

(** The [if (scheduler.empty()) consumer.realize(output); else
    auto_blur.realize(output);] of [test_performance]. *)
Definition run_filter (b : Blur F) (output : Buffer F) : M T (Buffer F) :=
  emit (Realize (if empty (scheduler b) then run_consumer else run_auto_blur)
                (extents output)) ;;
  ret (realize b output).

(** The timing loop of [test_performance], with [k] iterations left to
    run and [i] the loop counter. *)
Fixpoint timing_loop (b : Blur F) (output : Buffer F) (k : nat) (i : Z)
         (total_time best_time : T) : M T (T * T) :=
  match k with
  | O => ret (total_time, best_time)
  | S k' =>
      t1 <- read_clock env ;;
      output' <- run_filter b output ;;
      emit DeviceSync ;;
      t2 <- read_clock env ;;
      let elapsed := sub t2 t1 in
      let best_time' :=
        if (i =? 0) || ltb elapsed best_time then elapsed else best_time in
      timing_loop b output' k' (i + 1) (add total_time elapsed) best_time'
  end.
(* [i] stays below [num_runs], so the [int] increment [i + 1] never wraps. *)

(** [Blur::test_performance] *)
Definition test_performance (b : Blur F) (num_runs : Z) : M T unit :=
  let output := get_output_buffer b in
  emit (NewBuffer (extents output)) ;;
  output' <- run_filter b output ;;
  r <- timing_loop b output' (Z.to_nat num_runs) 0 (of_int 0) (of_int 0) ;;
  let '(total_time, best_time) := r in
  printf "%d runs in total\n" [AInt num_runs] ;;
  printf "Average: %1.4f milliseconds\n"
         [ADouble (div total_time (of_int num_runs))] ;;
  printf "Best: %1.4f milliseconds\n" [ADouble best_time].

Definition batch_size : Z := 32.
Definition width : Z := 258.
Definition height : Z := 258.
Definition channels_in : Z := 8.

(** The input of [main]: cell [(b, c, h, w)] holds the value of the call
    of [rand()] made for it by the four nested loops. *)
Definition random_input : Buffer F :=
  mkBuffer [batch_size; channels_in; height; width]
           (Some (fun '(b, c, h, w) =>
                    of_int (rand env
                      (Z.to_nat (((b * channels_in + c) * height + h) * width + w))))).

(** The part of [main] after the argument check. *)
Definition benchmark (sched : string) : M T Z :=
  printf "Generating input with dimensions: batch_size: %d, height: %d, width: %d, channels: %d\n"
         [AInt batch_size; AInt height; AInt width; AInt channels_in] ;;
  emit (NewBuffer (extents random_input)) ;;
  printf "Running pipeline on GPU:\n" [] ;;
  let blur_layer := mkBlur random_input sched in
  _ <- schedule_for_gpu blur_layer ;;
  printf "Testing performance on GPU:\n" [] ;;
  test_performance blur_layer 100 ;;
  ret 0.

(** [main]: [argv] holds the program name and the command-line arguments,
    [argc] is its length. *)
Definition main (argv : list string) : M T Z :=
  let argc := Z.of_nat (List.length argv) in
  if argc =? 2 then
    printf "Running performance test for Blur with autoscheduler: %s.\n"
           [AStr (nth 1 argv "")] ;;
    let sched := nth 1 argv "" in
    load_plugin "autoschedule_li2018" ;;
    benchmark sched
  else if argc =? 1 then
    printf "Running performance test for Blur with manual schedule.\n" [] ;;
    benchmark ""
  else
    fprintf stderr "Usage: .//relu_gpu [autoscheduler]\n" [] ;;
    ret 1.

End Program.

(** What a [Blur] object realizes: [consumer] on the manual path,
    [auto_blur] otherwise. *)
Definition runnable_of {F} (b : Blur F) : Runnable :=
  if empty (scheduler b) then run_consumer else run_auto_blur.

(** ** Reading a trace *)

Section Observations.
Context {T : Type}.

Definition is_load_plugin (e : event T) : bool :=
  match e with LoadPlugin _ => true | _ => false end.

Definition is_new_buffer (e : event T) : bool :=
  match e with NewBuffer _ => true | _ => false end.

(** Scheduling: a directive, an estimate or a call of the autoscheduler. *)
Definition is_schedule (e : event T) : bool :=
  match e with
  | Schedule _ _ | SetEstimates _ _ | AutoSchedule _ _ => true
  | _ => false
  end.

Definition is_compile (e : event T) : bool :=
  match e with CompileJit _ _ => true | _ => false end.

Definition is_realize (e : event T) : bool :=
  match e with Realize _ _ => true | _ => false end.

Definition is_device_sync (e : event T) : bool :=
  match e with DeviceSync => true | _ => false end.

(** The names given to [load_plugin], in order. *)
Definition plugins_loaded (tr : list (event T)) : list string :=
  flat_map (fun e => match e with LoadPlugin name => [name] | _ => [] end) tr.

(** The algorithm names given to [auto_schedule], in order. *)
Definition autoschedulers_invoked (tr : list (event T)) : list string :=
  flat_map (fun e => match e with AutoSchedule name _ => [name] | _ => [] end)
           tr.

(** The values printed on standard output by [printf(fmt, d)] calls with
    the given format. *)
Definition printed_doubles (fmt : string) (tr : list (event T)) : list T :=
  flat_map (fun e =>
              match e with
              | Print stdout f [ADouble d] =>
                  if String.eqb f fmt then [d] else []
              | _ => []
              end) tr.

Definition reported_average : list (event T) -> list T :=
  printed_doubles "Average: %1.4f milliseconds\n".

Definition reported_best : list (event T) -> list T :=
  printed_doubles "Best: %1.4f milliseconds\n".

(** One iteration of the timing loop, as events. *)
Definition iteration_events (r : Runnable) (ext : list Z) : list (event T) :=
  [Realize r ext; DeviceSync].

End Observations.

(** The number of clock readings a computation ends with. *)
Definition clock_reads {T A} (r : A * list (event T) * nat) : nat := snd r.

(** Whether two floating-point data are the same datum (not IEEE equality:
    NaN is the same as NaN here, and +0 differs from -0). *)
Definition same_float (a b : spec_float) : bool :=
  match a, b with
  | S754_zero s, S754_zero s' => Bool.eqb s s'
  | S754_infinity s, S754_infinity s' => Bool.eqb s s'
  | S754_nan, S754_nan => true
  | S754_finite s m e, S754_finite s' m' e' =>
      Bool.eqb s s' && Pos.eqb m m' && Z.eqb e e'
  | _, _ => false
  end.

(** What [printf] shows for a [double] under the conversion [%1.4f]: the
    numeral with four digits after the point nearest to the exact value, ties
    to even; given here as a number of ten-thousandths.  [None] for infinities
    and NaN. *)
Definition ten_thousandths (d : spec_float) : option Z :=
  match d with
  | S754_zero _ => Some 0
  | S754_finite s m e =>
      let n := Zpos m * 10000 in
      let shown :=
        if 0 <=? e then n * 2 ^ e
        else
          let q := n / 2 ^ (- e) in
          let r := n mod 2 ^ (- e) in
          match 2 * r ?= 2 ^ (- e) with
          | Lt => q
          | Gt => q + 1
          | Eq => if Z.even q then q else q + 1
          end in
      Some (if s then - shown else shown)
  | S754_infinity _ | S754_nan => None
  end.

(** ** The numbers floating-point data denote *)

(** Powers of two as rationals. *)
Definition pow2 (e : Z) : Q := Qpower (2 # 1) e.

(** The number a finite floating-point datum denotes; 0 for the others. *)
Definition float_value (x : spec_float) : Q :=
  match x with
  | S754_finite s m e =>
      ((if s then - inject_Z (Zpos m) else inject_Z (Zpos m)) * pow2 e)%Q
  | _ => 0%Q
  end.

(** Zero or finite: neither an infinity nor NaN. *)
Definition is_finite (x : spec_float) : bool :=
  match x with
  | S754_zero _ | S754_finite _ _ _ => true
  | _ => false
  end.

(** [x] lies in [[m, m + 1)] at the place [l] says. *)
Definition located (x : Q) (m : Z) (l : location) : Prop :=
  match l with
  | loc_Exact => (x == inject_Z m)%Q
  | loc_Inexact Lt => (inject_Z m < x < inject_Z m + (1 # 2))%Q
  | loc_Inexact Eq => (x == inject_Z m + (1 # 2))%Q
  | loc_Inexact Gt => (inject_Z m + (1 # 2) < x < inject_Z m + 1)%Q
  end.

(** Sign and class of a result: never NaN, and of the sign asked for. *)
Definition signed (s : bool) (r : spec_float) : Prop :=
  match r with
  | S754_zero s' | S754_infinity s' | S754_finite s' _ _ => s' = s
  | S754_nan => False
  end.

(** A magnitude with a sign bit. *)
Definition sgn (s : bool) (v : Q) : Q := if s then (- v)%Q else v.

(** The float is within rounding distance of the number [z]. *)
Definition rounds_to (prec emax : Z) (z : Q) (r : spec_float) : Prop :=
  is_finite r = true
  /\ (Qabs (float_value r - z)
      <= pow2 (- prec) * Qabs z + pow2 (emin prec emax - 1))%Q.

(** [0.0 <= r] *)
Definition nonnegative (r : spec_float) : bool := SFleb (S754_zero false) r.

(** ** The reference computation of the specification *)

(** The sum of [f 0], [f 1], [f 2]. *)
Definition sum_0_2 (f : Z -> Q) : Q :=
  fold_right (fun i acc => f i + acc)%Q 0%Q [0; 1; 2].

(** [out[n,c,x,y] = (1/3) * sum_{j=0..2} (1/3) * sum_{i=0..2}
    input[n,c,x+i,y+j]], in exact arithmetic. *)
Definition reference_blur (inp : Z -> Z -> Z -> Z -> Q) (n c x y : Z) : Q :=
  ((1 # 3) * sum_0_2 (fun j =>
     (1 # 3) * sum_0_2 (fun i => inp n c (x + i)%Z (y + j)%Z)))%Q.

(** The buffer cells [consumer] loads from its input at one coordinate. *)
Definition consumer_loads (n c x y : Z) : list coord :=
  @consumer (list coord) loads (fun n c x y => [(n, c, x, y)]) n c x y.

(** A buffer of the given extents that holds [k] everywhere. *)
Definition constant_buffer {F} (ext : list Z) (k : F) : Buffer F :=
  mkBuffer ext (Some (fun _ => k)).

(** ASCII lower case. *)
Definition lower (a : Ascii.ascii) : Ascii.ascii :=
  let n := Ascii.nat_of_ascii a in
  if (Nat.leb 65 n && Nat.leb n 90)%bool then Ascii.ascii_of_nat (n + 32) else a.

Fixpoint lowercase (s : string) : string :=
  match s with
  | EmptyString => EmptyString
  | String a s' => String (lower a) (lowercase s')
  end.

(** The plugin library that provides a Halide autoscheduler, after Halide's
    naming of them ([Li2018] is in [autoschedule_li2018], [Adams2019] in
    [autoschedule_adams2019], [Mullapudi2016] in
    [autoschedule_mullapudi2016]). *)
Definition plugin_of_autoscheduler (name : string) : string :=
  ("autoschedule_" ++ lowercase name)%string.

(** ** Concrete inputs *)

Module Examples.

(** [float] values. *)
Definition f32_1 : spec_float := S754_finite false 8388608 (-23).
Definition f32_12582914 : spec_float := S754_finite false 12582914 0.
Definition f32_12582915 : spec_float := S754_finite false 12582915 0.

(** [double] values: [t_run] is the least [double] above 1.50055, that is
    6757876420850798 * 2^-52, and [t_run_below] the [double] before it. *)
Definition d_0 : spec_float := S754_zero false.
Definition d_2 : spec_float := S754_finite false 4503599627370496 (-51).
Definition t_run : spec_float := S754_finite false 6757876420850798 (-52).
Definition t_run_below : spec_float := S754_finite false 6757876420850797 (-52).

(** Hosts. *)
Definition linux_host : Target.t :=
  Target.mk Target.Linux [Target.HostFeature 0].
Definition osx_host : Target.t :=
  Target.mk Target.OSX [Target.HostFeature 0].

(** A Linux machine with a working CUDA device and a clock that advances
    one millisecond per reading. *)
Definition cuda_env : Env Q :=
  mkEnv Q linux_host (fun _ => true) (fun k => inject_Z (Z.of_nat k))
        (fun k => Z.of_nat k).

(** A Linux machine without any GPU. *)
Definition no_gpu_env : Env Q :=
  mkEnv Q linux_host (fun _ => false) (fun k => inject_Z (Z.of_nat k))
        (fun k => Z.of_nat k).

(** A Mac with a working Metal device. *)
Definition metal_env : Env Q :=
  mkEnv Q osx_host (fun _ => true) (fun k => inject_Z (Z.of_nat k))
        (fun k => Z.of_nat k).

(** A clock in [double] arithmetic that never runs backwards: three runs
    of [t_run] milliseconds each, read at 0, [t_run], 2, 2 + [t_run],
    2 + [t_run], 2 + 2 * [t_run]; each of these sums is exact. *)
Definition steady_clock (k : nat) : spec_float :=
  let after_2 := SFadd 53 1024 d_2 t_run in
  match k with
  | 0%nat => d_0
  | 1%nat => t_run
  | 2%nat => d_2
  | 3%nat | 4%nat => after_2
  | _ => SFadd 53 1024 after_2 t_run
  end.

Definition rounding_env : Env spec_float :=
  mkEnv spec_float linux_host (fun _ => true) steady_clock
        (fun k => Z.of_nat k).

(** A clock that runs backwards, from 2.0 at its first reading to 0.0 at
    every later one, and a clock stuck at infinity. *)
Definition d_minus_2 : spec_float := S754_finite true 4503599627370496 (-51).

Definition backwards_clock (k : nat) : spec_float :=
  match k with
  | 0%nat => d_2
  | _ => d_0
  end.

Definition backwards_env : Env spec_float :=
  mkEnv spec_float linux_host (fun _ => true) backwards_clock
        (fun k => Z.of_nat k).

Definition stuck_clock (k : nat) : spec_float := S754_infinity false.

Definition stuck_env : Env spec_float :=
  mkEnv spec_float linux_host (fun _ => true) stuck_clock
        (fun k => Z.of_nat k).

(** A 1 x 1 x 3 x 3 image. *)
Definition small_extents : list Z := [1; 1; 3; 3].

(** A 1 x 1 x 3 x 3 image of rationals that holds 9/10 in its nine cells
    and 0 outside them. *)
Definition framed_image : Buffer Q :=
  mkBuffer small_extents
           (Some (fun '(n, c, x, y) =>
                    if (0 <=? n) && (n <? 1) && (0 <=? c) && (c <? 1)
                       && (0 <=? x) && (x <? 3) && (0 <=? y) && (y <? 3)
                    then 9 # 10 else 0%Q)).

(** A 1 x 1 x 3 x 3 image that holds [k] in its nine cells; outside them
    the storage holds NaN. *)
Definition framed_buffer (k : spec_float) : Buffer spec_float :=
  mkBuffer small_extents
           (Some (fun '(n, c, x, y) =>
                    if (0 <=? n) && (n <? 1) && (0 <=? c) && (c <? 1)
                       && (0 <=? x) && (x <? 3) && (0 <=? y) && (y <? 3)
                    then k else S754_nan)).

End Examples.

(** ** Further observations *)

(** The times the timing loop measures when it starts after [c] clock
    readings and runs [n] times: the differences of consecutive pairs of
    readings. *)
Fixpoint elapsed_times {T} `{Arith T} (env : Env T) (c n : nat) : list T :=
  match n with
  | O => []
  | S n' =>
      sub (current_time env (S c)) (current_time env c)
      :: elapsed_times env (S (S c)) n'
  end.

(** What was handed to [compile_jit], in order. *)
Definition runnables_compiled {T} (tr : list (event T)) : list Runnable :=
  flat_map (fun e => match e with CompileJit r _ => [r] | _ => [] end) tr.

(** What was realized, in order. *)
Definition runnables_realized {T} (tr : list (event T)) : list Runnable :=
  flat_map (fun e => match e with Realize r _ => [r] | _ => [] end) tr.

(** The format strings written to standard error, in order. *)
Definition stderr_lines {T} (tr : list (event T)) : list string :=
  flat_map (fun e => match e with Print stderr fmt _ => [fmt] | _ => [] end) tr.

(** The bounds handed to [set_estimates], in order. *)
Definition estimates_set {T} (tr : list (event T)) : list (list (Z * Z)) :=
  flat_map (fun e => match e with SetEstimates _ bounds => [bounds] | _ => [] end)
           tr.

(** The extents of the buffers constructed, in order. *)
Definition buffers_allocated {T} (tr : list (event T)) : list (list Z) :=
  flat_map (fun e => match e with NewBuffer ext => [ext] | _ => [] end) tr.

(** An image with its two spatial coordinates exchanged. *)
Definition transpose {F} (inp : Z -> Z -> Z -> Z -> F) (n c x y : Z) : F :=
  inp n c y x.

(** A 1 x 1 x 3 x 3 image that holds NaN in its last cell and 1.0
    elsewhere, and one that counts its cells along the third coordinate. *)
Definition nan_corner_buffer : Buffer spec_float :=
  mkBuffer [1; 1; 3; 3]
           (Some (fun '(n, c, x, y) =>
                    if (x =? 2) && (y =? 2) then S754_nan
                    else S754_finite false 8388608 (-23))).

Definition ramp_buffer : Buffer Q :=
  mkBuffer [1; 1; 3; 3] (Some (fun '(n, c, x, y) => inject_Z x)).

(** * Properties *)

(** The example values are well-formed numbers of their formats. *)
Lemma examples_valid :
  forallb (valid_binary 24 128)
          [Examples.f32_1; Examples.f32_12582914; Examples.f32_12582915]
  = true
  /\ forallb (fun k => valid_binary 53 1024 (Examples.steady_clock k))
             (seq 0 8)
     = true
  /\ valid_binary 53 1024 Examples.t_run_below = true.
Proof. repeat split; vm_compute; reflexivity. Qed.

(** Inside its extents the framed image holds its value. *)
Lemma framed_buffer_inside (k : spec_float) (n c x y : Z) :
  in_bounds Examples.small_extents (n, c, x, y) ->
  @load _ binary32 (Examples.framed_buffer k) n c x y = k.
Proof.
  unfold Examples.small_extents. cbn [in_bounds nth].
  intros (Hn & Hc & Hx & Hy).
  unfold load, Examples.framed_buffer. cbn [data].
  replace (0 <=? n) with true by (symmetry; apply Z.leb_le; lia).
  replace (n <? 1) with true by (symmetry; apply Z.ltb_lt; lia).
  replace (0 <=? c) with true by (symmetry; apply Z.leb_le; lia).
  replace (c <? 1) with true by (symmetry; apply Z.ltb_lt; lia).
  replace (0 <=? x) with true by (symmetry; apply Z.leb_le; lia).
  replace (x <? 3) with true by (symmetry; apply Z.ltb_lt; lia).
  replace (0 <=? y) with true by (symmetry; apply Z.leb_le; lia).
  replace (y <? 3) with true by (symmetry; apply Z.ltb_lt; lia).
  reflexivity.
Qed.

Lemma framed_image_inside (n c x y : Z) :
  in_bounds Examples.small_extents (n, c, x, y) ->
  (@load Q exact Examples.framed_image n c x y == 9 # 10)%Q.
Proof.
  unfold Examples.small_extents. cbn [in_bounds nth].
  intros (Hn & Hc & Hx & Hy).
  unfold load, Examples.framed_image. cbn [data].
  replace (0 <=? n) with true by (symmetry; apply Z.leb_le; lia).
  replace (n <? 1) with true by (symmetry; apply Z.ltb_lt; lia).
  replace (0 <=? c) with true by (symmetry; apply Z.leb_le; lia).
  replace (c <? 1) with true by (symmetry; apply Z.ltb_lt; lia).
  replace (0 <=? x) with true by (symmetry; apply Z.leb_le; lia).
  replace (x <? 3) with true by (symmetry; apply Z.ltb_lt; lia).
  replace (0 <=? y) with true by (symmetry; apply Z.leb_le; lia).
  replace (y <? 3) with true by (symmetry; apply Z.ltb_lt; lia).
  reflexivity.
Qed.

(** ** Machine integers *)

Lemma wrap32_small (z : Z) : - 2 ^ 31 <= z < 2 ^ 31 -> wrap32 z = z.
Proof.
  intros Hz. unfold wrap32.
  rewrite Z.mod_small by lia. lia.
Qed.

Lemma sub32_extent (e : Z) : 0 <= e <= INT_MAX -> sub32 e 2 = e - 2.
Proof.
  unfold INT_MAX, sub32. intros He. apply wrap32_small. lia.
Qed.

(** ** Rounding to nearest

    What [binary_round_aux], and with it [SFadd], [SFsub] and [SFdiv], return,
    against the exact result.  The exact numbers are rationals; [prec] and
    [emax] are those of the format, with [0 < prec < emax]. *)

(** *** Powers of two *)

Lemma pow2_pos (e : Z) : (0 < pow2 e)%Q.
Proof. unfold pow2. apply Qpower_0_lt. reflexivity. Qed.

Lemma pow2_add (a b : Z) : (pow2 (a + b) == pow2 a * pow2 b)%Q.
Proof. unfold pow2. apply Qpower_plus. discriminate. Qed.

Lemma pow2_0 : (pow2 0 == 1)%Q.
Proof. reflexivity. Qed.

Lemma pow2_1 : (pow2 1 == 2)%Q.
Proof. reflexivity. Qed.

Lemma pow2_succ (e : Z) : (pow2 (e + 1) == 2 * pow2 e)%Q.
Proof. rewrite pow2_add, pow2_1. ring. Qed.

Lemma pow2_pred (e : Z) : (pow2 (e - 1) == (1 # 2) * pow2 e)%Q.
Proof.
  replace e with ((e - 1) + 1) at 2 by lia. rewrite pow2_succ. field.
Qed.

Lemma pow2_inject (k : Z) : 0 <= k -> (pow2 k == inject_Z (2 ^ k))%Q.
Proof.
  intros Hk. unfold pow2.
  destruct k as [| p | p]; [reflexivity | | lia].
  cbn [Qpower]. 
  rewrite <- (Zpower_Qpower 2 (Zpos p)) by lia. reflexivity.
Qed.

Lemma pow2_le (a b : Z) : a <= b -> (pow2 a <= pow2 b)%Q.
Proof.
  intros H. replace b with (a + (b - a)) by lia. rewrite pow2_add.
  assert (1 <= pow2 (b - a))%Q.
  { rewrite pow2_inject by lia. change 1%Q with (inject_Z 1).
    rewrite <- Zle_Qle. assert (0 < 2 ^ (b - a)) by (apply Z.pow_pos_nonneg; lia). lia. }
  pose proof (pow2_pos a). nra.
Qed.

Lemma pow2_lt (a b : Z) : a < b -> (pow2 a < pow2 b)%Q.
Proof.
  intros H. replace b with (a + 1 + (b - a - 1)) by lia.
  rewrite pow2_add, pow2_succ.
  assert (1 <= pow2 (b - a - 1))%Q.
  { rewrite pow2_inject by lia. change 1%Q with (inject_Z 1).
    rewrite <- Zle_Qle. assert (0 < 2 ^ (b - a - 1)) by (apply Z.pow_pos_nonneg; lia). lia. }
  pose proof (pow2_pos a). nra.
Qed.

(** *** Shifting to the right

    [shr_fexp] drops the low bits of a mantissa and remembers, in a
    [location], where the number it started from lies between the truncated
    mantissa and the next one. *)

Lemma located_ext (x y : Q) (m : Z) (l : location) :
  (x == y)%Q -> located x m l -> located y m l.
Proof.
  intros E. destruct l as [| []]; cbn [located]; rewrite E; trivial.
Qed.

(** [iter_pos] iterates as many times as its argument says. *)
Lemma iter_pos_nat {A} (f : A -> A) (p : positive) (x : A) :
  iter_pos f p x = Nat.iter (Pos.to_nat p) f x.
Proof.
  revert x. induction p as [p IH | p IH |]; intros x; cbn [iter_pos].
  - rewrite !IH, Pos2Nat.inj_xI.
    replace (S (2 * Pos.to_nat p)) with (Pos.to_nat p + Pos.to_nat p + 1)%nat by lia.
    rewrite !Nat.iter_add. reflexivity.
  - rewrite !IH, Pos2Nat.inj_xO.
    replace (2 * Pos.to_nat p)%nat with (Pos.to_nat p + Pos.to_nat p)%nat by lia.
    rewrite !Nat.iter_add. reflexivity.
  - reflexivity.
Qed.

(** A shift record remembers the location and the mantissa it was made
    from. *)
Lemma loc_of_record (m : Z) (l : location) :
  loc_of_shr_record (shr_record_of_loc m l) = l
  /\ shr_m (shr_record_of_loc m l) = m.
Proof. destruct l as [| []]; split; reflexivity. Qed.

Lemma inject_Z_xO (p : positive) : (inject_Z (Zpos p~0) == 2 * inject_Z (Zpos p))%Q.
Proof. unfold Qeq, Qmult, inject_Z. cbn. lia. Qed.

Lemma inject_Z_xI (p : positive) : (inject_Z (Zpos p~1) == 2 * inject_Z (Zpos p) + 1)%Q.
Proof. unfold Qeq, Qmult, Qplus, inject_Z. cbn. lia. Qed.

(** One step of right shift keeps track of where the exact value lies. *)
Lemma shr_1_located (x : Q) (mrs : shr_record) :
  0 <= shr_m mrs ->
  located x (shr_m mrs) (loc_of_shr_record mrs) ->
  located (x * (1 # 2)) (shr_m (shr_1 mrs)) (loc_of_shr_record (shr_1 mrs))
  /\ 0 <= shr_m (shr_1 mrs).
Proof.
  destruct mrs as [m r s]. cbn [shr_m]. intros Hm.
  destruct m as [| p | p]; [| | lia].
  - destruct r, s; cbn; intros H; split; try lia; change (inject_Z 0) with 0%Q in *; lra.
  - destruct p as [p | p |]; destruct r, s; cbn -[inject_Z]; intros H; split; try lia;
      rewrite ?inject_Z_xO, ?inject_Z_xI in H;
      change (inject_Z 1) with 1%Q in *; change (inject_Z 0) with 0%Q in *; lra.
Qed.

(** [k] steps of right shift divide by [2^k]. *)
Lemma shr_iter_located (k : nat) :
  forall (x : Q) (mrs : shr_record),
    0 <= shr_m mrs ->
    located x (shr_m mrs) (loc_of_shr_record mrs) ->
    located (x * pow2 (- Z.of_nat k)) (shr_m (Nat.iter k shr_1 mrs))
            (loc_of_shr_record (Nat.iter k shr_1 mrs))
    /\ 0 <= shr_m (Nat.iter k shr_1 mrs).
Proof.
  induction k as [| k IH]; intros x mrs Hm H.
  - cbn [Nat.iter Z.of_nat Z.opp]. split; [| exact Hm].
    apply (located_ext x); [rewrite pow2_0; ring | exact H].
  - cbn [Nat.iter]. destruct (IH x mrs Hm H) as [H1 H2].
    destruct (shr_1_located _ _ H2 H1) as [H3 H4]. split; [| exact H4].
    eapply located_ext; [| exact H3].
    replace (- Z.of_nat (S k)) with (- Z.of_nat k - 1) by lia.
    rewrite pow2_pred. ring.
Qed.

Section ShiftRight.
Variables prec emax : Z.
Hypothesis Hprec : 0 < prec.
Hypothesis Hemax : prec < emax.


(** [shr_fexp] brings the exponent up to [fexp] of the magnitude, if it
    was below. *)
Lemma shr_fexp_spec (x : Q) (m e : Z) (l : location) :
  0 <= m ->
  located x m l ->
  let r := shr_fexp prec emax m e l in
  snd r = Z.max e (fexp prec emax (Zdigits2 m + e))
  /\ located (x * pow2 (e - snd r)) (shr_m (fst r)) (loc_of_shr_record (fst r))
  /\ 0 <= shr_m (fst r).
Proof.
  intros Hm H r. subst r. unfold shr_fexp, shr.
  destruct (loc_of_record m l) as [Hl Hs].
  destruct (fexp prec emax (Zdigits2 m + e) - e) as [| p | p] eqn:En; cbn [fst snd].
  - split; [lia |]. rewrite Hl, Hs. split; [| exact Hm].
    apply (located_ext x); [| exact H].
    replace (e - e) with 0 by lia. rewrite pow2_0. ring.
  - split; [lia |]. rewrite iter_pos_nat.
    replace (e - (e + Z.pos p)) with (- Z.of_nat (Pos.to_nat p)) by lia.
    apply shr_iter_located; rewrite ?Hs, ?Hl; assumption.
  - split; [lia |]. rewrite Hl, Hs. split; [| exact Hm].
    apply (located_ext x); [| exact H].
    replace (e - e) with 0 by lia. rewrite pow2_0. ring.
Qed.

(** Round to nearest, ties to even. *)
Lemma round_nearest_even_spec (y : Q) (m : Z) (l : location) :
  located y m l ->
  let M := round_nearest_even m l in
  (Qabs (inject_Z M - y) <= 1 # 2)%Q
  /\ m <= M <= m + 1
  /\ (l = loc_Exact -> M = m).
Proof.
  intros H M. subst M.
  destruct l as [| []]; cbn [located round_nearest_even] in *.
  - split; [| split; [lia | reflexivity]].
    apply Qabs_Qle_condition. lra.
  - destruct (Z.even m); (split; [| split; [lia | discriminate]]);
      apply Qabs_Qle_condition; rewrite ?inject_Z_plus;
      change (inject_Z 1) with 1%Q; lra.
  - split; [| split; [lia | discriminate]].
    apply Qabs_Qle_condition. lra.
  - split; [| split; [lia | discriminate]].
    apply Qabs_Qle_condition. rewrite inject_Z_plus.
    change (inject_Z 1) with 1%Q. lra.
Qed.

End ShiftRight.

(** *** The number of binary digits *)

Lemma digits2_pos_bounds (p : positive) :
  2 ^ (Zpos (digits2_pos p) - 1) <= Zpos p < 2 ^ Zpos (digits2_pos p).
Proof.
  induction p as [p IH | p IH |]; cbn [digits2_pos].
  - rewrite Pos2Z.inj_succ.
    replace (Z.succ (Zpos (digits2_pos p)) - 1) with (Z.succ (Zpos (digits2_pos p) - 1)) by lia.
    rewrite !Z.pow_succ_r by lia. lia.
  - rewrite Pos2Z.inj_succ.
    replace (Z.succ (Zpos (digits2_pos p)) - 1) with (Z.succ (Zpos (digits2_pos p) - 1)) by lia.
    rewrite !Z.pow_succ_r by lia. lia.
  - cbn. lia.
Qed.

Lemma Zdigits2_nonneg (z : Z) : 0 <= Zdigits2 z.
Proof. destruct z; cbn; lia. Qed.

Lemma Zdigits2_bounds (z : Z) :
  0 < z -> 2 ^ (Zdigits2 z - 1) <= z < 2 ^ Zdigits2 z.
Proof.
  destruct z as [| p | p]; try lia. intros _. apply digits2_pos_bounds.
Qed.

Lemma Zdigits2_le (z k : Z) : 0 <= k -> 0 <= z < 2 ^ k -> Zdigits2 z <= k.
Proof.
  intros Hk [Hz Hlt].
  destruct (Z.eq_dec z 0) as [-> | Hne]; [cbn; lia |].
  destruct (Zdigits2_bounds z ltac:(lia)) as [Hlo _].
  destruct (Z_le_gt_dec (Zdigits2 z) k) as [Hd | Hd]; [exact Hd | exfalso].
  assert (2 ^ k <= 2 ^ (Zdigits2 z - 1)) by (apply Z.pow_le_mono_r; lia).
  lia.
Qed.

Lemma Zdigits2_gt (z k : Z) : 0 <= k -> 2 ^ k <= z -> k < Zdigits2 z.
Proof.
  intros Hk Hle.
  assert (0 < 2 ^ k) by (apply Z.pow_pos_nonneg; lia).
  destruct (Zdigits2_bounds z ltac:(lia)) as [_ Hhi].
  destruct (Z_lt_le_dec k (Zdigits2 z)) as [Hd | Hd]; [exact Hd | exfalso].
  assert (2 ^ Zdigits2 z <= 2 ^ k)
    by (apply Z.pow_le_mono_r; [lia | exact Hd]).
  lia.
Qed.

Lemma Zdigits2_pow2 (k : Z) : 0 <= k -> Zdigits2 (2 ^ k) = k + 1.
Proof.
  intros Hk.
  assert (Hlt : k < Zdigits2 (2 ^ k)) by (apply Zdigits2_gt; lia).
  assert (Hle : Zdigits2 (2 ^ k) <= k + 1).
  { apply Zdigits2_le; [lia |]. rewrite Z.pow_add_r by lia.
    assert (0 < 2 ^ k) by (apply Z.pow_pos_nonneg; lia). lia. }
  lia.
Qed.

(** *** Signs *)

Lemma located_bounds (x : Q) (m : Z) (l : location) :
  located x m l -> (inject_Z m <= x < inject_Z m + 1)%Q.
Proof. destruct l as [| []]; cbn [located]; lra. Qed.

Lemma inject_Z_lt_succ (a b : Z) :
  (inject_Z a < inject_Z b + 1)%Q -> a <= b.
Proof.
  intros H. change 1%Q with (inject_Z 1) in H.
  rewrite <- inject_Z_plus, <- Zlt_Qlt in H. lia.
Qed.



Section Signs.
Variables prec emax : Z.
Hypothesis Hprec : 0 < prec.
Hypothesis Hemax : prec < emax.

(** The exponent of the last place of a number of magnitude [2^k]. *)
Lemma fexp_ge_emin (k : Z) : emin prec emax <= fexp prec emax k.
Proof. unfold fexp. lia. Qed.

Lemma fexp_cases (k : Z) :
  (fexp prec emax k = k - prec /\ emin prec emax <= k - prec)
  \/ (fexp prec emax k = emin prec emax /\ k - prec <= emin prec emax).
Proof. unfold fexp. lia. Qed.

Lemma shr_1_nonneg (mrs : shr_record) : 0 <= shr_m mrs -> 0 <= shr_m (shr_1 mrs).
Proof.
  destruct mrs as [m r s]. cbn [shr_m]. intros H.
  destruct m as [| [p | p |] | p]; cbn; lia.
Qed.

Lemma shr_iter_nonneg (k : nat) (mrs : shr_record) :
  0 <= shr_m mrs -> 0 <= shr_m (Nat.iter k shr_1 mrs).
Proof.
  intros H. induction k as [| k IH]; cbn [Nat.iter];
    [exact H | now apply shr_1_nonneg].
Qed.

Lemma shr_fexp_nonneg (m e : Z) (l : location) :
  0 <= m -> 0 <= shr_m (fst (shr_fexp prec emax m e l)).
Proof.
  intros Hm. unfold shr_fexp, shr.
  destruct (loc_of_record m l) as [_ Hs].
  destruct (fexp prec emax (Zdigits2 m + e) - e) as [| p | p]; cbn [fst];
    rewrite ?Hs; try exact Hm.
  rewrite iter_pos_nat. apply shr_iter_nonneg. now rewrite Hs.
Qed.

Lemma round_nearest_even_ge (m : Z) (l : location) :
  m <= round_nearest_even m l.
Proof. destruct l as [| []]; cbn; try destruct (Z.even m); lia. Qed.

(** Rounding never produces NaN and gives the sign it is asked for. *)
Lemma binary_round_aux_signed (sx : bool) (mx ex : Z) (lx : location) :
  0 <= mx -> signed sx (binary_round_aux prec emax sx mx ex lx).
Proof.
  intros Hm. unfold binary_round_aux.
  pose proof (shr_fexp_nonneg mx ex lx Hm) as H1.
  destruct (shr_fexp prec emax mx ex lx) as [mrs1 e1]. cbn [fst] in H1.
  pose proof (round_nearest_even_ge (shr_m mrs1) (loc_of_shr_record mrs1)) as H2.
  pose proof (shr_fexp_nonneg
                (round_nearest_even (shr_m mrs1) (loc_of_shr_record mrs1))
                e1 loc_Exact ltac:(lia)) as H3.
  destruct (shr_fexp prec emax _ e1 loc_Exact) as [mrs2 e2]. cbn [fst] in H3.
  destruct (shr_m mrs2) as [| p | p]; [reflexivity | | lia].
  destruct (e2 <=? emax - prec); reflexivity.
Qed.

End Signs.

(** *** The error of one rounding *)

Lemma located_integer (K m : Z) (l : location) :
  located (inject_Z K) m l -> m = K.
Proof.
  intros H. pose proof (located_bounds _ _ _ H) as [H1 H2].
  rewrite <- Zle_Qle in H1. apply inject_Z_lt_succ in H2. lia.
Qed.

Lemma Qmult_lt_compat_pos (a b c : Q) : (0 < c -> a < b -> a * c < b * c)%Q.
Proof. intros. nra. Qed.

Section RoundingError.
Variables prec emax : Z.
Hypothesis Hprec : 0 < prec.
Hypothesis Hemax : prec < emax.

(** [binary_round_aux], given a non-negative mantissa [mx], where the
    number [x] lies between [mx] and [mx + 1], and an exponent [ex] not above
    that of the last place, rounds [x * 2^ex] to a finite number whose
    magnitude differs from it by at most half a unit in the last place,
    provided [x * 2^ex] is below [2^(emax - 1)]. *)
Lemma binary_round_aux_error (sx : bool) (mx ex : Z) (lx : location) (x : Q) :
  0 <= mx ->
  located x mx lx ->
  ex <= fexp prec emax (Zdigits2 mx + ex) ->
  (x * pow2 ex < pow2 (emax - 1))%Q ->
  let r := binary_round_aux prec emax sx mx ex lx in
  is_finite r = true
  /\ valid_binary prec emax r = true
  /\ signed sx r
  /\ exists V : Q,
       (0 <= V)%Q
       /\ (float_value r == sgn sx V)%Q
       /\ (Qabs (V - x * pow2 ex)
           <= (1 # 2) * pow2 (fexp prec emax (Zdigits2 mx + ex)))%Q.
Proof.
  intros Hm Hloc Hcanon Hover r.
  pose proof (binary_round_aux_signed prec emax sx mx ex lx Hm) as Hsigned.
  fold r in Hsigned.
  set (d := Zdigits2 mx) in *. set (e1 := fexp prec emax (d + ex)) in *.
  pose proof (fexp_ge_emin prec emax (d + ex)) as Hemin. fold e1 in Hemin.
  assert (He1d : d + ex - prec <= e1) by (unfold e1, fexp; lia).
  pose proof (Zdigits2_nonneg mx) as Hd0. fold d in Hd0.
  (* first shift *)
  pose proof (shr_fexp_spec prec emax x mx ex lx Hm Hloc) as H1.
  cbv zeta in H1. fold d in H1. fold e1 in H1.
  subst r. unfold binary_round_aux in *. fold d in Hsigned |- *. 
  destruct (shr_fexp prec emax mx ex lx) as [mrs1 e1'].
  cbn [fst snd] in H1. destruct H1 as (He1 & Hloc1 & Hm1).
  assert (Hmax : Z.max ex e1 = e1) by lia.
  rewrite Hmax in He1. subst e1'. clear Hmax.
  set (m1 := shr_m mrs1) in *. set (l1 := loc_of_shr_record mrs1) in *.
  set (y := (x * pow2 (ex - e1))%Q) in *.
  pose proof (round_nearest_even_spec y m1 l1 Hloc1) as HM.
  cbv zeta in HM. set (M := round_nearest_even m1 l1) in *.
  destruct HM as (Habs & HM & _).
  pose proof (located_bounds _ _ _ Hloc) as [Hxlo Hxhi].
  pose proof (located_bounds _ _ _ Hloc1) as [Hylo Hyhi].
  (* X = y * 2^e1 *)
  assert (HX : (x * pow2 ex == y * pow2 e1)%Q).
  { unfold y. rewrite <- Qmult_assoc, <- pow2_add.
    replace (ex - e1 + e1) with ex by lia. reflexivity. }
  (* the shifted mantissa has at most prec digits *)
  assert (Hmx1 : mx + 1 <= 2 ^ d).
  { destruct (Z.eq_dec mx 0) as [-> | Hne].
    - unfold d. cbn. lia.
    - pose proof (Zdigits2_bounds mx ltac:(lia)). unfold d. lia. }
  assert (Hy : (y < pow2 prec)%Q).
  { assert (Hx : (x < pow2 d)%Q).
    { rewrite (pow2_inject d Hd0). 
      apply Qlt_le_trans with (inject_Z mx + 1)%Q; [exact Hxhi |].
      change 1%Q with (inject_Z 1). rewrite <- inject_Z_plus, <- Zle_Qle. lia. }
    unfold y.
    apply Qlt_le_trans with (pow2 d * pow2 (ex - e1))%Q.
    - apply Qmult_lt_compat_pos; [apply pow2_pos | exact Hx].
    - rewrite <- pow2_add. apply pow2_le. lia. }
  assert (Hm1p : m1 < 2 ^ prec).
  { rewrite (pow2_inject prec) in Hy by lia. 
    assert (inject_Z m1 < inject_Z (2 ^ prec))%Q by lra.
    now rewrite <- Zlt_Qlt in H. }
  assert (HMp : 0 <= M <= 2 ^ prec) by lia.
  (* second shift *)
  pose proof (shr_fexp_spec prec emax (inject_Z M) M e1 loc_Exact
                ltac:(lia) (Qeq_refl _)) as H2.
  cbv zeta in H2.
  destruct (shr_fexp prec emax M e1 loc_Exact) as [mrs2 e2].
  cbn [fst snd] in H2. destruct H2 as (He2 & Hloc2 & Hm2).
  set (m2 := shr_m mrs2) in *.
  assert (H2p : 0 < 2 ^ (prec - 1)) by (apply Z.pow_pos_nonneg; lia).
  assert (Hpp : 2 ^ prec = 2 * 2 ^ (prec - 1)).
  { replace prec with (Z.succ (prec - 1)) at 1 by lia.
    rewrite Z.pow_succ_r by lia. reflexivity. }
  assert (Hcases : (e2 = e1 /\ m2 = M /\ M < 2 ^ prec)
                   \/ (e2 = e1 + 1 /\ m2 = 2 ^ (prec - 1) /\ M = 2 ^ prec)).
  { destruct (Z.eq_dec M (2 ^ prec)) as [HMeq | HMne].
    - right. rewrite HMeq in He2. rewrite Zdigits2_pow2 in He2 by lia.
      assert (e2 = e1 + 1) by (unfold fexp in He2; lia).
      split; [assumption |]. split; [| assumption].
      clear He2. subst e2. apply (located_integer _ _ (loc_of_shr_record mrs2)).
      eapply located_ext; [| exact Hloc2].
      replace (e1 - (e1 + 1)) with (0 - 1) by lia.
      rewrite pow2_pred, pow2_0, HMeq, Hpp, inject_Z_mult.
      change (inject_Z 2) with 2%Q. field.
    - left. assert (HMlt : M < 2 ^ prec) by lia.
      pose proof (Zdigits2_le M prec ltac:(lia) ltac:(lia)) as HdM.
      assert (e2 = e1) by (unfold fexp in He2; lia).
      split; [assumption |]. split; [| assumption].
      clear He2. subst e2. apply (located_integer _ _ (loc_of_shr_record mrs2)).
      eapply located_ext; [| exact Hloc2].
      replace (e1 - e1) with 0 by lia. rewrite pow2_0. ring. }
  assert (HV : (inject_Z m2 * pow2 e2 == inject_Z M * pow2 e1)%Q).
  { destruct Hcases as [(-> & -> & _) | (-> & -> & ->)]; [reflexivity |].
    rewrite pow2_succ, Hpp, inject_Z_mult. change (inject_Z 2) with 2%Q. ring. }
  (* above the subnormal range the shifted mantissa has all its digits *)
  assert (Hnormal : e1 = d + ex - prec -> (pow2 (prec - 1) <= y)%Q).
  { intros He1eq.
    assert (Hmx0 : 0 < mx).
    { destruct (Z.eq_dec mx 0) as [E | E]; [| lia].
      exfalso. unfold d in He1eq. rewrite E in He1eq. cbn in He1eq. lia. }
    pose proof (Zdigits2_bounds mx Hmx0) as [Hlo _]. fold d in Hlo.
    assert (Hd1 : 1 <= d).
    { unfold d. destruct mx; cbn; lia. }
    unfold y.
    apply Qle_trans with (pow2 (d - 1) * pow2 (ex - e1))%Q.
    + rewrite <- pow2_add. apply pow2_le. lia.
    + assert (pow2 (d - 1) <= x)%Q.
      { rewrite (pow2_inject (d - 1)) by lia.
        apply Qle_trans with (inject_Z mx); [| exact Hxlo].
        now rewrite <- Zle_Qle. }
      pose proof (pow2_pos (ex - e1)). nra. }
  (* the result is canonical *)
  assert (Hcanon2 : fexp prec emax (Zdigits2 m2 + e2) = e2).
  { destruct Hcases as [(E2 & Em & HMlt) | (E2 & Em & HMeq)]; rewrite E2, Em.
    - pose proof (Zdigits2_le M prec ltac:(lia) ltac:(lia)) as HdM.
      destruct (fexp_cases prec emax (d + ex)) as [[Hf Hge] | [Hf Hle]];
        fold e1 in Hf.
      + specialize (Hnormal Hf).
        assert (HM1 : 2 ^ (prec - 1) <= M).
        { rewrite (pow2_inject (prec - 1)) in Hnormal by lia.
          assert (Hlt1 : (inject_Z (2 ^ (prec - 1)) < inject_Z m1 + 1)%Q) by lra.
          apply inject_Z_lt_succ in Hlt1. lia. }
        pose proof (Zdigits2_gt M (prec - 1) ltac:(lia) HM1).
        unfold fexp. lia.
      + unfold fexp. lia.
    - rewrite Zdigits2_pow2 by lia. unfold fexp. lia. }
  (* no overflow *)
  assert (Hfit : m2 = 0 \/ e2 <= emax - prec).
  { destruct (Z_le_gt_dec e2 (emax - prec)) as [Hle | Hgt]; [now right | exfalso].
    assert (Hbig : (pow2 (prec - 1) <= y)%Q /\ emax - prec <= e1).
    { destruct Hcases as [(-> & _ & _) | (-> & _ & HMeq)].
      - split; [| lia].
        assert (He1ne : emin prec emax < e1) by (unfold emin; lia).
        apply Hnormal. unfold e1, fexp in *. lia.
      - split; [| lia].
        apply Qabs_Qle_condition in Habs.
        rewrite HMeq, Hpp, inject_Z_mult in Habs.
        change (inject_Z 2) with 2%Q in Habs.
        rewrite (pow2_inject (prec - 1)) by lia.
        assert (1 <= inject_Z (2 ^ (prec - 1)))%Q.
        { change 1%Q with (inject_Z 1). rewrite <- Zle_Qle. lia. }
        lra. }
    destruct Hbig as [Hbig He1big].
    assert (pow2 (emax - 1) <= y * pow2 e1)%Q.
    { apply Qle_trans with (pow2 (prec - 1) * pow2 e1)%Q.
      - rewrite <- pow2_add. apply pow2_le. lia.
      - pose proof (pow2_pos e1). nra. }
    rewrite HX in Hover. lra. }
  (* conclusion *)
  assert (Herr : (Qabs (inject_Z M * pow2 e1 - x * pow2 ex)
                  <= (1 # 2) * pow2 e1)%Q).
  { rewrite HX.
    setoid_replace (inject_Z M * pow2 e1 - y * pow2 e1)%Q
      with ((inject_Z M - y) * pow2 e1)%Q by ring.
    rewrite Qabs_Qmult, (Qabs_pos (pow2 e1)) by (apply Qlt_le_weak, pow2_pos).
    pose proof (pow2_pos e1). nra. }
  assert (HV0 : (0 <= inject_Z M * pow2 e1)%Q).
  { assert (0 <= inject_Z M)%Q by (change 0%Q with (inject_Z 0); rewrite <- Zle_Qle; lia).
    pose proof (pow2_pos e1). nra. }
  destruct m2 as [| p | p] eqn:Em2; [| | lia].
  - split; [reflexivity |]. split; [reflexivity |]. split; [reflexivity |].
    exists (inject_Z M * pow2 e1)%Q. split; [exact HV0 |]. split; [| exact Herr].
    destruct sx; cbn [float_value sgn]; rewrite <- HV; ring.
  - destruct Hfit as [Hz | Hle]; [discriminate |].
    apply Z.leb_le in Hle. rewrite Hle.
    split; [reflexivity |]. split.
    { cbn [valid_binary]. unfold bounded, canonical_mantissa.
      cbn [Zdigits2] in Hcanon2. rewrite Hcanon2, Z.eqb_refl, Hle.
      reflexivity. }
    split; [reflexivity |].
    exists (inject_Z M * pow2 e1)%Q. split; [exact HV0 |]. split; [| exact Herr].
    destruct sx; cbn [float_value sgn]; rewrite <- HV; ring.
Qed.

End RoundingError.

(** *** Normalizing an integer times a power of two *)

Lemma inject_Z_nonneg (z : Z) : 0 <= z -> (0 <= inject_Z z)%Q.
Proof. intros H. change 0%Q with (inject_Z 0). now rewrite <- Zle_Qle. Qed.

Lemma inject_Z_pos (z : Z) : 0 < z -> (0 < inject_Z z)%Q.
Proof. intros H. change 0%Q with (inject_Z 0). now rewrite <- Zlt_Qlt. Qed.

Lemma Qabs_sgn (s : bool) (a b : Q) :
  (Qabs (sgn s a - sgn s b) == Qabs (a - b))%Q.
Proof.
  destruct s; cbn [sgn]; [| reflexivity].
  setoid_replace (- a - - b)%Q with (- (a - b))%Q by ring.
  apply Qabs_opp.
Qed.

Lemma Qabs_sgn_nonneg (s : bool) (a : Q) : (0 <= a -> Qabs (sgn s a) == a)%Q.
Proof.
  intros H. destruct s; cbn [sgn].
  - rewrite Qabs_opp. now apply Qabs_pos.
  - now apply Qabs_pos.
Qed.

#[local] Instance sgn_proper : Proper (eq ==> Qeq ==> Qeq) sgn.
Proof. intros s s' <- a b Hab. destruct s; cbn [sgn]; now rewrite Hab. Qed.

(** Shifting a mantissa to the left. *)
Lemma iter_xO_spec (m d : positive) :
  Zpos (Pos.iter xO m d) = Zpos m * 2 ^ Zpos d
  /\ digits2_pos (Pos.iter xO m d) = (digits2_pos m + d)%positive.
Proof.
  induction d as [| d IH] using Pos.peano_ind.
  - cbn [Pos.iter]. split; [lia |]. cbn [digits2_pos]. lia.
  - rewrite Pos.iter_succ. destruct IH as [IH1 IH2]. split.
    + rewrite Pos2Z.inj_xO, IH1, Pos2Z.inj_succ, Z.pow_succ_r by lia. ring.
    + cbn [digits2_pos]. rewrite IH2. lia.
Qed.

(** [shl_align] lowers the exponent to the one asked for, if it was
    above, and keeps the value. *)
Lemma shl_align_spec (mx : positive) (ex ex' : Z) :
  let mz := fst (shl_align mx ex ex') in
  let ez := snd (shl_align mx ex ex') in
  ez = Z.min ex ex'
  /\ Zpos mz = Zpos mx * 2 ^ (ex - ez)
  /\ Zpos (digits2_pos mz) = Zpos (digits2_pos mx) + (ex - ez).
Proof.
  unfold shl_align.
  destruct (ex' - ex) as [| d | d] eqn:Hd; cbn [fst snd].
  - split; [lia |]. rewrite Z.sub_diag. cbn. lia.
  - split; [lia |]. rewrite Z.sub_diag. cbn. lia.
  - destruct (iter_xO_spec mx d) as [H1 H2].
    split; [lia |]. replace (ex - ex') with (Zpos d) by lia.
    split; [exact H1 | rewrite H2; lia].
Qed.

Lemma shl_align_value (mx : positive) (ex ex' : Z) :
  (inject_Z (Zpos (fst (shl_align mx ex ex')))
     * pow2 (snd (shl_align mx ex ex'))
   == inject_Z (Zpos mx) * pow2 ex)%Q.
Proof.
  destruct (shl_align_spec mx ex ex') as (He & Hm & _).
  rewrite Hm, inject_Z_mult, <- pow2_inject by lia.
  rewrite <- Qmult_assoc, <- pow2_add.
  replace (ex - snd (shl_align mx ex ex') + snd (shl_align mx ex ex')) with ex
    by lia.
  reflexivity.
Qed.

Section Normalize.
Variables prec emax : Z.
Hypothesis Hprec : 0 < prec.
Hypothesis Hemax : prec < emax.

(** Half a unit in the last place, against the value. *)
Lemma half_ulp_bound (mx ex : Z) (lx : location) (x : Q) :
  0 <= mx ->
  located x mx lx ->
  ex <= fexp prec emax (Zdigits2 mx + ex) ->
  ((1 # 2) * pow2 (fexp prec emax (Zdigits2 mx + ex))
   <= pow2 (- prec) * (x * pow2 ex) + pow2 (emin prec emax - 1))%Q.
Proof.
  intros Hm Hloc Hcanon.
  pose proof (located_bounds _ _ _ Hloc) as [Hlo _].
  assert (Hx0 : (0 <= x)%Q).
  { apply Qle_trans with (inject_Z mx); [now apply inject_Z_nonneg | exact Hlo]. }
  pose proof (pow2_pos ex) as Hpe. pose proof (pow2_pos (- prec)) as Hpp.
  pose proof (pow2_pos (emin prec emax - 1)) as Hpm.
  destruct (fexp_cases prec emax (Zdigits2 mx + ex)) as [[Hf Hge] | [Hf Hle]];
    rewrite Hf.
  - assert (Hmx : 0 < mx).
    { destruct (Z.eq_dec mx 0) as [E | E]; [| lia].
      exfalso. rewrite E in Hf, Hcanon. cbn in Hf, Hcanon. lia. }
    pose proof (Zdigits2_bounds mx Hmx) as [Hd _].
    assert (Hd1 : 1 <= Zdigits2 mx) by (destruct mx; cbn; lia).
    assert (Hx : (pow2 (Zdigits2 mx - 1) <= x)%Q).
    { rewrite pow2_inject by lia.
      apply Qle_trans with (inject_Z mx); [now rewrite <- Zle_Qle | exact Hlo]. }
    assert (Heq : ((1 # 2) * pow2 (Zdigits2 mx + ex - prec)
                   == pow2 (- prec) * (pow2 (Zdigits2 mx - 1) * pow2 ex))%Q).
    { rewrite <- pow2_pred, <- !pow2_add. 
      replace (- prec + (Zdigits2 mx - 1 + ex)) with (Zdigits2 mx + ex - prec - 1)
        by lia.
      reflexivity. }
    rewrite Heq.
    assert (pow2 (Zdigits2 mx - 1) * pow2 ex <= x * pow2 ex)%Q by nra.
    nra.
  - rewrite <- pow2_pred.
    assert (0 <= x * pow2 ex)%Q by nra.
    nra.
Qed.

(** Rounding: the result is finite, of the sign asked for, and within
    a relative error of [2^-prec] or an absolute error of half the least
    subnormal of the value. *)
Lemma binary_round_aux_approx (sx : bool) (mx ex : Z) (lx : location) (x : Q) :
  0 <= mx ->
  located x mx lx ->
  ex <= fexp prec emax (Zdigits2 mx + ex) ->
  (x * pow2 ex < pow2 (emax - 1))%Q ->
  let r := binary_round_aux prec emax sx mx ex lx in
  is_finite r = true
  /\ valid_binary prec emax r = true
  /\ signed sx r
  /\ (Qabs (float_value r - sgn sx (x * pow2 ex))
      <= pow2 (- prec) * (x * pow2 ex) + pow2 (emin prec emax - 1))%Q.
Proof.
  intros Hm Hloc Hcanon Hover r.
  destruct (binary_round_aux_error prec emax Hprec Hemax sx mx ex lx x
              Hm Hloc Hcanon Hover) as (Hfin & Hv & Hs & V & HV0 & HV & Herr).
  fold r in Hfin, Hv, Hs, HV.
  split; [exact Hfin |]. split; [exact Hv |]. split; [exact Hs |].
  rewrite HV, Qabs_sgn.
  eapply Qle_trans; [exact Herr |].
  now apply (half_ulp_bound mx ex lx x).
Qed.

Lemma binary_round_approx (sx : bool) (mx : positive) (ex : Z) :
  (inject_Z (Zpos mx) * pow2 ex < pow2 (emax - 1))%Q ->
  let r := binary_round prec emax sx mx ex in
  is_finite r = true
  /\ valid_binary prec emax r = true
  /\ signed sx r
  /\ (Qabs (float_value r - sgn sx (inject_Z (Zpos mx) * pow2 ex))
      <= pow2 (- prec) * (inject_Z (Zpos mx) * pow2 ex)
         + pow2 (emin prec emax - 1))%Q.
Proof.
  intros Hover r. subst r. unfold binary_round.
  pose proof (shl_align_spec mx ex (fexp prec emax (Zpos (digits2_pos mx) + ex)))
    as (He & Hmz & Hd).
  pose proof (shl_align_value mx ex (fexp prec emax (Zpos (digits2_pos mx) + ex)))
    as Hv.
  destruct (shl_align mx ex (fexp prec emax (Zpos (digits2_pos mx) + ex)))
    as [mz ez].
  cbn [fst snd] in *.
  assert (Hcanon : ez <= fexp prec emax (Zdigits2 (Zpos mz) + ez)).
  { cbn [Zdigits2]. rewrite Hd.
    replace (Zpos (digits2_pos mx) + (ex - ez) + ez)
      with (Zpos (digits2_pos mx) + ex) by lia.
    lia. }
  destruct (binary_round_aux_approx sx (Zpos mz) ez loc_Exact
              (inject_Z (Zpos mz)) ltac:(lia) (Qeq_refl _) Hcanon)
    as (Hfin & Hvalid & Hs & Herr).
  { rewrite Hv. exact Hover. }
  split; [exact Hfin |]. split; [exact Hvalid |]. split; [exact Hs |].
  rewrite Hv in Herr. exact Herr.
Qed.

(** What [binary_normalize] returns for an integer multiple of a power of
    two. *)
Lemma binary_normalize_approx (m e : Z) (szero : bool) :
  (Qabs (inject_Z m * pow2 e) < pow2 (emax - 1))%Q ->
  let r := binary_normalize prec emax m e szero in
  is_finite r = true
  /\ valid_binary prec emax r = true
  /\ (0 <= m -> signed false r \/ r = S754_zero szero)
  /\ (Qabs (float_value r - inject_Z m * pow2 e)
      <= pow2 (- prec) * Qabs (inject_Z m * pow2 e)
         + pow2 (emin prec emax - 1))%Q.
Proof.
  intros Hover r. subst r.
  pose proof (pow2_pos e) as Hpe.
  pose proof (pow2_pos (emin prec emax - 1)) as Hpm.
  destruct m as [| p | p]; cbn [binary_normalize].
  - split; [reflexivity |]. split; [reflexivity |]. split; [now right |].
    assert (E : (inject_Z 0 * pow2 e == 0)%Q) by ring.
    rewrite E. change (float_value (S754_zero szero)) with 0%Q.
    change (Qabs (0 - 0)) with 0%Q. change (Qabs 0) with 0%Q.
    pose proof (pow2_pos (- prec)). nra.
  - assert (H0 : (0 <= inject_Z (Zpos p) * pow2 e)%Q).
    { pose proof (inject_Z_pos (Zpos p) ltac:(lia)). nra. }
    rewrite (Qabs_pos _ H0) in Hover |- *.
    destruct (binary_round_approx false p e Hover)
      as (Hfin & Hvalid & Hs & Herr).
    split; [exact Hfin |]. split; [exact Hvalid |]. split; [now left |].
    exact Herr.
  - assert (Hneg : (inject_Z (Zneg p) == - inject_Z (Zpos p))%Q).
    { reflexivity. }
    assert (H0 : (0 <= inject_Z (Zpos p) * pow2 e)%Q).
    { pose proof (inject_Z_pos (Zpos p) ltac:(lia)). nra. }
    assert (Habs : (Qabs (inject_Z (Zneg p) * pow2 e)
                    == inject_Z (Zpos p) * pow2 e)%Q).
    { rewrite Hneg.
      setoid_replace (- inject_Z (Zpos p) * pow2 e)%Q
        with (- (inject_Z (Zpos p) * pow2 e))%Q by ring.
      rewrite Qabs_opp. now apply Qabs_pos. }
    rewrite Habs in Hover |- *.
    destruct (binary_round_approx true p e Hover)
      as (Hfin & Hvalid & Hs & Herr).
    split; [exact Hfin |]. split; [exact Hvalid |]. split; [lia |].
    cbn [sgn] in Herr.
    setoid_replace (inject_Z (Zneg p) * pow2 e)%Q
      with (- (inject_Z (Zpos p) * pow2 e))%Q by (rewrite Hneg; ring).
    exact Herr.
Qed.

End Normalize.

(** *** Addition and subtraction *)

Lemma signed_nonneg (r : spec_float) : signed false r -> nonnegative r = true.
Proof. destruct r as [s | s | | s m e]; cbn; intros H; now subst. Qed.

Lemma nonneg_cases (r : spec_float) :
  nonnegative r = true ->
  (exists s, r = S754_zero s) \/ r = S754_infinity false
  \/ exists m e, r = S754_finite false m e.
Proof.
  destruct r as [s | [|] | | [|] m e]; cbn; intros H; try discriminate; eauto.
Qed.

Lemma cond_Zopp_value (s : bool) (m : positive) :
  (inject_Z (cond_Zopp s (Zpos m))
   == if s then - inject_Z (Zpos m) else inject_Z (Zpos m))%Q.
Proof. destruct s; reflexivity. Qed.

(** The mantissas [SFadd] and [SFsub] add are the operands at their common
    exponent. *)
Lemma aligned_value (s : bool) (m : positive) (e ez : Z) :
  ez <= e ->
  (inject_Z (cond_Zopp s (Zpos (fst (shl_align m e ez)))) * pow2 ez
   == float_value (S754_finite s m e))%Q.
Proof.
  intros Hle.
  pose proof (shl_align_spec m e ez) as (He & _).
  pose proof (shl_align_value m e ez) as Hv.
  cbv zeta in He. rewrite He, Z.min_r in Hv by lia.
  rewrite cond_Zopp_value. cbn [float_value].
  destruct s.
  - setoid_replace (- inject_Z (Zpos (fst (shl_align m e ez))) * pow2 ez)%Q
      with (- (inject_Z (Zpos (fst (shl_align m e ez))) * pow2 ez))%Q by ring.
    rewrite Hv. ring.
  - exact Hv.
Qed.

Lemma float_value_pos (m : positive) (e : Z) :
  (0 < float_value (S754_finite false m e))%Q.
Proof.
  cbn [float_value]. pose proof (pow2_pos e).
  pose proof (inject_Z_pos (Zpos m) ltac:(lia)). nra.
Qed.

Lemma float_value_neg (m : positive) (e : Z) :
  (float_value (S754_finite true m e) < 0)%Q.
Proof.
  cbn [float_value]. pose proof (pow2_pos e).
  pose proof (inject_Z_pos (Zpos m) ltac:(lia)). nra.
Qed.

Lemma float_value_nonneg (r : spec_float) :
  nonnegative r = true -> (0 <= float_value r)%Q.
Proof.
  intros H. destruct (nonneg_cases r H) as [[s ->] | [-> | (m & e & ->)]];
    try apply Qle_refl.
  apply Qlt_le_weak, float_value_pos.
Qed.

Lemma inject_Z_sign (z : Z) (p : Q) :
  (0 < p)%Q -> (0 <= inject_Z z * p)%Q -> 0 <= z.
Proof.
  intros Hp H. destruct (Z_lt_le_dec z 0) as [Hneg | Hok]; [| exact Hok].
  exfalso. assert (inject_Z z < 0)%Q.
  { change 0%Q with (inject_Z 0). now rewrite <- Zlt_Qlt. }
  nra.
Qed.

Section AddSub.
Variables prec emax : Z.
Hypothesis Hprec : 0 < prec.
Hypothesis Hemax : prec < emax.

Lemma rounds_to_exact (z : Q) (r : spec_float) :
  is_finite r = true -> (float_value r == z)%Q -> rounds_to prec emax z r.
Proof.
  intros Hfin Hv. split; [exact Hfin |]. rewrite Hv.
  setoid_replace (z - z)%Q with 0%Q by ring. change (Qabs 0) with 0%Q.
  pose proof (pow2_pos (- prec)). pose proof (pow2_pos (emin prec emax - 1)).
  pose proof (Qabs_nonneg z). nra.
Qed.

Lemma binary_round_signed (sx : bool) (mx : positive) (ex : Z) :
  signed sx (binary_round prec emax sx mx ex).
Proof.
  unfold binary_round. destruct (shl_align mx ex _) as [mz ez].
  apply binary_round_aux_signed. lia.
Qed.

Lemma binary_normalize_nonneg (m e : Z) :
  0 <= m -> nonnegative (binary_normalize prec emax m e false) = true.
Proof.
  intros Hm. destruct m as [| p | p]; cbn [binary_normalize];
    [reflexivity | | lia].
  apply signed_nonneg, binary_round_signed.
Qed.

Lemma binary_normalize_rounds (m e : Z) (szero : bool) (z : Q) :
  (inject_Z m * pow2 e == z)%Q ->
  (Qabs z < pow2 (emax - 1))%Q ->
  rounds_to prec emax z (binary_normalize prec emax m e szero).
Proof.
  intros Hz Hover. rewrite <- Hz in Hover.
  destruct (binary_normalize_approx prec emax Hprec Hemax m e szero Hover)
    as (Hfin & _ & _ & Herr).
  split; [exact Hfin |]. rewrite <- Hz. exact Herr.
Qed.

(** Addition rounds the exact sum. *)
Lemma SFadd_rounds (x y : spec_float) :
  is_finite x = true -> is_finite y = true ->
  (Qabs (float_value x + float_value y) < pow2 (emax - 1))%Q ->
  rounds_to prec emax (float_value x + float_value y) (SFadd prec emax x y).
Proof.
  intros Hx Hy Hover.
  destruct x as [sx | sx | | sx mx ex]; try discriminate;
    destruct y as [sy | sy | | sy my ey]; try discriminate.
  - apply rounds_to_exact; [destruct sx, sy; reflexivity |].
    destruct sx, sy; reflexivity.
  - apply rounds_to_exact; [reflexivity |].
    cbn [SFadd]. change (float_value (S754_zero sx)) with 0%Q. ring.
  - apply rounds_to_exact; [reflexivity |].
    cbn [SFadd]. change (float_value (S754_zero sy)) with 0%Q. ring.
  - cbn [SFadd]. apply binary_normalize_rounds; [| exact Hover].
    rewrite inject_Z_plus, Qmult_plus_distr_l.
    rewrite !aligned_value by lia. reflexivity.
Qed.

(** Subtraction rounds the exact difference. *)
Lemma SFsub_rounds (x y : spec_float) :
  is_finite x = true -> is_finite y = true ->
  (Qabs (float_value x - float_value y) < pow2 (emax - 1))%Q ->
  rounds_to prec emax (float_value x - float_value y) (SFsub prec emax x y).
Proof.
  intros Hx Hy Hover.
  destruct x as [sx | sx | | sx mx ex]; try discriminate;
    destruct y as [sy | sy | | sy my ey]; try discriminate.
  - apply rounds_to_exact; [destruct sx, sy; reflexivity |].
    destruct sx, sy; reflexivity.
  - apply rounds_to_exact; [reflexivity |].
    cbn [SFsub]. change (float_value (S754_zero sx)) with 0%Q.
    cbn [float_value]. destruct sy; cbn [negb]; ring.
  - apply rounds_to_exact; [reflexivity |].
    cbn [SFsub]. change (float_value (S754_zero sy)) with 0%Q. ring.
  - cbn [SFsub]. apply binary_normalize_rounds; [| exact Hover].
    unfold Z.sub at 1. rewrite inject_Z_plus, inject_Z_opp.
    setoid_replace ((inject_Z (cond_Zopp sx (Zpos (fst (shl_align mx ex (Z.min ex ey)))))
                     + - inject_Z (cond_Zopp sy (Zpos (fst (shl_align my ey (Z.min ex ey))))))
                    * pow2 (Z.min ex ey))%Q
      with (inject_Z (cond_Zopp sx (Zpos (fst (shl_align mx ex (Z.min ex ey)))))
              * pow2 (Z.min ex ey)
            - inject_Z (cond_Zopp sy (Zpos (fst (shl_align my ey (Z.min ex ey)))))
              * pow2 (Z.min ex ey))%Q by ring.
    rewrite !aligned_value by lia. reflexivity.
Qed.

(** The difference of two finite numbers in increasing order is not
    negative. *)
Lemma SFsub_nonneg (x y : spec_float) :
  is_finite x = true -> is_finite y = true ->
  (float_value y <= float_value x)%Q ->
  nonnegative (SFsub prec emax x y) = true.
Proof.
  intros Hx Hy Hle.
  destruct x as [sx | sx | | sx mx ex]; try discriminate;
    destruct y as [sy | sy | | sy my ey]; try discriminate.
  - destruct sx, sy; reflexivity.
  - destruct sy; [reflexivity |].
    pose proof (float_value_pos my ey). change (float_value (S754_zero sx)) with 0%Q in Hle.
    lra.
  - destruct sx; [| reflexivity].
    pose proof (float_value_neg mx ex). change (float_value (S754_zero sy)) with 0%Q in Hle.
    lra.
  - cbn [SFsub]. apply binary_normalize_nonneg.
    apply (inject_Z_sign _ (pow2 (Z.min ex ey))); [apply pow2_pos |].
    unfold Z.sub at 1. rewrite inject_Z_plus, inject_Z_opp.
    setoid_replace ((inject_Z (cond_Zopp sx (Zpos (fst (shl_align mx ex (Z.min ex ey)))))
                     + - inject_Z (cond_Zopp sy (Zpos (fst (shl_align my ey (Z.min ex ey))))))
                    * pow2 (Z.min ex ey))%Q
      with (inject_Z (cond_Zopp sx (Zpos (fst (shl_align mx ex (Z.min ex ey)))))
              * pow2 (Z.min ex ey)
            - inject_Z (cond_Zopp sy (Zpos (fst (shl_align my ey (Z.min ex ey)))))
              * pow2 (Z.min ex ey))%Q by ring.
    rewrite !aligned_value by lia. lra.
Qed.

(** The sum of two numbers that are not negative is not negative. *)
Lemma SFadd_nonneg (x y : spec_float) :
  nonnegative x = true -> nonnegative y = true ->
  nonnegative (SFadd prec emax x y) = true.
Proof.
  intros Hx Hy.
  pose proof (float_value_nonneg x Hx) as Hvx.
  pose proof (float_value_nonneg y Hy) as Hvy.
  destruct (nonneg_cases x Hx) as [[sx ->] | [-> | (mx & ex & ->)]];
    destruct (nonneg_cases y Hy) as [[sy ->] | [-> | (my & ey & ->)]];
    try reflexivity.
  - destruct sx, sy; reflexivity.
  - cbn [SFadd]. apply binary_normalize_nonneg.
    apply (inject_Z_sign _ (pow2 (Z.min ex ey))); [apply pow2_pos |].
    rewrite inject_Z_plus, Qmult_plus_distr_l.
    rewrite !aligned_value by lia. lra.
Qed.

End AddSub.

(** *** Division *)

Lemma ratio_cases (f N K : Q) :
  (0 < N)%Q -> (f * N == K)%Q ->
  ((2 * K < N -> f < 1 # 2) /\ (2 * K == N -> f == 1 # 2)
   /\ (N < 2 * K -> 1 # 2 < f) /\ (0 < K -> 0 < f) /\ (K < N -> f < 1)
   /\ (K == 0 -> f == 0))%Q.
Proof.
  intros HN Hf. repeat split; intros H; nra.
Qed.

(** The location of a remainder. *)
Lemma new_location_located (nb k q : Z) :
  0 <= k < nb ->
  located (inject_Z q + inject_Z k / inject_Z nb) q (new_location nb k).
Proof.
  intros Hk.
  assert (HN : (0 < inject_Z nb)%Q) by (apply inject_Z_pos; lia).
  set (f := (inject_Z k / inject_Z nb)%Q).
  assert (Hf : (f * inject_Z nb == inject_Z k)%Q).
  { unfold f. field. lra. }
  clearbody f.
  destruct (ratio_cases f _ _ HN Hf) as (Hlt & Heq & Hgt & Hpos & Hone & Hzero).
  assert (H2 : forall a b : Z, a < b -> (inject_Z a < inject_Z b)%Q).
  { intros a b Hab. now rewrite <- Zlt_Qlt. }
  assert (Hk1 : (f < 1)%Q) by (apply Hone, H2; lia).
  assert (Hdbl : (2 * inject_Z k == inject_Z (2 * k))%Q).
  { rewrite inject_Z_mult. reflexivity. }
  rewrite Hdbl in Hlt, Heq, Hgt.
  unfold new_location.
  destruct (Z.eq_dec k 0) as [-> | Hne].
  - assert (f == 0)%Q by (apply Hzero; reflexivity).
    destruct (Z.even nb); cbn [new_location_even new_location_odd Z.eqb located];
      lra.
  - assert (Hk0 : (k =? 0) = false) by (apply Z.eqb_neq; lia).
    assert (Hf0 : (0 < f)%Q) by (apply Hpos, inject_Z_pos; lia).
    destruct (Z.even nb) eqn:Heven.
    + unfold new_location_even. rewrite Hk0.
      destruct (Z.compare_spec (2 * k) nb) as [E | L | G]; cbn [located].
      * rewrite E in Heq. specialize (Heq (Qeq_refl _)). lra.
      * specialize (Hlt (H2 _ _ L)). lra.
      * specialize (Hgt (H2 _ _ G)). lra.
    + assert (Hodd : 2 * k <> nb).
      { intros E. rewrite <- E, Z.even_mul in Heven. discriminate. }
      unfold new_location_odd. rewrite Hk0.
      destruct (Z.compare_spec (2 * k + 1) nb) as [E | L | G]; cbn [located].
      * assert (L' : 2 * k < nb) by lia. specialize (Hlt (H2 _ _ L')). lra.
      * assert (L' : 2 * k < nb) by lia. specialize (Hlt (H2 _ _ L')). lra.
      * assert (G' : nb < 2 * k) by lia. specialize (Hgt (H2 _ _ G')). lra.
Qed.

Section Division.
Variables prec emax : Z.
Hypothesis Hprec : 0 < prec.
Hypothesis Hemax : prec < emax.

Lemma fexp_monotone (a b : Z) : a <= b -> fexp prec emax a <= fexp prec emax b.
Proof. unfold fexp. lia. Qed.

(** The quotient of two mantissas, its exponent and the location of the
    exact quotient. *)
Lemma SFdiv_core_binary_spec (m1 m2 : positive) (e1 e2 : Z) :
  let '(q, e', l) := SFdiv_core_binary prec emax (Zpos m1) e1 (Zpos m2) e2 in
  exists x : Q,
    0 <= q
    /\ located x q l
    /\ e' <= fexp prec emax (Zdigits2 q + e')
    /\ (x * pow2 e'
        == (inject_Z (Zpos m1) * pow2 e1) / (inject_Z (Zpos m2) * pow2 e2))%Q.
Proof.
  unfold SFdiv_core_binary.
  set (d1 := Zdigits2 (Zpos m1)). set (d2 := Zdigits2 (Zpos m2)).
  set (e' := Z.min (fexp prec emax (d1 + e1 - (d2 + e2))) (e1 - e2)).
  set (s := e1 - e2 - e').
  assert (Hs : 0 <= s) by (unfold s, e'; lia).
  set (m' := match s with
             | 0 => Zpos m1
             | Zpos _ => Z.shiftl (Zpos m1) s
             | Zneg _ => 0
             end).
  assert (Hm' : m' = Zpos m1 * 2 ^ s).
  { unfold m'. destruct s as [| p | p]; [lia | | lia].
    now rewrite Z.shiftl_mul_pow2 by lia. }
  clearbody m'.
  pose proof (Z_div_mod m' (Zpos m2) ltac:(lia)) as Hdiv.
  destruct (Z.div_eucl m' (Zpos m2)) as [q r]. destruct Hdiv as [Hqr Hr].
  assert (H2s : 0 < 2 ^ s) by (apply Z.pow_pos_nonneg; lia).
  assert (Hq0 : 0 <= q) by nia.
  assert (HN : (0 < inject_Z (Zpos m2))%Q) by (apply inject_Z_pos; lia).
  exists (inject_Z q + inject_Z r / inject_Z (Zpos m2))%Q.
  split; [exact Hq0 |]. split; [now apply new_location_located |]. split.
  - (* the quotient has enough digits *)
    pose proof (Zdigits2_bounds (Zpos m1) ltac:(lia)) as [Hlo1 _].
    pose proof (Zdigits2_bounds (Zpos m2) ltac:(lia)) as [_ Hhi2].
    fold d1 in Hlo1. fold d2 in Hhi2.
    assert (Hd1 : 1 <= d1) by (unfold d1; cbn; lia).
    assert (Hd2 : 1 <= d2) by (unfold d2; cbn; lia).
    assert (Hdq : d1 + s - d2 <= Zdigits2 q).
    { destruct (Z_le_gt_dec (d1 + s - d2) 0) as [Hle | Hgt].
      - pose proof (Zdigits2_nonneg q). lia.
      - assert (Hk : 0 <= d1 + s - d2 - 1) by lia.
        assert (Hq : 2 ^ (d1 + s - d2 - 1) <= q).
        { assert (Hpow : 2 ^ (d1 + s - d2 - 1) * 2 ^ d2 = 2 ^ (d1 - 1) * 2 ^ s).
          { rewrite <- !Z.pow_add_r by lia. f_equal. lia. }
          assert (H2k : 0 < 2 ^ (d1 + s - d2 - 1)) by (apply Z.pow_pos_nonneg; lia).
          assert (2 ^ (d1 + s - d2 - 1) * Zpos m2 < Zpos m2 * (q + 1)) by nia.
          nia. }
        pose proof (Zdigits2_gt q _ Hk Hq). lia. }
    apply Z.le_trans with (fexp prec emax (d1 + e1 - (d2 + e2)));
      [unfold e'; lia |].
    apply fexp_monotone. unfold s in Hdq. lia.
  - assert (Hx : (inject_Z q + inject_Z r / inject_Z (Zpos m2)
                  == inject_Z m' / inject_Z (Zpos m2))%Q).
    { rewrite Hqr, inject_Z_plus, inject_Z_mult. field. lra. }
    rewrite Hx, Hm', inject_Z_mult, <- (pow2_inject s Hs).
    assert (He1 : (pow2 e1 == pow2 s * pow2 e' * pow2 e2)%Q).
    { rewrite <- !pow2_add. replace (s + e' + e2) with e1 by (unfold s; lia).
      reflexivity. }
    rewrite He1.
    pose proof (pow2_pos e2). pose proof (pow2_pos e'). pose proof (pow2_pos s).
    field. split; lra.
Qed.

(** Division by a finite number that is not zero rounds the exact
    quotient. *)
Lemma SFdiv_rounds (x : spec_float) (sy : bool) (my : positive) (ey : Z) :
  let y := S754_finite sy my ey in
  is_finite x = true ->
  (Qabs (float_value x / float_value y) < pow2 (emax - 1))%Q ->
  rounds_to prec emax (float_value x / float_value y) (SFdiv prec emax x y).
Proof.
  intros y Hx Hover. subst y.
  assert (Hy0 : ~ (float_value (S754_finite sy my ey) == 0)%Q).
  { destruct sy; [pose proof (float_value_neg my ey)
                 | pose proof (float_value_pos my ey)]; lra. }
  destruct x as [sx | sx | | sx mx ex]; try discriminate.
  - apply rounds_to_exact; [reflexivity |].
    cbn [SFdiv]. change (float_value (S754_zero ?s)) with 0%Q.
    field. exact Hy0.
  - cbn [SFdiv].
    pose proof (SFdiv_core_binary_spec mx my ex ey) as Hcore.
    destruct (SFdiv_core_binary prec emax (Zpos mx) ex (Zpos my) ey)
      as [[q e'] l].
    destruct Hcore as (v & Hq0 & Hloc & Hcanon & Hv).
    pose proof (pow2_pos ex) as Hpx. pose proof (pow2_pos ey) as Hpy.
    pose proof (inject_Z_pos (Zpos mx) ltac:(lia)) as Hmx.
    pose proof (inject_Z_pos (Zpos my) ltac:(lia)) as Hmy.
    assert (Hpos : (0 < inject_Z (Zpos my) * pow2 ey)%Q) by nra.
    assert (Hv0 : (0 <= v * pow2 e')%Q).
    { rewrite Hv. apply Qle_shift_div_l; [exact Hpos | nra]. }
    assert (Hquot : (float_value (S754_finite sx mx ex)
                     / float_value (S754_finite sy my ey)
                     == sgn (xorb sx sy) (v * pow2 e'))%Q).
    { rewrite Hv. cbn [float_value].
      destruct sx, sy; cbn [xorb sgn]; field; lra. }
    unfold rounds_to. rewrite Hquot in Hover |- *.
    rewrite Qabs_sgn_nonneg in Hover by exact Hv0.
    destruct (binary_round_aux_approx prec emax Hprec Hemax (xorb sx sy)
                q e' l v Hq0 Hloc Hcanon Hover) as (Hfin & _ & _ & Herr).
    split; [exact Hfin |].
    rewrite Qabs_sgn_nonneg by exact Hv0. exact Herr.
Qed.

(** The quotient of a number that is not negative by a positive finite
    number is not negative. *)
Lemma SFdiv_nonneg (x : spec_float) (my : positive) (ey : Z) :
  nonnegative x = true ->
  nonnegative (SFdiv prec emax x (S754_finite false my ey)) = true.
Proof.
  intros Hx.
  destruct (nonneg_cases x Hx) as [[sx ->] | [-> | (mx & ex & ->)]].
  - destruct sx; reflexivity.
  - reflexivity.
  - cbn [SFdiv].
    pose proof (SFdiv_core_binary_spec mx my ex ey) as Hcore.
    destruct (SFdiv_core_binary prec emax (Zpos mx) ex (Zpos my) ey)
      as [[q e'] l].
    destruct Hcore as (v & Hq0 & _).
    apply signed_nonneg. cbn [xorb]. now apply binary_round_aux_signed.
Qed.

(** A positive integer below the overflow threshold converts to a positive
    finite number. *)
Lemma of_int_positive (n : Z) :
  1 < prec ->
  0 < n ->
  (inject_Z n < pow2 (emax - 1))%Q ->
  exists m e, binary_normalize prec emax n 0 false = S754_finite false m e.
Proof.
  intros Hprec2 Hn Hover.
  destruct n as [| p | p]; [lia | | lia].
  cbn [binary_normalize].
  assert (Hover' : (inject_Z (Zpos p) * pow2 0 < pow2 (emax - 1))%Q).
  { rewrite pow2_0, Qmult_1_r. exact Hover. }
  destruct (binary_round_approx prec emax Hprec Hemax false p 0 Hover')
    as (Hfin & _ & Hs & Herr).
  destruct (binary_round prec emax false p 0) as [s | s | | s m e];
    cbn in Hfin, Hs; try discriminate; try contradiction.
  - exfalso. cbn [sgn float_value] in Herr.
    rewrite pow2_0, Qmult_1_r in Herr.
    assert (H1 : (1 <= inject_Z (Zpos p))%Q).
    { change 1%Q with (inject_Z 1). rewrite <- Zle_Qle. lia. }
    assert (Hu : (pow2 (- prec) <= 1 # 4)%Q).
    { change (1 # 4)%Q with (pow2 (-2)). apply pow2_le. lia. }
    assert (He : (pow2 (emin prec emax - 1) <= 1 # 2)%Q).
    { change (1 # 2)%Q with (pow2 (-1)). apply pow2_le. unfold emin. lia. }
    apply Qabs_Qle_condition in Herr. nra.
  - subst s. eauto.
Qed.

End Division.

Section Order.
Variables prec emax : Z.
Hypothesis Hprec : 0 < prec.
Hypothesis Hemax : prec < emax.

(** Of two canonical positive numbers the one with the smaller exponent is
    the smaller. *)
Lemma canonical_lt (m1 m2 : positive) (e1 e2 : Z) :
  canonical_mantissa prec emax m1 e1 = true ->
  canonical_mantissa prec emax m2 e2 = true ->
  e1 < e2 ->
  (inject_Z (Zpos m1) * pow2 e1 < inject_Z (Zpos m2) * pow2 e2)%Q.
Proof.
  unfold canonical_mantissa. intros H1 H2 Hlt.
  apply Z.eqb_eq in H1, H2.
  set (d1 := Zpos (digits2_pos m1)) in *. set (d2 := Zpos (digits2_pos m2)) in *.
  assert (Hd : d1 + e1 < d2 + e2).
  { destruct (Z_lt_le_dec (d1 + e1) (d2 + e2)) as [Hok | Hbad]; [exact Hok |].
    pose proof (fexp_monotone prec emax _ _ Hbad). lia. }
  pose proof (Zdigits2_bounds (Zpos m1) ltac:(lia)) as [_ Hhi].
  pose proof (Zdigits2_bounds (Zpos m2) ltac:(lia)) as [Hlo _].
  cbn [Zdigits2] in Hhi, Hlo. fold d1 in Hhi. fold d2 in Hlo.
  assert (Hd1 : 1 <= d1) by (unfold d1; lia).
  assert (Hd2 : 1 <= d2) by (unfold d2; lia).
  rewrite Zlt_Qlt, <- pow2_inject in Hhi by lia.
  rewrite Zle_Qle, <- pow2_inject in Hlo by lia.
  pose proof (pow2_pos e1). pose proof (pow2_pos e2).
  apply Qlt_le_trans with (pow2 d1 * pow2 e1)%Q; [nra |].
  apply Qle_trans with (pow2 (d2 - 1) * pow2 e2)%Q; [| nra].
  rewrite <- !pow2_add. apply pow2_le. lia.
Qed.

(** On finite numbers of the format, [<=] is the order of the values. *)
Lemma SFleb_value (x y : spec_float) :
  valid_binary prec emax x = true -> valid_binary prec emax y = true ->
  is_finite x = true -> is_finite y = true ->
  SFleb x y = true ->
  (float_value x <= float_value y)%Q.
Proof.
  intros Vx Vy Fx Fy Hle.
  destruct x as [sx | sx | | sx mx ex]; try discriminate;
    destruct y as [sy | sy | | sy my ey]; try discriminate.
  - destruct sy; [discriminate |].
    change (float_value (S754_zero sx)) with 0%Q.
    apply Qlt_le_weak, float_value_pos.
  - destruct sx; [| discriminate].
    change (float_value (S754_zero sy)) with 0%Q.
    apply Qlt_le_weak, float_value_neg.
  - cbn [valid_binary] in Vx, Vy. unfold bounded in Vx, Vy.
    apply andb_prop in Vx, Vy. destruct Vx as [Cx _], Vy as [Cy _].
    pose proof (pow2_pos ex). pose proof (pow2_pos ey).
    unfold SFleb in Hle. cbn [SFcompare] in Hle.
    destruct sx, sy.
    + cbn [float_value].
      destruct (Z.compare_spec ex ey) as [E | L | G]; try discriminate.
      * subst ey. rewrite Pos.compare_cont_spec in Hle. cbn [Pos.switch_Eq] in Hle.
        assert (Hm : (my <= mx)%positive).
        { unfold Pos.le. rewrite Pos.compare_antisym.
          destruct (Pos.compare mx my); cbn in *; discriminate. }
        assert (inject_Z (Zpos my) <= inject_Z (Zpos mx))%Q
          by (rewrite <- Zle_Qle; lia).
        nra.
      * pose proof (canonical_lt my mx ey ex Cy Cx G). lra.
    + pose proof (float_value_neg mx ex). pose proof (float_value_pos my ey). lra.
    + discriminate.
    + cbn [float_value].
      destruct (Z.compare_spec ex ey) as [E | L | G]; try discriminate.
      * subst ey. rewrite Pos.compare_cont_spec in Hle. cbn [Pos.switch_Eq] in Hle.
        assert (Hm : (mx <= my)%positive).
        { unfold Pos.le. destruct (Pos.compare mx my); cbn in *; discriminate. }
        assert (inject_Z (Zpos mx) <= inject_Z (Zpos my))%Q
          by (rewrite <- Zle_Qle; lia).
        nra.
      * pose proof (canonical_lt mx my ex ey Cx Cy L). lra.
Qed.

End Order.

(** *** Results that need no rounding, and the order of the format *)

Section Exactness.
Variables prec emax : Z.
Hypothesis Hprec : 0 < prec.
Hypothesis Hemax : prec < emax.

(** A canonical mantissa within range is returned as it is. *)
Lemma binary_round_aux_exact (s : bool) (m : positive) (e : Z) :
  fexp prec emax (Zdigits2 (Zpos m) + e) = e ->
  e <= emax - prec ->
  binary_round_aux prec emax s (Zpos m) e loc_Exact = S754_finite s m e.
Proof.
  intros Hcanon Hle. unfold binary_round_aux, shr_fexp.
  rewrite Hcanon, Z.sub_diag. cbn [shr shr_record_of_loc shr_m
                                    loc_of_shr_record round_nearest_even].
  rewrite Hcanon, Z.sub_diag. cbn [shr shr_record_of_loc shr_m].
  apply Z.leb_le in Hle. now rewrite Hle.
Qed.

(** A positive integer of at most [prec] digits converts to itself. *)
Lemma of_int_exact (n : Z) :
  0 < n < 2 ^ prec ->
  exists m e,
    binary_normalize prec emax n 0 false = S754_finite false m e
    /\ (float_value (S754_finite false m e) == inject_Z n)%Q.
Proof.
  intros Hn. destruct n as [| p | p]; [lia | | lia].
  cbn [binary_normalize]. unfold binary_round.
  pose proof (Zdigits2_le (Zpos p) prec ltac:(lia) ltac:(lia)) as Hd.
  cbn [Zdigits2] in Hd.
  pose proof (shl_align_spec p 0 (fexp prec emax (Zpos (digits2_pos p) + 0)))
    as (He & Hm & Hdz).
  pose proof (shl_align_value p 0 (fexp prec emax (Zpos (digits2_pos p) + 0)))
    as Hv.
  destruct (shl_align p 0 (fexp prec emax (Zpos (digits2_pos p) + 0)))
    as [mz ez].
  cbn [fst snd] in *.
  assert (Hemin : emin prec emax <= 0) by (unfold emin; lia).
  assert (Hez : ez = fexp prec emax (Zpos (digits2_pos p) + 0))
    by (unfold fexp in *; lia).
  rewrite binary_round_aux_exact.
  - exists mz, ez. split; [reflexivity |].
    cbn [float_value]. rewrite Hv, pow2_0. ring.
  - cbn [Zdigits2]. rewrite Hdz.
    replace (Zpos (digits2_pos p) + (0 - ez) + ez)
      with (Zpos (digits2_pos p) + 0) by lia.
    now symmetry.
  - unfold fexp in *. lia.
Qed.

(** The difference of two numbers of the format is a number of the format. *)
Lemma SFsub_valid (x y : spec_float) :
  valid_binary prec emax x = true -> valid_binary prec emax y = true ->
  is_finite x = true -> is_finite y = true ->
  (Qabs (float_value x - float_value y) < pow2 (emax - 1))%Q ->
  valid_binary prec emax (SFsub prec emax x y) = true.
Proof.
  intros Vx Vy Fx Fy Hover.
  destruct x as [sx | sx | | sx mx ex]; try discriminate;
    destruct y as [sy | sy | | sy my ey]; try discriminate.
  - destruct sx, sy; reflexivity.
  - exact Vy.
  - exact Vx.
  - cbn [SFsub].
    match goal with
    | |- valid_binary _ _ (binary_normalize _ _ ?D ?ez _) = true =>
        assert (HD : (inject_Z D * pow2 ez
                      == float_value (S754_finite sx mx ex)
                         - float_value (S754_finite sy my ey))%Q)
    end.
    { unfold Z.sub at 1. rewrite inject_Z_plus, inject_Z_opp.
      rewrite <- !aligned_value with (ez := Z.min ex ey) by lia. ring. }
    rewrite <- HD in Hover.
    now destruct (binary_normalize_approx prec emax Hprec Hemax _ _ false Hover)
      as (_ & Hv & _).
Qed.

(** Comparing the other way round. *)
Lemma SFcompare_swap (x y : spec_float) :
  is_finite x = true -> is_finite y = true ->
  SFcompare y x = option_map CompOpp (SFcompare x y).
Proof.
  intros Fx Fy.
  destruct x as [sx | sx | | sx mx ex]; try discriminate;
    destruct y as [sy | sy | | sy my ey]; try discriminate;
    cbn [SFcompare option_map].
  - reflexivity.
  - destruct sy; reflexivity.
  - destruct sx; reflexivity.
  - f_equal. destruct sx, sy; try reflexivity.
    + rewrite (Z.compare_antisym ex ey).
      destruct (ex ?= ey) eqn:E; cbn [CompOpp]; try reflexivity.
      rewrite ?Pos.compare_cont_antisym. reflexivity.
    + rewrite (Z.compare_antisym ex ey).
      destruct (ex ?= ey) eqn:E; cbn [CompOpp]; try reflexivity.
      rewrite ?Pos.compare_cont_antisym. reflexivity.
Qed.

(** On finite numbers of the format, [<] is the order of the values. *)
Lemma SFltb_value (x y : spec_float) :
  valid_binary prec emax x = true -> valid_binary prec emax y = true ->
  is_finite x = true -> is_finite y = true ->
  (SFltb x y = true -> (float_value x <= float_value y)%Q)
  /\ (SFltb x y = false -> (float_value y <= float_value x)%Q).
Proof.
  intros Vx Vy Fx Fy. split; intros H.
  - apply (SFleb_value prec emax); try assumption.
    unfold SFltb in H. unfold SFleb.
    destruct (SFcompare x y) as [[| |] |]; try discriminate; reflexivity.
  - apply (SFleb_value prec emax); try assumption.
    unfold SFltb in H. unfold SFleb.
    rewrite (SFcompare_swap x y Fx Fy).
    destruct (SFcompare x y) as [[| |] |] eqn:E; try discriminate;
      try reflexivity.
    destruct x as [sx | sx | | sx mx ex]; try discriminate;
      destruct y as [sy | sy | | sy my ey]; discriminate.
Qed.

End Exactness.

(** ** The stage graph *)

Section StageFacts.
Context {F : Type} {A : Arith F}.

(** Both stages are the same 3-tap average, whatever the arithmetic: the
    producer over the third coordinate, the consumer over the fourth. *)
Lemma producer_taps (inp : Z -> Z -> Z -> Z -> F) (n c x y : Z) :
  producer inp n c x y
  = avg3 (inp n c x y) (inp n c (x + 1) y) (inp n c (x + 2) y).
Proof. reflexivity. Qed.

Lemma consumer_taps (inp : Z -> Z -> Z -> Z -> F) (n c x y : Z) :
  consumer inp n c x y
  = avg3 (producer inp n c x y) (producer inp n c x (y + 1))
         (producer inp n c x (y + 2)).
Proof. reflexivity. Qed.

(** A stage maps a constant image to the average of three copies of the
    constant. *)
Lemma consumer_constant (inp : Z -> Z -> Z -> Z -> F) (k : F) :
  (forall n c x y, inp n c x y = k) ->
  forall n c x y, consumer inp n c x y = avg3 (avg3 k k k) (avg3 k k k) (avg3 k k k).
Proof.
  intros Hk n c x y.
  rewrite consumer_taps, !producer_taps, !Hk. reflexivity.
Qed.

Lemma load_realize (b : Blur F) (out : Buffer F) (n c x y : Z) :
  load (realize b out) n c x y = consumer (load (input b)) n c x y.
Proof. reflexivity. Qed.

Lemma load_constant_buffer (ext : list Z) (k : F) (n c x y : Z) :
  load (constant_buffer ext k) n c x y = k.
Proof. reflexivity. Qed.

End StageFacts.

(** In exact arithmetic the average of three taps is a third of their sum. *)
Lemma avg3_exact (a b c : Q) :
  (@avg3 Q exact a b c == (1 # 3) * (a + b + c))%Q.
Proof.
  unfold avg3. cbn [div add of_int exact]. 
  change (inject_Z 3) with (3 # 1). field.
Qed.

Lemma sum_0_2_unfold (f : Z -> Q) : (sum_0_2 f == f 0%Z + f 1%Z + f 2%Z)%Q.
Proof. unfold sum_0_2. cbn [fold_right]. ring. Qed.

Lemma consumer_exact (inp : Z -> Z -> Z -> Z -> Q) (n c x y : Z) :
  (@consumer Q exact inp n c x y == reference_blur inp n c x y)%Q.
Proof.
  rewrite consumer_taps, avg3_exact, !producer_taps, !avg3_exact.
  unfold reference_blur.
  rewrite sum_0_2_unfold.
  rewrite !sum_0_2_unfold.
  rewrite !Z.add_0_r.
  ring.
Qed.

Lemma same_float_eq (a b : spec_float) : same_float a b = true -> a = b.
Proof.
  destruct a as [s | s | | s m e], b as [s' | s' | | s' m' e'];
    cbn [same_float]; try discriminate; try reflexivity.
  - intros H. apply eqb_prop in H. now subst.
  - intros H. apply eqb_prop in H. now subst.
  - intros H. apply andb_prop in H. destruct H as [H He].
    apply andb_prop in H. destruct H as [Hs Hm].
    apply eqb_prop in Hs. apply Pos.eqb_eq in Hm. apply Z.eqb_eq in He.
    now subst.
Qed.

(** In [float] arithmetic every 8-bit sample value is its own three-fold
    average. *)
Lemma avg3_sample (z : Z) :
  0 <= z < 256 ->
  let k := @of_int _ binary32 z in
  @avg3 _ binary32 k k k = k.
Proof.
  intros Hz k. subst k.
  assert (Hall : forallb (fun n =>
                            let k := @of_int _ binary32 (Z.of_nat n) in
                            same_float (@avg3 _ binary32 k k k) k)
                         (seq 0 256) = true)
    by (vm_compute; reflexivity).
  rewrite forallb_forall in Hall.
  specialize (Hall (Z.to_nat z)).
  rewrite Z2Nat.id in Hall by lia.
  apply same_float_eq, Hall, in_seq. lia.
Qed.

(** Inside the output buffer, the nine cells a blur reads lie inside the
    input buffer. *)
Lemma taps_in_bounds (F : Type) (b : Blur F) (batch channels h w : Z)
      (n c x y i j : Z) :
  extents (input b) = [batch; channels; h; w] ->
  0 <= h <= INT_MAX ->
  0 <= w <= INT_MAX ->
  in_bounds (extents (get_output_buffer b)) (n, c, x, y) ->
  0 <= i <= 2 -> 0 <= j <= 2 ->
  in_bounds (extents (input b)) (n, c, x + i, y + j).
Proof.
  intros Hext Hh Hw Hout Hi Hj.
  unfold get_output_buffer, dim_extent in Hout. cbn [extents] in Hout.
  rewrite Hext in *. cbn [nth] in Hout.
  rewrite (sub32_extent h Hh), (sub32_extent w Hw) in Hout.
  cbn [in_bounds nth] in *. lia.
Qed.

(** The value of [consumer] at a coordinate depends on the image at the
    nine cells it reads only. *)
Lemma consumer_local (F : Type) (A : Arith F)
      (inp inp' : Z -> Z -> Z -> Z -> F) (n c x y : Z) :
  (forall i j, 0 <= i <= 2 -> 0 <= j <= 2 ->
               inp n c (x + i) (y + j) = inp' n c (x + i) (y + j)) ->
  consumer inp n c x y = consumer inp' n c x y.
Proof.
  intros H.
  pose proof (H 0 0 ltac:(lia) ltac:(lia)) as H00.
  pose proof (H 1 0 ltac:(lia) ltac:(lia)) as H10.
  pose proof (H 2 0 ltac:(lia) ltac:(lia)) as H20.
  pose proof (H 0 1 ltac:(lia) ltac:(lia)) as H01.
  pose proof (H 1 1 ltac:(lia) ltac:(lia)) as H11.
  pose proof (H 2 1 ltac:(lia) ltac:(lia)) as H21.
  pose proof (H 0 2 ltac:(lia) ltac:(lia)) as H02.
  pose proof (H 1 2 ltac:(lia) ltac:(lia)) as H12.
  pose proof (H 2 2 ltac:(lia) ltac:(lia)) as H22.
  rewrite ?Z.add_0_r in *.
  unfold consumer, producer.
  now rewrite H00, H10, H20, H01, H11, H21, H02, H12, H22.
Qed.

(** The blur of an image that holds [k] in every cell of its extents, at a
    coordinate of the output buffer. *)
Lemma consumer_constant_in_bounds (F : Type) (A : Arith F) (b : Blur F)
      (k : F) (batch channels h w : Z) (n c x y : Z) :
  extents (input b) = [batch; channels; h; w] ->
  0 <= h <= INT_MAX ->
  0 <= w <= INT_MAX ->
  (forall n c x y,
      in_bounds (extents (input b)) (n, c, x, y) ->
      load (input b) n c x y = k) ->
  in_bounds (extents (get_output_buffer b)) (n, c, x, y) ->
  consumer (load (input b)) n c x y
  = avg3 (avg3 k k k) (avg3 k k k) (avg3 k k k).
Proof.
  intros Hext Hh Hw Hk Hout.
  rewrite (consumer_local F A (load (input b)) (fun _ _ _ _ => k)).
  - now apply consumer_constant.
  - intros i j Hi Hj. apply Hk.
    now apply (taps_in_bounds F b batch channels h w).
Qed.

(** C8 (as the code has it). For an image of shape (batch, channels,
    height, width) that holds [k] in every cell, every cell of the output, of
    shape (batch, channels, height - 2, width - 2), is [k] whenever the rounded
    average [(k + k + k) / 3] is [k] itself. *)
Theorem blur_constant (F : Type) (A : Arith F) (b : Blur F) (out : Buffer F)
        (k : F) (batch channels h w : Z) :
  extents (input b) = [batch; channels; h; w] ->
  0 <= h <= INT_MAX ->
  0 <= w <= INT_MAX ->
  (forall n c x y,
      in_bounds (extents (input b)) (n, c, x, y) ->
      load (input b) n c x y = k) ->
  avg3 k k k = k ->
  forall n c x y,
    in_bounds (extents (get_output_buffer b)) (n, c, x, y) ->
    load (realize b out) n c x y = k.
Proof.
  intros Hext Hh Hw Hk Havg n c x y Hout.
  rewrite load_realize.
  rewrite (consumer_constant_in_bounds F A b k batch channels h w)
    by assumption.
  now rewrite !Havg.
Qed.

Lemma blur_constant_witness :
  let b := mkBlur (Examples.framed_buffer Examples.f32_1) EmptyString in
  @load _ binary32 (@realize _ binary32 b (@get_output_buffer _ b)) 0 0 0 0
  = Examples.f32_1.
Proof.
  intro b.
  apply (blur_constant spec_float binary32 b (get_output_buffer b)
                       Examples.f32_1 1 1 3 3).
  - reflexivity.
  - unfold INT_MAX. lia.
  - unfold INT_MAX. lia.
  - intros n c x y Hin. now apply framed_buffer_inside.
  - vm_compute. reflexivity.
  - cbn. lia.
Defined.

(** C8 as stated fails in [float] arithmetic: for the image that holds
    12582914 everywhere, [k + k + k] rounds up to 37748744 and a third of
    that rounds to 12582915, in both stages. *)
Lemma blur_constant_counterexample :
  let k := Examples.f32_12582914 in
  let b := mkBlur (constant_buffer Examples.small_extents k) EmptyString in
  (forall n c x y, @load _ binary32 (input b) n c x y = k) /\
  in_bounds (extents (@get_output_buffer _ b)) (0, 0, 0, 0) /\
  @load _ binary32 (@realize _ binary32 b (@get_output_buffer _ b)) 0 0 0 0
  = Examples.f32_12582915 /\
  @load _ binary32 (@realize _ binary32 b (@get_output_buffer _ b)) 0 0 0 0
  <> k.
Proof.
  intros k b. split; [| split; [| split]].
  - intros. reflexivity.
  - cbn. lia.
  - vm_compute. reflexivity.
  - vm_compute. discriminate.
Qed.

(** *** The blur in [float] arithmetic *)

(** A rounded result, as an interval around the exact one. *)
Lemma rounds_to_interval (prec emax : Z) (z bound : Q) (r : spec_float) :
  rounds_to prec emax z r ->
  (Qabs z <= bound)%Q ->
  is_finite r = true
  /\ (z - (pow2 (- prec) * bound + pow2 (emin prec emax - 1))
      <= float_value r
      <= z + (pow2 (- prec) * bound + pow2 (emin prec emax - 1)))%Q.
Proof.
  intros [Hfin Herr] Hz. split; [exact Hfin |].
  pose proof (pow2_pos (- prec)) as Hu.
  assert (Hle : (pow2 (- prec) * Qabs z <= pow2 (- prec) * bound)%Q) by nra.
  apply Qabs_Qle_condition in Herr. lra.
Qed.

Lemma rounds_to_ext (prec emax : Z) (z z' : Q) (r : spec_float) :
  (z == z')%Q -> rounds_to prec emax z r -> rounds_to prec emax z' r.
Proof. intros E [Hfin Herr]. split; [exact Hfin |]. now rewrite <- E. Qed.







(** ** Running computations *)

Section Runs.
Context {T : Type}.

Lemma run_bind {A B} (m : M T A) (f : A -> M T B) (k : nat) :
  bind m f k
  = (result (f (result (m k)) (clock_reads (m k))),
     trace (m k) ++ trace (f (result (m k)) (clock_reads (m k))),
     clock_reads (f (result (m k)) (clock_reads (m k)))).
Proof.
  unfold bind, result, trace, clock_reads.
  destruct (m k) as [[a tr] k']. cbn [fst snd].
  destruct (f a k') as [[b tr'] k'']. reflexivity.
Qed.

Lemma result_bind {A B} (m : M T A) (f : A -> M T B) (k : nat) :
  result (bind m f k) = result (f (result (m k)) (clock_reads (m k))).
Proof. rewrite run_bind. reflexivity. Qed.

Lemma trace_bind {A B} (m : M T A) (f : A -> M T B) (k : nat) :
  trace (bind m f k)
  = trace (m k) ++ trace (f (result (m k)) (clock_reads (m k))).
Proof. rewrite run_bind. reflexivity. Qed.

Lemma clock_bind {A B} (m : M T A) (f : A -> M T B) (k : nat) :
  clock_reads (bind m f k)
  = clock_reads (f (result (m k)) (clock_reads (m k))).
Proof. rewrite run_bind. reflexivity. Qed.

Lemma run_eta {A} (r : A * list (event T) * nat) :
  r = (result r, trace r, clock_reads r).
Proof. destruct r as [[a tr] k]. reflexivity. Qed.

End Runs.

Section ProgramFacts.
Context {F T : Type} {FA : Arith F} {TA : Arith T}.
Variable env : Env T.

(** The timing loop performs [k] iterations, each a realization followed
    by a device synchronization between two clock readings. *)
Lemma timing_loop_trace (b : Blur F) (k : nat) :
  forall (out : Buffer F) (i : Z) (total best : T) (c : nat),
    trace (@timing_loop F T FA TA env b out k i total best c)
    = List.concat (repeat (iteration_events (runnable_of b) (extents out)) k)
    /\ clock_reads (@timing_loop F T FA TA env b out k i total best c)
       = (c + 2 * k)%nat.
Proof.
  induction k as [| k IH]; intros out i total best c.
  - cbn. split; [reflexivity | lia].
  - cbn [timing_loop].
    rewrite !trace_bind, !clock_bind.
    cbn [read_clock emit run_filter result trace clock_reads fst snd ret bind app].
    destruct (IH (realize b out) (i + 1)
                 (add total (sub (current_time env (S c)) (current_time env c)))
                 (if (i =? 0) || ltb (sub (current_time env (S c)) (current_time env c)) best
                  then sub (current_time env (S c)) (current_time env c)
                  else best)
                 (S (S c))) as [Htr Hck].
    split.
    + rewrite Htr. reflexivity.
    + rewrite Hck. lia.
Qed.

(** The events of [test_performance]: one buffer, one untimed run, the
    timed runs, three lines of report. *)
Lemma test_performance_trace (b : Blur F) (num_runs : Z) (k : nat) :
  let ext := extents (get_output_buffer b) in
  let r := @timing_loop F T FA TA env b (realize b (get_output_buffer b))
             (Z.to_nat num_runs) 0 (of_int 0) (of_int 0) k in
  trace (@test_performance F T FA TA env b num_runs k)
  = NewBuffer ext
    :: Realize (runnable_of b) ext
    :: List.concat (repeat (iteration_events (runnable_of b) ext) (Z.to_nat num_runs))
    ++ [Print stdout "%d runs in total\n" [AInt num_runs];
        Print stdout "Average: %1.4f milliseconds\n"
              [ADouble (div (fst (result r)) (of_int num_runs))];
        Print stdout "Best: %1.4f milliseconds\n" [ADouble (snd (result r))]].
Proof.
  intros ext r. unfold test_performance.
  rewrite !trace_bind.
  cbn [emit run_filter result trace clock_reads fst snd ret bind app].
  fold ext. fold r.
  destruct (timing_loop_trace b (Z.to_nat num_runs)
              (realize b (get_output_buffer b)) 0 (of_int 0) (of_int 0) k)
    as [Htr _].
  fold r in Htr. rewrite Htr.
  destruct (result r) as [total best]. cbn [fst snd].
  reflexivity.
Qed.

Lemma filter_iterations (p : event T -> bool) (r : Runnable) (ext : list Z)
      (k : nat) :
  p (Realize r ext) = false ->
  p DeviceSync = false ->
  filter p (List.concat (repeat (iteration_events r ext) k)) = [].
Proof.
  intros Hr Hd. induction k as [| k IH]; [reflexivity |].
  cbn [repeat List.concat iteration_events app filter].
  rewrite Hr, Hd. exact IH.
Qed.

Lemma realize_iterations (r : Runnable) (ext : list Z) (k : nat) :
  List.length (filter is_realize
                 (List.concat (repeat (@iteration_events T r ext) k))) = k.
Proof.
  induction k as [| k IH]; [reflexivity |].
  cbn [repeat List.concat iteration_events app filter is_realize List.length].
  now rewrite IH.
Qed.

(** [find_gpu_target]: its value and its one possible line of output. *)
Lemma find_gpu_target_run (k : nat) :
  find_gpu_target env k
  = match first_supported env (get_host_target env)
            (features_to_try (get_host_target env)) with
    | Some new_target => (new_target, [], k)
    | None =>
        (get_host_target env,
         [Print stdout
            "Requested GPU(s) are not supported. (Do you have the proper hardware and/or driver installed?)\n"
            []],
         k)
    end.
Proof.
  unfold find_gpu_target.
  destruct (first_supported env (get_host_target env)
              (features_to_try (get_host_target env))); reflexivity.
Qed.

Lemma find_gpu_target_clock (k : nat) :
  clock_reads (find_gpu_target env k) = k.
Proof.
  rewrite find_gpu_target_run.
  destruct (first_supported env (get_host_target env)
              (features_to_try (get_host_target env))); reflexivity.
Qed.

(** Scheduling never reads the clock. *)
Lemma schedule_for_gpu_clock (b : Blur F) (k : nat) :
  clock_reads (schedule_for_gpu env b k) = k.
Proof.
  unfold schedule_for_gpu.
  rewrite clock_bind, find_gpu_target_clock.
  destruct (Target.has_gpu_feature (result (find_gpu_target env k)));
    [| reflexivity].
  cbn [negb].
  destruct (empty (scheduler b)); [| reflexivity].
  destruct (Target.has_feature (result (find_gpu_target env k)) Target.CUDA);
    reflexivity.
Qed.

(** [schedule_for_gpu], path by path. *)
Lemma schedule_for_gpu_run (b : Blur F) (k : nat) :
  let found := find_gpu_target env k in
  let target := result found in
  schedule_for_gpu env b k
  = if negb (Target.has_gpu_feature target) then (false, trace found, k)
    else if empty (scheduler b) then
      (true,
       trace found
       ++ (if Target.has_feature target Target.CUDA
           then trace (@manual_cuda_schedule T k) else [])
       ++ [Print stdout "Target: %s\n" [ATarget target];
           CompileJit run_consumer target],
       k)
    else
      (true,
       trace found
       ++ [SetEstimates consumer_func
             [(0, dim_extent (input b) 0); (0, dim_extent (input b) 1);
              (0, dim_extent (input b) 2); (0, dim_extent (input b) 3)];
           AutoSchedule (scheduler b) target;
           CompileJit run_auto_blur target],
       k).
Proof.
  intros found target.
  rewrite (run_eta (schedule_for_gpu env b k)), schedule_for_gpu_clock.
  unfold schedule_for_gpu.
  rewrite result_bind, trace_bind, find_gpu_target_clock.
  fold found. fold target.
  destruct (Target.has_gpu_feature target); cbn [negb].
  - destruct (empty (scheduler b)).
    + destruct (Target.has_feature target Target.CUDA); reflexivity.
    + reflexivity.
  - cbn. now rewrite app_nil_r.
Qed.

(** The part of [main] after the argument check: three events, then
    scheduling, then the benchmark, whatever scheduling returned. *)
Lemma benchmark_run (sched : string) (k : nat) :
  let blur_layer := mkBlur (@random_input F T FA env) sched in
  result (@benchmark F T FA TA env sched k) = 0
  /\ trace (@benchmark F T FA TA env sched k)
     = [Print stdout
          "Generating input with dimensions: batch_size: %d, height: %d, width: %d, channels: %d\n"
          [AInt 32; AInt 258; AInt 258; AInt 8];
        NewBuffer [32; 8; 258; 258];
        Print stdout "Running pipeline on GPU:\n" []]
       ++ trace (schedule_for_gpu env blur_layer k)
       ++ Print stdout "Testing performance on GPU:\n" []
          :: trace (@test_performance F T FA TA env blur_layer 100 k).
Proof.
  intros blur_layer. unfold benchmark. fold blur_layer.
  split.
  - rewrite !result_bind. reflexivity.
  - rewrite !trace_bind. cbn [printf emit trace clock_reads result fst snd app].
    rewrite schedule_for_gpu_clock, app_nil_r. reflexivity.
Qed.

End ProgramFacts.

(** ** Shapes and bounds *)

(** C3. For an input of shape (batch, channels, height, width) the buffer of
    [get_output_buffer] has shape (batch, channels, height - 2, width - 2),
    whatever the scheduler string; it is the one buffer [test_performance]
    allocates. *)
Theorem output_shape (F T : Type) (FA : Arith F) (TA : Arith T) (env : Env T)
        (b : Blur F) (batch channels h w : Z) :
  extents (input b) = [batch; channels; h; w] ->
  0 <= h <= INT_MAX ->
  0 <= w <= INT_MAX ->
  extents (get_output_buffer b) = [batch; channels; h - 2; w - 2] /\
  forall (num_runs : Z) (k : nat),
    filter is_new_buffer (trace (@test_performance F T FA TA env b num_runs k))
    = [NewBuffer [batch; channels; h - 2; w - 2]].
Proof.
  intros Hext Hh Hw.
  assert (Hout : extents (get_output_buffer b)
                 = [batch; channels; h - 2; w - 2]).
  { unfold get_output_buffer, dim_extent. cbn [extents].
    rewrite Hext. cbn [nth].
    now rewrite (sub32_extent h Hh), (sub32_extent w Hw). }
  split; [exact Hout |].
  intros num_runs k.
  rewrite test_performance_trace, Hout.
  cbn [filter is_new_buffer].
  rewrite filter_app, filter_iterations by reflexivity.
  reflexivity.
Qed.

Lemma output_shape_witness :
  extents (get_output_buffer
             (mkBlur (@random_input Q Q exact Examples.cuda_env) "Li2018"))
  = [32; 8; 256; 256].
Proof.
  apply (output_shape Q Q exact exact Examples.cuda_env
           (mkBlur (@random_input Q Q exact Examples.cuda_env) "Li2018")
           32 8 258 258).
  - reflexivity.
  - unfold INT_MAX. lia.
  - unfold INT_MAX. lia.
Defined.

(** The loads of [consumer] at one coordinate are the nine cells
    [(n, c, x + i, y + j)], [i] and [j] in 0..2. *)
Lemma consumer_loads_taps (n c x y : Z) :
  consumer_loads n c x y
  = [(n, c, x, y); (n, c, x + 1, y); (n, c, x + 2, y);
     (n, c, x, y + 1); (n, c, x + 1, y + 1); (n, c, x + 2, y + 1);
     (n, c, x, y + 2); (n, c, x + 1, y + 2); (n, c, x + 2, y + 2)].
Proof. reflexivity. Qed.

(** C10. At every coordinate of the output buffer, every cell the two stages
    load from the input lies inside the input buffer. *)
Theorem loads_in_bounds (F : Type) (b : Blur F) (batch channels h w : Z)
        (n c x y : Z) (p : coord) :
  extents (input b) = [batch; channels; h; w] ->
  0 <= h <= INT_MAX ->
  0 <= w <= INT_MAX ->
  in_bounds (extents (get_output_buffer b)) (n, c, x, y) ->
  In p (consumer_loads n c x y) ->
  in_bounds (extents (input b)) p.
Proof.
  intros Hext Hh Hw Hout Hp.
  unfold get_output_buffer, dim_extent in Hout. cbn [extents] in Hout.
  rewrite Hext in *. cbn [nth] in Hout.
  rewrite (sub32_extent h Hh), (sub32_extent w Hw) in Hout.
  rewrite consumer_loads_taps in Hp.
  cbn [in_bounds nth] in *.
  cbn [In] in Hp.
  repeat (destruct Hp as [<- | Hp]; [cbn; lia |]).
  contradiction.
Qed.

Lemma loads_in_bounds_witness :
  in_bounds [32; 8; 258; 258] (31, 7, 257, 257).
Proof.
  apply (loads_in_bounds Q
           (mkBlur (@random_input Q Q exact Examples.cuda_env) EmptyString)
           32 8 258 258 31 7 255 255 (31, 7, 257, 257)).
  - reflexivity.
  - unfold INT_MAX. lia.
  - unfold INT_MAX. lia.
  - vm_compute. intuition discriminate.
  - rewrite consumer_loads_taps. cbn. intuition.
Defined.

(** ** The command line *)

Section MainFacts.
Context {F T : Type} {FA : Arith F} {TA : Arith T}.
Variable env : Env T.

Lemma main_two_args (prog name : string) (k : nat) :
  @main F T FA TA env [prog; name] k
  = (result (@benchmark F T FA TA env name k),
     Print stdout "Running performance test for Blur with autoscheduler: %s.\n"
           [AStr name]
     :: LoadPlugin "autoschedule_li2018"
     :: trace (@benchmark F T FA TA env name k),
     clock_reads (@benchmark F T FA TA env name k)).
Proof.
  unfold main. cbn [List.length Z.of_nat Pos.of_succ_nat Pos.succ Z.eqb Pos.eqb nth].
  rewrite !run_bind. reflexivity.
Qed.

Lemma main_no_args (prog : string) (k : nat) :
  @main F T FA TA env [prog] k
  = (result (@benchmark F T FA TA env EmptyString k),
     Print stdout "Running performance test for Blur with manual schedule.\n" []
     :: trace (@benchmark F T FA TA env EmptyString k),
     clock_reads (@benchmark F T FA TA env EmptyString k)).
Proof.
  unfold main. cbn [List.length Z.of_nat Pos.of_succ_nat Pos.succ Z.eqb Pos.eqb nth].
  rewrite !run_bind. reflexivity.
Qed.

Lemma plugins_loaded_app (tr tr' : list (event T)) :
  plugins_loaded (tr ++ tr') = plugins_loaded tr ++ plugins_loaded tr'.
Proof. apply flat_map_app. Qed.

Lemma plugins_loaded_iterations (r : Runnable) (ext : list Z) (k : nat) :
  plugins_loaded (List.concat (repeat (@iteration_events T r ext) k)) = [].
Proof. induction k as [| k IH]; [reflexivity | exact IH]. Qed.

Lemma plugins_loaded_find (k : nat) :
  plugins_loaded (trace (find_gpu_target env k)) = [].
Proof.
  rewrite find_gpu_target_run.
  destruct (first_supported env (get_host_target env)
              (features_to_try (get_host_target env))); reflexivity.
Qed.

Lemma plugins_loaded_schedule (b : Blur F) (k : nat) :
  plugins_loaded (trace (schedule_for_gpu env b k)) = [].
Proof.
  rewrite schedule_for_gpu_run.
  destruct (Target.has_gpu_feature (result (find_gpu_target env k)));
    cbn [negb].
  - destruct (empty (scheduler b)); cbn [trace fst snd].
    + destruct (Target.has_feature (result (find_gpu_target env k)) Target.CUDA);
        rewrite !plugins_loaded_app, plugins_loaded_find; reflexivity.
    + rewrite !plugins_loaded_app, plugins_loaded_find; reflexivity.
  - cbn [trace fst snd]. apply plugins_loaded_find.
Qed.

Lemma plugins_loaded_test_performance (b : Blur F) (num_runs : Z) (k : nat) :
  plugins_loaded (trace (@test_performance F T FA TA env b num_runs k)) = [].
Proof.
  rewrite test_performance_trace.
  change (?x :: ?y :: ?l ++ ?m) with ([x; y] ++ l ++ m).
  rewrite !plugins_loaded_app, plugins_loaded_iterations. reflexivity.
Qed.

(** Nothing after the argument check loads a plugin. *)
Lemma plugins_loaded_benchmark (sched : string) (k : nat) :
  plugins_loaded (trace (@benchmark F T FA TA env sched k)) = [].
Proof.
  destruct (@benchmark_run F T FA TA env sched k) as [_ ->].
  change (?l ++ ?m ++ ?x :: ?n) with (l ++ m ++ [x] ++ n).
  rewrite !plugins_loaded_app, plugins_loaded_schedule,
    plugins_loaded_test_performance.
  reflexivity.
Qed.

End MainFacts.

(** C7. With two or more command-line arguments [main] prints the usage
    line on standard error and returns 1; it emits nothing else: no buffer,
    no scheduling, no compilation. *)
Theorem main_usage (F T : Type) (FA : Arith F) (TA : Arith T) (env : Env T)
        (argv : list string) (k : nat) :
  (3 <= List.length argv)%nat ->
  @main F T FA TA env argv k
  = (1, [Print stderr "Usage: .//relu_gpu [autoscheduler]\n" []], k).
Proof.
  intros Hlen. unfold main.
  destruct (Z.eqb_spec (Z.of_nat (List.length argv)) 2) as [E | _]; [lia |].
  destruct (Z.eqb_spec (Z.of_nat (List.length argv)) 1) as [E | _]; [lia |].
  reflexivity.
Qed.

Lemma main_usage_witness :
  @main Q Q exact exact Examples.cuda_env ["blur"; "Li2018"; "extra"] 0%nat
  = (1, [Print stderr "Usage: .//relu_gpu [autoscheduler]\n" []], 0%nat).
Proof.
  apply (main_usage Q Q exact exact Examples.cuda_env
           ["blur"; "Li2018"; "extra"] 0%nat).
  cbn. lia.
Defined.

(** C6 (as the code has it). With exactly one argument, the second thing
    [main] does, after its first line of output and before any scheduling or
    compilation, is to load the plugin [autoschedule_li2018], whatever the
    argument names; no other plugin is loaded.  With no argument no plugin is
    loaded at all. *)
Theorem plugin_loading (F T : Type) (FA : Arith F) (TA : Arith T)
        (env : Env T) (k : nat) :
  (forall prog name : string,
      exists rest,
        trace (@main F T FA TA env [prog; name] k)
        = Print stdout
            "Running performance test for Blur with autoscheduler: %s.\n"
            [AStr name]
          :: LoadPlugin "autoschedule_li2018" :: rest
        /\ plugins_loaded rest = [])
  /\
  (forall prog : string,
      plugins_loaded (trace (@main F T FA TA env [prog] k)) = []).
Proof.
  split.
  - intros prog name. rewrite main_two_args. cbn [trace fst snd].
    eexists. split; [reflexivity |]. apply plugins_loaded_benchmark.
  - intros prog. rewrite main_no_args. cbn [trace fst snd].
    apply (plugins_loaded_benchmark env EmptyString k).
Qed.

(** C6 as stated fails: started with the argument [Adams2019], [main] hands
    that name to the autoscheduler but the one plugin it loads is
    [autoschedule_li2018], not the plugin of the named algorithm. *)
Lemma plugin_loading_counterexample :
  let tr := trace (@main Q Q exact exact Examples.cuda_env
                     ["blur"; "Adams2019"] 0%nat) in
  plugins_loaded tr = ["autoschedule_li2018"]
  /\ autoschedulers_invoked tr = ["Adams2019"]
  /\ plugin_of_autoscheduler "Adams2019" = "autoschedule_adams2019"
  /\ ~ In (plugin_of_autoscheduler "Adams2019") (plugins_loaded tr)
  /\ ~ In "Adams2019" (plugins_loaded tr).
Proof.
  intro tr.
  assert (H : plugins_loaded tr = ["autoschedule_li2018"]) by (vm_compute; reflexivity).
  split; [exact H |]. split; [vm_compute; reflexivity |].
  split; [vm_compute; reflexivity |].
  rewrite H. split; intros [E | []]; discriminate E.
Qed.

(** ** Scheduling *)

Section ScheduleFacts.
Context {F T : Type} {FA : Arith F} {TA : Arith T}.
Variable env : Env T.

(** Whatever [find_gpu_target] emits is a line of output. *)
Lemma filter_find (p : event T -> bool) (k : nat) :
  (forall to fmt args, p (Print to fmt args) = false) ->
  filter p (trace (find_gpu_target env k)) = [].
Proof.
  intros Hp. rewrite find_gpu_target_run.
  destruct (first_supported env (get_host_target env)
              (features_to_try (get_host_target env)));
    cbn [trace fst snd filter]; [reflexivity |].
  now rewrite Hp.
Qed.

(** The events of the benchmark proper, filtered. *)
Lemma filter_test_performance (p : event T -> bool) (b : Blur F)
      (num_runs : Z) (k : nat) :
  (forall to fmt args, p (Print to fmt args) = false) ->
  (forall ext, p (NewBuffer ext) = false) ->
  (forall r ext, p (Realize r ext) = false) ->
  p DeviceSync = false ->
  filter p (trace (@test_performance F T FA TA env b num_runs k)) = [].
Proof.
  intros Hprint Hnew Hreal Hsync.
  rewrite test_performance_trace.
  cbn [filter]. rewrite Hnew, Hreal, filter_app.
  rewrite filter_iterations by auto.
  cbn [filter app]. now rewrite !Hprint.
Qed.

Lemma realize_test_performance (b : Blur F) (num_runs : Z) (k : nat) :
  List.length (filter is_realize
                 (trace (@test_performance F T FA TA env b num_runs k)))
  = S (Z.to_nat num_runs).
Proof.
  rewrite test_performance_trace.
  cbn [filter is_realize List.length].
  rewrite filter_app, length_app, realize_iterations.
  cbn. lia.
Qed.

(** The first supported candidate, as a search of the candidate list. *)
Lemma first_supported_find (target : Target.t) (fs : list Target.Feature) :
  first_supported env target fs
  = option_map (Target.with_feature target)
      (find (fun f => host_supports_target_device env
                        (Target.with_feature target f)) fs).
Proof.
  induction fs as [| f fs IH]; [reflexivity |].
  cbn [first_supported find].
  destruct (host_supports_target_device env (Target.with_feature target f));
    [reflexivity | exact IH].
Qed.

Lemma first_supported_none (target : Target.t) (fs : list Target.Feature) :
  (forall f, In f fs ->
             host_supports_target_device env (Target.with_feature target f)
             = false) ->
  first_supported env target fs = None.
Proof.
  induction fs as [| f fs IH]; intros Hfs; [reflexivity |].
  cbn [first_supported].
  rewrite (Hfs f (or_introl eq_refl)).
  apply IH. intros g Hg. apply Hfs. now right.
Qed.

End ScheduleFacts.

Section BenchmarkFacts.
Context {F T : Type} {FA : Arith F} {TA : Arith T}.
Variable env : Env T.

(** What follows the argument check when no GPU is found. *)
Lemma benchmark_without_gpu (p : event T -> bool) (sched : string)
      (k : nat) :
  (forall to fmt args, p (Print to fmt args) = false) ->
  (forall ext, p (NewBuffer ext) = false) ->
  Target.has_gpu_feature (result (find_gpu_target env k)) = false ->
  filter p (trace (@benchmark F T FA TA env sched k))
  = filter p (trace (@test_performance F T FA TA env
                       (mkBlur (@random_input F T FA env) sched) 100 k)).
Proof.
  intros Hprint Hnew Hgpu.
  destruct (@benchmark_run F T FA TA env sched k) as [_ ->].
  rewrite schedule_for_gpu_run, Hgpu. cbn [negb trace fst snd].
  change (?l ++ ?m ++ ?x :: ?n) with (l ++ m ++ [x] ++ n).
  rewrite !filter_app, filter_find by exact Hprint.
  cbn [filter]. now rewrite !Hprint, Hnew.
Qed.

End BenchmarkFacts.

(** C2. Started with no or one argument, [main] follows [schedule_for_gpu]
    with the benchmark and returns 0, whatever [schedule_for_gpu] returned.
    When the resolved target has no GPU feature, [schedule_for_gpu] returns
    false, nothing is scheduled or compiled during the whole run, and the
    pipeline is still realized 101 times. *)
Theorem main_ignores_schedule_result (F T : Type) (FA : Arith F)
        (TA : Arith T) (env : Env T) (argv : list string) (k : nat) :
  (List.length argv = 1 \/ List.length argv = 2)%nat ->
  let blur_layer := mkBlur (@random_input F T FA env) (nth 1 argv "") in
  let scheduled := schedule_for_gpu env blur_layer k in
  let run := @main F T FA TA env argv k in
  result run = 0
  /\ (exists before,
         trace run
         = before ++ trace scheduled
           ++ Print stdout "Testing performance on GPU:\n" []
              :: trace (@test_performance F T FA TA env blur_layer 100 k))
  /\ (Target.has_gpu_feature (result (find_gpu_target env k)) = false ->
      result scheduled = false
      /\ filter is_schedule (trace run) = []
      /\ filter is_compile (trace run) = []
      /\ List.length (filter is_realize (trace run)) = 101%nat).
Proof.
  intros Hlen.
  destruct argv as [| prog [| name [| extra argv]]]; cbn in Hlen;
    try (exfalso; lia); cbn [nth].
  - rewrite main_no_args. cbn [result trace fst snd].
    destruct (@benchmark_run F T FA TA env EmptyString k) as [Hres Htr].
    split; [exact Hres |]. split.
    + rewrite Htr. eexists (_ :: _). reflexivity.
    + intros Hgpu. split.
      * now rewrite schedule_for_gpu_run, Hgpu.
      * cbn [filter is_schedule is_compile is_realize].
        rewrite !(@benchmark_without_gpu F T FA TA env) by auto.
        rewrite !filter_test_performance by reflexivity.
        rewrite realize_test_performance. repeat split.
  - rewrite main_two_args. cbn [result trace fst snd].
    destruct (@benchmark_run F T FA TA env name k) as [Hres Htr].
    split; [exact Hres |]. split.
    + rewrite Htr. eexists (_ :: _ :: _). reflexivity.
    + intros Hgpu. split.
      * now rewrite schedule_for_gpu_run, Hgpu.
      * cbn [filter is_schedule is_compile is_realize].
        rewrite !(@benchmark_without_gpu F T FA TA env) by auto.
        rewrite !filter_test_performance by reflexivity.
        rewrite realize_test_performance. repeat split.
Qed.

Lemma main_ignores_schedule_result_witness :
  let run := @main Q Q exact exact Examples.no_gpu_env ["blur"] 0%nat in
  result run = 0
  /\ filter is_compile (trace run) = []
  /\ List.length (filter is_realize (trace run)) = 101%nat.
Proof.
  destruct (main_ignores_schedule_result Q Q exact exact Examples.no_gpu_env
              ["blur"] 0%nat (or_introl eq_refl))
    as (Hres & _ & Hgpu).
  destruct (Hgpu eq_refl) as (_ & _ & Hc & Hr).
  intro run. split; [exact Hres |]. split; [exact Hc | exact Hr].
Defined.

(** C4. [find_gpu_target] tries Metal on OSX and CUDA elsewhere and returns
    the host target with the first candidate the host supports, or the host
    target itself when none is.  When none is and the host target has no GPU
    feature, [schedule_for_gpu] returns false after the resolver's diagnostic
    alone: nothing is scheduled or compiled. *)
Theorem gpu_target_resolution (T : Type) (env : Env T) :
  let host := get_host_target env in
  let candidates :=
    if Target.OS_eqb (Target.os host) Target.OSX
    then [Target.Metal] else [Target.CUDA] in
  (forall k,
      result (find_gpu_target env k)
      = match find (fun f => host_supports_target_device env
                               (Target.with_feature host f)) candidates with
        | Some f => Target.with_feature host f
        | None => host
        end)
  /\
  (Target.has_gpu_feature host = false ->
   (forall f, In f candidates ->
              host_supports_target_device env (Target.with_feature host f)
              = false) ->
   forall (F : Type) (b : Blur F) (k : nat),
     result (find_gpu_target env k) = host
     /\ schedule_for_gpu env b k
        = (false,
           [Print stdout
              "Requested GPU(s) are not supported. (Do you have the proper hardware and/or driver installed?)\n"
              []],
           k)).
Proof.
  intros host candidates. split.
  - intros k. rewrite find_gpu_target_run, first_supported_find.
    fold host. change (features_to_try host) with candidates.
    destruct (find _ candidates); reflexivity.
  - intros Hhost Hnone F b k.
    assert (Hfind : find_gpu_target env k
                    = (host,
                       [Print stdout
                          "Requested GPU(s) are not supported. (Do you have the proper hardware and/or driver installed?)\n"
                          []],
                       k)).
    { rewrite find_gpu_target_run. fold host.
      change (features_to_try host) with candidates.
      now rewrite (first_supported_none env host candidates Hnone). }
    split; [now rewrite Hfind |].
    rewrite schedule_for_gpu_run, Hfind. cbn [result trace fst snd].
    now rewrite Hhost.
Qed.

Lemma gpu_target_resolution_witness :
  schedule_for_gpu Examples.no_gpu_env
                   (mkBlur (@random_input Q Q exact Examples.no_gpu_env)
                           EmptyString) 0%nat
  = (false,
     [Print stdout
        "Requested GPU(s) are not supported. (Do you have the proper hardware and/or driver installed?)\n"
        []],
     0%nat).
Proof.
  apply (proj2 (gpu_target_resolution Q Examples.no_gpu_env)).
  - reflexivity.
  - intros f Hf. reflexivity.
Defined.

(** C9. On the manual path, when the resolved target has a GPU feature that
    is not CUDA, [schedule_for_gpu] applies no scheduling directive: after
    the resolver it prints the target, compiles [consumer] for it and returns
    true. *)
Theorem manual_schedule_skipped (F T : Type) (env : Env T) (b : Blur F)
        (k : nat) :
  let found := find_gpu_target env k in
  let target := result found in
  empty (scheduler b) = true ->
  Target.has_gpu_feature target = true ->
  Target.has_feature target Target.CUDA = false ->
  schedule_for_gpu env b k
  = (true,
     trace found
     ++ [Print stdout "Target: %s\n" [ATarget target];
         CompileJit run_consumer target],
     k)
  /\ filter is_schedule (trace (schedule_for_gpu env b k)) = [].
Proof.
  intros found target Hempty Hgpu Hcuda.
  rewrite schedule_for_gpu_run. fold found. fold target.
  rewrite Hgpu, Hempty, Hcuda. cbn [negb app].
  split; [reflexivity |].
  cbn [trace fst snd]. rewrite filter_app.
  subst found. rewrite filter_find by reflexivity. reflexivity.
Qed.

Lemma manual_schedule_skipped_witness :
  let target := Target.with_feature Examples.osx_host Target.Metal in
  schedule_for_gpu Examples.metal_env
                   (mkBlur (@random_input Q Q exact Examples.metal_env)
                           EmptyString) 0%nat
  = (true,
     [Print stdout "Target: %s\n" [ATarget target];
      CompileJit run_consumer target],
     0%nat).
Proof.
  intro target.
  apply (proj1 (manual_schedule_skipped Q Q Examples.metal_env
                  (mkBlur (@random_input Q Q exact Examples.metal_env)
                          EmptyString) 0%nat eq_refl eq_refl eq_refl)).
Defined.

(** ** The benchmark's report *)

Section TimingFacts.
Context {F T : Type} {FA : Arith F} {TA : Arith T}.
Variable env : Env T.

(** One turn of the timing loop. *)
Lemma timing_loop_step (b : Blur F) (out : Buffer F) (k : nat) (i : Z)
      (total best : T) (c : nat) :
  let elapsed := sub (current_time env (S c)) (current_time env c) in
  result (@timing_loop F T FA TA env b out (S k) i total best c)
  = result (@timing_loop F T FA TA env b (realize b out) k (i + 1)
              (add total elapsed)
              (if (i =? 0) || ltb elapsed best then elapsed else best)
              (S (S c))).
Proof.
  intros elapsed. cbn [timing_loop].
  rewrite !result_bind. reflexivity.
Qed.

Lemma printed_doubles_app (fmt : string) (tr tr' : list (event T)) :
  printed_doubles fmt (tr ++ tr')
  = printed_doubles fmt tr ++ printed_doubles fmt tr'.
Proof. apply flat_map_app. Qed.

Lemma printed_doubles_iterations (fmt : string) (r : Runnable)
      (ext : list Z) (k : nat) :
  printed_doubles fmt (List.concat (repeat (@iteration_events T r ext) k))
  = [].
Proof. induction k as [| k IH]; [reflexivity | exact IH]. Qed.

(** What [test_performance] reports: the total over the number of runs,
    and the best time. *)
Lemma test_performance_report (b : Blur F) (num_runs : Z) (k : nat) :
  let r := result (@timing_loop F T FA TA env b
                     (realize b (get_output_buffer b))
                     (Z.to_nat num_runs) 0 (of_int 0) (of_int 0) k) in
  let tr := trace (@test_performance F T FA TA env b num_runs k) in
  reported_average tr = [div (fst r) (of_int num_runs)]
  /\ reported_best tr = [snd r].
Proof.
  intros r tr. subst tr. rewrite test_performance_trace. fold r.
  unfold reported_average, reported_best.
  change (?x :: ?y :: ?l ++ ?m) with ([x; y] ++ l ++ m).
  rewrite !printed_doubles_app, !printed_doubles_iterations.
  split; reflexivity.
Qed.

End TimingFacts.

Section ExactTiming.
Context {F : Type} {FA : Arith F}.
Variable env : Env Q.

Local Open Scope Q_scope.

Lemma ltb_exact (a b : Q) : @ltb Q exact a b = true <-> a < b.
Proof.
  cbn [ltb exact]. rewrite negb_true_iff, <- not_true_iff_false, Qle_bool_iff.
  split; [apply Qnot_le_lt | apply Qlt_not_le].
Qed.

Lemma ltb_exact_false (a b : Q) : @ltb Q exact a b = false <-> b <= a.
Proof.
  cbn [ltb exact]. rewrite negb_false_iff. apply Qle_bool_iff.
Qed.

(** After [i] turns the total is at least [i] times the best time. *)
Lemma timing_loop_best_le_total (b : Blur F) (k : nat) :
  forall (out : Buffer F) (i : Z) (total best : Q) (c : nat),
    ((i = 0)%Z /\ 0 <= total) \/ ((0 < i)%Z /\ inject_Z i * best <= total) ->
    let r := result (@timing_loop F Q FA exact env b out k i total best c) in
    (0 < i + Z.of_nat k)%Z ->
    inject_Z (i + Z.of_nat k) * snd r <= fst r.
Proof.
  induction k as [| k IH]; intros out i total best c Hinv r Hpos.
  - subst r. cbn [timing_loop ret result fst snd].
    rewrite Z.add_0_r in *.
    destruct Hinv as [[Hi _] | [_ Hle]]; [lia | exact Hle].
  - subst r. rewrite timing_loop_step.
    replace (i + Z.of_nat (S k))%Z with ((i + 1) + Z.of_nat k)%Z by lia.
    apply IH; [| lia].
    right. split; [destruct Hinv as [[-> _] | [Hi _]]; lia |].
    set (elapsed := sub (current_time env (S c)) (current_time env c)).
    cbn [add exact].
    rewrite inject_Z_plus. change (inject_Z 1) with 1.
    destruct Hinv as [[-> Htotal] | [Hi Hle]].
    + cbn [Z.eqb orb]. change (inject_Z 0) with 0. lra.
    + replace (i =? 0)%Z with false by (symmetry; apply Z.eqb_neq; lia).
      cbn [orb].
      assert (Hqi : 0 < inject_Z i).
      { change 0 with (inject_Z 0). rewrite <- Zlt_Qlt. exact Hi. }
      destruct (ltb elapsed best) eqn:Hlt.
      * apply ltb_exact in Hlt.
        assert (inject_Z i * elapsed <= inject_Z i * best)
          by (apply Qmult_le_l; [exact Hqi | lra]).
        lra.
      * apply ltb_exact_false in Hlt. lra.
Qed.

(** With a clock that never runs backwards the best time is not
    negative. *)
Lemma timing_loop_best_nonneg (b : Blur F) (k : nat) :
  (forall j, current_time env j <= current_time env (S j)) ->
  forall (out : Buffer F) (i : Z) (total best : Q) (c : nat),
    (i = 0)%Z \/ 0 <= best ->
    let r := result (@timing_loop F Q FA exact env b out k i total best c) in
    (0 <= i)%Z ->
    (0 < i + Z.of_nat k)%Z ->
    0 <= snd r.
Proof.
  intros Hclock.
  induction k as [| k IH]; intros out i total best c Hinv r Hi Hpos.
  - subst r. cbn [timing_loop ret result fst snd].
    destruct Hinv as [-> | Hb]; [lia | exact Hb].
  - subst r. rewrite timing_loop_step.
    apply IH; [| lia | lia].
    right.
    assert (He : 0 <= @sub Q exact (current_time env (S c)) (current_time env c)).
    { cbn [sub exact]. specialize (Hclock c). lra. }
    destruct ((i =? 0)%Z || ltb _ best) eqn:Hcase; [exact He |].
    apply orb_false_iff in Hcase. destruct Hcase as [Hi0 _].
    apply Z.eqb_neq in Hi0.
    destruct Hinv as [-> | Hb]; [contradiction | exact Hb].
Qed.

End ExactTiming.

#[local] Existing Instance exact.

(** The best time never exceeds the average in exact arithmetic, whatever
    the clock does. *)
Lemma best_le_average_any_clock (F : Type) (FA : Arith F) (env : Env Q)
      (b : Blur F) (num_runs : Z) (k : nat) :
  1 <= num_runs ->
  let r := result (@timing_loop F Q FA exact env b
                     (realize b (get_output_buffer b))
                     (Z.to_nat num_runs) 0 (of_int 0) (of_int 0) k) in
  (snd r <= @div Q exact (fst r) (of_int num_runs))%Q.
Proof.
  intros Hruns r.
  assert (Hn : (0 < inject_Z num_runs)%Q).
  { change 0%Q with (inject_Z 0). rewrite <- Zlt_Qlt. lia. }
  cbn [div exact of_int].
  apply Qle_shift_div_l; [exact Hn |].
  rewrite Qmult_comm.
  pose proof (timing_loop_best_le_total env b (Z.to_nat num_runs)
                (realize b (get_output_buffer b)) 0 (of_int 0) (of_int 0) k)
    as H.
  cbv zeta in H. rewrite Z2Nat.id, Z.add_0_l in H by lia.
  apply H; [| lia].
  left. split; [reflexivity |]. cbn. apply Qle_refl.
Qed.

(** ** Further properties of the harness *)

(** On the manual path with a CUDA target, [schedule_for_gpu] fuses [n] and
    [c], tiles the fused dimension and [x] by 32 x 32, maps the outer indices
    and [y] to GPU blocks and the inner indices to GPU threads, computes
    [producer] at [consumer]'s [nci] with automatic storage, in this order,
    then prints the target and compiles [consumer] for it. *)
Theorem manual_cuda_schedule_applied (F T : Type) (env : Env T) (b : Blur F)
        (k : nat) :
  let found := find_gpu_target env k in
  let target := result found in
  empty (scheduler b) = true ->
  Target.has_feature target Target.CUDA = true ->
  schedule_for_gpu env b k
  = (true,
     trace found
     ++ [Schedule consumer_func (fuse v_n v_c v_nc);
         Schedule consumer_func (tile v_nc v_x v_nco v_xo v_nci v_xi 32 32);
         Schedule consumer_func (gpu_blocks [v_nco; v_y]);
         Schedule consumer_func (gpu_threads [v_nci; v_xi]);
         Schedule producer_func (compute_at consumer_func v_nci);
         Schedule producer_func (store_in MemoryType_Auto);
         Print stdout "Target: %s\n" [ATarget target];
         CompileJit run_consumer target],
     k).
Proof.
  intros found target Hempty Hcuda.
  rewrite schedule_for_gpu_run. fold found. fold target.
  unfold Target.has_gpu_feature. rewrite Hcuda, Hempty. reflexivity.
Qed.

Lemma manual_cuda_schedule_applied_witness :
  let target := Target.with_feature Examples.linux_host Target.CUDA in
  schedule_for_gpu Examples.cuda_env
                   (mkBlur (@random_input Q Q exact Examples.cuda_env)
                           EmptyString) 0%nat
  = (true,
     [Schedule consumer_func (fuse v_n v_c v_nc);
      Schedule consumer_func (tile v_nc v_x v_nco v_xo v_nci v_xi 32 32);
      Schedule consumer_func (gpu_blocks [v_nco; v_y]);
      Schedule consumer_func (gpu_threads [v_nci; v_xi]);
      Schedule producer_func (compute_at consumer_func v_nci);
      Schedule producer_func (store_in MemoryType_Auto);
      Print stdout "Target: %s\n" [ATarget target];
      CompileJit run_consumer target],
     0%nat).
Proof.
  intro target.
  apply (manual_cuda_schedule_applied Q Q Examples.cuda_env
           (mkBlur (@random_input Q Q exact Examples.cuda_env) EmptyString)
           0%nat eq_refl eq_refl).
Defined.

(** On the automatic path with a GPU target, [schedule_for_gpu] gives
    [consumer] the estimate [0 .. extent] of each input dimension, calls the
    named autoscheduler for the target, compiles [auto_blur] for it and
    returns true; no manual directive is applied. *)
Theorem automatic_schedule_applied (F T : Type) (env : Env T) (b : Blur F)
        (k : nat) :
  let found := find_gpu_target env k in
  let target := result found in
  empty (scheduler b) = false ->
  Target.has_gpu_feature target = true ->
  schedule_for_gpu env b k
  = (true,
     trace found
     ++ [SetEstimates consumer_func
           [(0, dim_extent (input b) 0); (0, dim_extent (input b) 1);
            (0, dim_extent (input b) 2); (0, dim_extent (input b) 3)];
         AutoSchedule (scheduler b) target;
         CompileJit run_auto_blur target],
     k).
Proof.
  intros found target Hempty Hgpu.
  rewrite schedule_for_gpu_run. fold found. fold target.
  rewrite Hgpu, Hempty. reflexivity.
Qed.

Lemma automatic_schedule_applied_witness :
  let target := Target.with_feature Examples.linux_host Target.CUDA in
  schedule_for_gpu Examples.cuda_env
                   (mkBlur (@random_input Q Q exact Examples.cuda_env)
                           "Li2018") 0%nat
  = (true,
     [SetEstimates consumer_func [(0, 32); (0, 8); (0, 258); (0, 258)];
      AutoSchedule "Li2018" target;
      CompileJit run_auto_blur target],
     0%nat).
Proof.
  intro target.
  apply (automatic_schedule_applied Q Q Examples.cuda_env
           (mkBlur (@random_input Q Q exact Examples.cuda_env) "Li2018")
           0%nat eq_refl eq_refl).
Defined.

(** [test_performance] realizes the pipeline once untimed and then
    [num_runs] times, each timed run followed by one device synchronization
    and bracketed by two clock readings. *)
Theorem benchmark_runs (F T : Type) (FA : Arith F) (TA : Arith T)
        (env : Env T) (b : Blur F) (num_runs : Z) (k : nat) :
  let run := @test_performance F T FA TA env b num_runs k in
  List.length (filter is_realize (trace run)) = S (Z.to_nat num_runs)
  /\ List.length (filter is_device_sync (trace run)) = Z.to_nat num_runs
  /\ clock_reads run = (k + 2 * Z.to_nat num_runs)%nat.
Proof.
  intros run. subst run. split; [apply realize_test_performance |]. split.
  - rewrite test_performance_trace.
    cbn [filter is_device_sync].
    rewrite filter_app, length_app. cbn [filter is_device_sync List.length].
    rewrite Nat.add_0_r.
    induction (Z.to_nat num_runs) as [| n IH]; [reflexivity |].
    cbn [repeat List.concat iteration_events app filter is_device_sync List.length].
    now rewrite IH.
  - unfold test_performance.
    rewrite !clock_bind.
    cbn [emit run_filter ret result clock_reads fst snd].
    match goal with
    | |- context [let '(_, _) := result ?r in _] => set (loop := r)
    end.
    destruct (result loop) as [total best].
    rewrite !clock_bind. cbn [printf emit result clock_reads fst snd].
    subst loop. apply timing_loop_trace.
Qed.

(** With no timed run the loop body never executes: whatever the image,
    the machine and the clock, the best time stays 0.0 and the average is
    0.0 / 0, which in [double] arithmetic is NaN. *)
Theorem zero_runs_average_nan (F : Type) (FA : Arith F)
        (env : Env spec_float) (b : Blur F) (k : nat) :
  let tr := trace (@test_performance F spec_float FA binary64 env b 0 k) in
  reported_average tr = [S754_nan] /\ reported_best tr = [S754_zero false].
Proof.
  intros tr. subst tr.
  destruct (@test_performance_report F spec_float FA binary64 env b 0 k)
    as [Havg Hbest].
  rewrite Havg, Hbest. split; reflexivity.
Qed.

(** In exact arithmetic the blur of an image that holds [k] in every cell
    is [k] in every cell of the output, for every [k]. *)
Theorem blur_constant_in_exact_arithmetic (b : Blur Q) (out : Buffer Q)
        (k : Q) (batch channels h w : Z) :
  extents (input b) = [batch; channels; h; w] ->
  0 <= h <= INT_MAX ->
  0 <= w <= INT_MAX ->
  (forall n c x y,
      in_bounds (extents (input b)) (n, c, x, y) ->
      (@load Q exact (input b) n c x y == k)%Q) ->
  forall n c x y,
    in_bounds (extents (get_output_buffer b)) (n, c, x, y) ->
    (@load Q exact (@realize Q exact b out) n c x y == k)%Q.
Proof.
  intros Hext Hh Hw Hk n c x y Hout.
  rewrite load_realize, consumer_exact.
  unfold reference_blur. rewrite sum_0_2_unfold, !sum_0_2_unfold.
  assert (Htap : forall i j, 0 <= i <= 2 -> 0 <= j <= 2 ->
                             (@load Q exact (input b) n c (x + i) (y + j) == k)%Q).
  { intros i j Hi Hj. apply Hk.
    now apply (taps_in_bounds Q b batch channels h w). }
  rewrite !Htap by lia. field.
Qed.

Lemma blur_constant_in_exact_arithmetic_witness :
  let b := mkBlur Examples.framed_image EmptyString in
  (@load Q exact (@realize Q exact b (get_output_buffer b)) 0 0 0 0
   == 9 # 10)%Q.
Proof.
  intro b.
  apply (blur_constant_in_exact_arithmetic b (get_output_buffer b) (9 # 10)
           1 1 3 3).
  - reflexivity.
  - unfold INT_MAX. lia.
  - unfold INT_MAX. lia.
  - intros n c x y Hin. now apply framed_image_inside.
  - cbn. lia.
Defined.

(** In [float] arithmetic the blur of an image that holds an 8-bit sample
    value (an integer from 0 to 255) in every cell is that value in every
    cell of the output. *)
Theorem blur_constant_samples (b : Blur spec_float) (out : Buffer spec_float)
        (z : Z) (batch channels h w : Z) :
  0 <= z < 256 ->
  extents (input b) = [batch; channels; h; w] ->
  0 <= h <= INT_MAX ->
  0 <= w <= INT_MAX ->
  (forall n c x y,
      in_bounds (extents (input b)) (n, c, x, y) ->
      @load _ binary32 (input b) n c x y = @of_int _ binary32 z) ->
  forall n c x y,
    in_bounds (extents (get_output_buffer b)) (n, c, x, y) ->
    @load _ binary32 (@realize _ binary32 b out) n c x y
    = @of_int _ binary32 z.
Proof.
  intros Hz Hext Hh Hw Hk n c x y Hout.
  rewrite (@load_realize _ binary32).
  rewrite (consumer_constant_in_bounds _ binary32 b (@of_int _ binary32 z)
             batch channels h w n c x y Hext Hh Hw Hk Hout).
  pose proof (avg3_sample z Hz) as Havg. cbv zeta in Havg.
  now rewrite !Havg.
Qed.

Lemma blur_constant_samples_witness :
  let b := mkBlur (Examples.framed_buffer (@of_int _ binary32 255))
                  EmptyString in
  @load _ binary32 (@realize _ binary32 b (get_output_buffer b)) 0 0 0 0
  = @of_int _ binary32 255.
Proof.
  intro b.
  apply (blur_constant_samples b (get_output_buffer b) 255 1 1 3 3).
  - lia.
  - reflexivity.
  - unfold INT_MAX. lia.
  - unfold INT_MAX. lia.
  - intros n c x y Hin. now apply framed_buffer_inside.
  - cbn. lia.
Defined.

(** Evaluating [consumer] at one coordinate reads the nine cells
    [(n, c, x + i, y + j)], [i] and [j] in 0..2, of the input and no other
    cell. *)
Theorem consumer_reads_nine_cells (n c x y : Z) (p : coord) :
  In p (consumer_loads n c x y)
  <-> exists i j, 0 <= i <= 2 /\ 0 <= j <= 2 /\ p = (n, c, x + i, y + j).
Proof.
  rewrite consumer_loads_taps. split.
  - cbn [In]. intros H.
    repeat (destruct H as [<- | H];
            [first [ exists 0, 0; rewrite !Z.add_0_r; now repeat split
                   | exists 1, 0; rewrite !Z.add_0_r; split; [lia | split; [lia | reflexivity]]
                   | exists 2, 0; rewrite !Z.add_0_r; split; [lia | split; [lia | reflexivity]]
                   | exists 0, 1; rewrite !Z.add_0_r; split; [lia | split; [lia | reflexivity]]
                   | exists 1, 1; split; [lia | split; [lia | reflexivity]]
                   | exists 2, 1; split; [lia | split; [lia | reflexivity]]
                   | exists 0, 2; rewrite !Z.add_0_r; split; [lia | split; [lia | reflexivity]]
                   | exists 1, 2; split; [lia | split; [lia | reflexivity]]
                   | exists 2, 2; split; [lia | split; [lia | reflexivity]] ] |]).
    contradiction.
  - intros (i & j & Hi & Hj & ->). cbn [In].
    assert (Hi' : i = 0 \/ i = 1 \/ i = 2) by lia.
    assert (Hj' : j = 0 \/ j = 1 \/ j = 2) by lia.
    destruct Hi' as [-> | [-> | ->]], Hj' as [-> | [-> | ->]];
      rewrite ?Z.add_0_r; tauto.
Qed.

(** ** What the timing loop computes *)

Section LoopValues.
Context {F T : Type} {FA : Arith F} {TA : Arith T}.
Variable env : Env T.

(** The [i]-th measured time is the difference of readings [c + 2 i + 1]
    and [c + 2 i]. *)
Lemma elapsed_times_nth (n : nat) :
  forall (c i : nat),
    (i < n)%nat ->
    nth_error (elapsed_times env c n) i
    = Some (sub (current_time env (c + 2 * i + 1))
                (current_time env (c + 2 * i))).
Proof.
  induction n as [| n IH]; intros c i Hi; [lia |].
  destruct i as [| i]; cbn [elapsed_times nth_error].
  - now rewrite Nat.mul_0_r, Nat.add_0_r, Nat.add_1_r.
  - rewrite IH by lia.
    replace (c + 2 * S i + 1)%nat with (S (S c) + 2 * i + 1)%nat by lia.
    replace (c + 2 * S i)%nat with (S (S c) + 2 * i)%nat by lia.
    reflexivity.
Qed.

Lemma elapsed_times_length (n c : nat) :
  List.length (elapsed_times env c n) = n.
Proof.
  revert c. induction n as [| n IH]; intros c; [reflexivity |].
  cbn [elapsed_times List.length]. now rewrite IH.
Qed.

(** The total is the measured times added one after the other, in order,
    onto the starting total. *)
Lemma timing_loop_total (b : Blur F) (n : nat) :
  forall (out : Buffer F) (i : Z) (total best : T) (c : nat),
    fst (result (@timing_loop F T FA TA env b out n i total best c))
    = fold_left add (elapsed_times env c n) total.
Proof.
  induction n as [| n IH]; intros out i total best c; [reflexivity |].
  rewrite timing_loop_step. cbn [elapsed_times fold_left]. apply IH.
Qed.

(** The best time is the starting one or one of the measured times. *)
Lemma timing_loop_best_in (b : Blur F) (n : nat) :
  forall (out : Buffer F) (i : Z) (total best : T) (c : nat),
    In (snd (result (@timing_loop F T FA TA env b out n i total best c)))
       (best :: elapsed_times env c n).
Proof.
  induction n as [| n IH]; intros out i total best c; [now left |].
  rewrite timing_loop_step. cbn [elapsed_times].
  match goal with
  | |- In (snd (result (timing_loop _ _ _ _ _ _ ?best' _))) _ =>
      specialize (IH (realize b out) (i + 1)
                     (add total (sub (current_time env (S c))
                                     (current_time env c)))
                     best' (S (S c)));
      destruct IH as [IH | IH]
  end.
  - rewrite <- IH.
    destruct ((i =? 0) || ltb _ best); [right; now left | now left].
  - right. now right.
Qed.

End LoopValues.

(** *** The report in [double] arithmetic *)

Section DoubleTiming.
Context {F : Type} {FA : Arith F}.
Variable env : Env spec_float.

(** The clock's readings are finite [double]s that never decrease. *)
Hypothesis clock_valid :
  forall j, valid_binary 53 1024 (current_time env j) = true.
Hypothesis clock_finite : forall j, is_finite (current_time env j) = true.
Hypothesis clock_steady :
  forall j, SFleb (current_time env j) (current_time env (S j)) = true.

Lemma elapsed_nonnegative (c n : nat) (x : spec_float) :
  In x (@elapsed_times spec_float binary64 env c n) ->
  nonnegative x = true.
Proof.
  revert c. induction n as [| n IH]; intros c; cbn [elapsed_times In];
    [contradiction |].
  intros [<- | Hin]; [| exact (IH _ Hin)].
  cbn [sub binary64 binary_arith].
  apply SFsub_nonneg; [apply clock_finite | apply clock_finite |].
  apply (SFleb_value 53 1024); try lia;
    auto using clock_valid, clock_finite, clock_steady.
Qed.

Lemma total_nonnegative (l : list spec_float) :
  (forall x, In x l -> nonnegative x = true) ->
  forall total,
    nonnegative total = true ->
    nonnegative (fold_left (@add spec_float binary64) l total) = true.
Proof.
  induction l as [| x l IH]; intros Hl total Htotal; [exact Htotal |].
  cbn [fold_left]. apply IH.
  - intros y Hy. apply Hl. now right.
  - cbn [add binary64 binary_arith].
    apply SFadd_nonneg; [exact Htotal | apply Hl; now left].
Qed.

(** An [int] run count of at least 1 converts to a positive [double]. *)
Lemma run_count_positive (num_runs : Z) :
  1 <= num_runs <= INT_MAX ->
  exists m e, @of_int spec_float binary64 num_runs = S754_finite false m e.
Proof.
  intros Hruns. cbn [of_int binary64 binary_arith].
  apply of_int_positive; try lia.
  apply Qle_lt_trans with (inject_Z (2 ^ 31)).
  - rewrite <- Zle_Qle. unfold INT_MAX in Hruns. lia.
  - rewrite <- pow2_inject by lia. apply pow2_lt. lia.
Qed.

(** Neither reported value is negative. *)
Lemma report_nonnegative (b : Blur F) (num_runs : Z) (k : nat) :
  1 <= num_runs <= INT_MAX ->
  let r := result (@timing_loop F spec_float FA binary64 env b
                     (@realize F FA b (get_output_buffer b))
                     (Z.to_nat num_runs) 0
                     (@of_int spec_float binary64 0)
                     (@of_int spec_float binary64 0) k) in
  nonnegative (snd r) = true
  /\ nonnegative (@div spec_float binary64 (fst r)
                       (@of_int spec_float binary64 num_runs)) = true.
Proof.
  intros Hruns r. subst r. split.
  - match goal with
    | |- nonnegative (snd (result ?r)) = true =>
        match r with
        | timing_loop _ _ ?out ?n ?i ?total ?best ?c =>
            destruct (@timing_loop_best_in F spec_float FA binary64 env b n
                        out i total best c) as [H | H]
        end
    end.
    + rewrite <- H. reflexivity.
    + exact (elapsed_nonnegative _ _ _ H).
  - rewrite timing_loop_total.
    destruct (run_count_positive num_runs Hruns) as (m & e & ->).
    cbn [div binary64 binary_arith].
    apply SFdiv_nonneg; try lia.
    apply total_nonnegative; [| reflexivity].
    intros x. apply elapsed_nonnegative.
Qed.

End DoubleTiming.

(** On the example clock each of the three runs takes exactly [t_run]. *)
Lemma steady_clock_runs :
  let elapsed i :=
    SFsub 53 1024 (Examples.steady_clock (2 * i + 1))
          (Examples.steady_clock (2 * i)) in
  map elapsed [0; 1; 2]%nat
  = [Examples.t_run; Examples.t_run; Examples.t_run].
Proof. vm_compute. reflexivity. Qed.

(** On the clock that runs backwards the one run takes -2 milliseconds. *)
Lemma backwards_clock_run :
  SFsub 53 1024 (Examples.backwards_clock 1) (Examples.backwards_clock 0)
  = Examples.d_minus_2
  /\ SFltb Examples.d_minus_2 (S754_zero false) = true.
Proof. split; vm_compute; reflexivity. Qed.

(** C5 (as the code has it). In [double] arithmetic, for a run count of at
    least 1 and a clock whose readings are finite [double]s that never
    decrease, neither the best time nor the average [test_performance] reports
    is negative.  In exact arithmetic, for a run count of at least 1, the best
    time reported is at most the average reported. *)
Theorem best_le_average :
  (forall (F : Type) (FA : Arith F) (env : Env spec_float) (b : Blur F)
          (num_runs : Z) (k : nat),
      1 <= num_runs <= INT_MAX ->
      (forall j, valid_binary 53 1024 (current_time env j) = true) ->
      (forall j, is_finite (current_time env j) = true) ->
      (forall j, SFleb (current_time env j) (current_time env (S j)) = true) ->
      exists average best : spec_float,
        let tr := trace (@test_performance F spec_float FA binary64 env b
                           num_runs k) in
        reported_average tr = [average]
        /\ reported_best tr = [best]
        /\ SFleb (S754_zero false) best = true
        /\ SFleb (S754_zero false) average = true)
  /\
  (forall (F : Type) (FA : Arith F) (env : Env Q) (b : Blur F)
          (num_runs : Z) (k : nat),
      1 <= num_runs ->
      exists average best : Q,
        let tr := trace (@test_performance F Q FA exact env b num_runs k) in
        reported_average tr = [average]
        /\ reported_best tr = [best]
        /\ (best <= average)%Q).
Proof.
  split.
  - intros F FA env b num_runs k Hruns Hvalid Hfinite Hsteady.
    destruct (@test_performance_report F spec_float FA binary64 env b
                num_runs k) as [Havg Hbest].
    destruct (@report_nonnegative F FA env Hvalid Hfinite Hsteady b num_runs k
                Hruns) as [Hb Ha].
    eexists. eexists. cbv zeta.
    split; [exact Havg |]. split; [exact Hbest |].
    split; [exact Hb | exact Ha].
  - intros F FA env b num_runs k Hruns.
    destruct (@test_performance_report F Q FA exact env b num_runs k)
      as [Havg Hbest].
    eexists. eexists. cbv zeta.
    split; [exact Havg |]. split; [exact Hbest |].
    exact (best_le_average_any_clock F FA env b num_runs k Hruns).
Qed.

Lemma best_le_average_witness :
  (exists average best : spec_float,
      let tr := trace (@test_performance _ _ binary32 binary64
                         Examples.rounding_env
                         (mkBlur (constant_buffer Examples.small_extents
                                    Examples.f32_1) EmptyString)
                         3 0%nat) in
      reported_average tr = [average]
      /\ reported_best tr = [best]
      /\ SFleb (S754_zero false) best = true
      /\ SFleb (S754_zero false) average = true)
  /\
  (exists average best : Q,
      let tr := trace (@test_performance Q Q exact exact Examples.cuda_env
                         (mkBlur (@random_input Q Q exact Examples.cuda_env)
                                 EmptyString) 100 0%nat) in
      reported_average tr = [average]
      /\ reported_best tr = [best]
      /\ (best <= average)%Q).
Proof.
  split.
  - apply (proj1 best_le_average spec_float binary32 Examples.rounding_env
             (mkBlur (constant_buffer Examples.small_extents Examples.f32_1)
                     EmptyString) 3 0%nat).
    + unfold INT_MAX. lia.
    + intros j. do 5 (destruct j as [| j]; [vm_compute; reflexivity |]).
      vm_compute. reflexivity.
    + intros j. do 5 (destruct j as [| j]; [vm_compute; reflexivity |]).
      vm_compute. reflexivity.
    + intros j. do 5 (destruct j as [| j]; [vm_compute; reflexivity |]).
      vm_compute. reflexivity.
  - apply (proj2 best_le_average Q exact Examples.cuda_env
             (mkBlur (@random_input Q Q exact Examples.cuda_env) EmptyString)
             100 0%nat).
    lia.
Defined.

(** C5 as stated fails in [double] arithmetic.  Three runs take the same
    time [t] = 6757876420850798 * 2^-52 ms (just above 1.50055) on a clock
    whose readings are finite [double]s that never decrease.  The total
    [t + t + t] is a tie between two [double]s and rounds down to
    [3 * t - 2 * 2^-52]; a third of that rounds to [t - 2^-52].  The average
    handed to [printf] is below the best time, and the program prints the
    average as 1.5005 and the best as 1.5006.  On a clock that runs backwards,
    from 2.0 to 0.0, the one run reports -2.0 for both; on a clock stuck at
    infinity both are NaN. *)
Lemma best_le_average_counterexample :
  let b := mkBlur (constant_buffer Examples.small_extents Examples.f32_1)
                  EmptyString in
  let tr := trace (@test_performance _ _ binary32 binary64
                     Examples.rounding_env b 3 0%nat) in
  let tr_back := trace (@test_performance _ _ binary32 binary64
                          Examples.backwards_env b 1 0%nat) in
  let tr_stuck := trace (@test_performance _ _ binary32 binary64
                           Examples.stuck_env b 1 0%nat) in
  ((forall j, valid_binary 53 1024 (Examples.steady_clock j) = true)
   /\ (forall j, is_finite (Examples.steady_clock j) = true)
   /\ (forall j, SFleb (Examples.steady_clock j) (Examples.steady_clock (S j))
                 = true)
   /\ reported_best tr = [Examples.t_run]
   /\ reported_average tr = [Examples.t_run_below]
   /\ SFltb Examples.t_run_below Examples.t_run = true
   /\ SFleb Examples.t_run Examples.t_run_below = false
   /\ ten_thousandths Examples.t_run = Some 15006
   /\ ten_thousandths Examples.t_run_below = Some 15005)
  /\
  ((forall j, valid_binary 53 1024 (Examples.backwards_clock j) = true)
   /\ (forall j, is_finite (Examples.backwards_clock j) = true)
   /\ SFleb (Examples.backwards_clock 0) (Examples.backwards_clock 1) = false
   /\ reported_best tr_back = [Examples.d_minus_2]
   /\ reported_average tr_back = [Examples.d_minus_2]
   /\ SFleb (S754_zero false) Examples.d_minus_2 = false)
  /\
  ((forall j, valid_binary 53 1024 (Examples.stuck_clock j) = true)
   /\ (forall j, SFleb (Examples.stuck_clock j) (Examples.stuck_clock (S j))
                 = true)
   /\ is_finite (Examples.stuck_clock 0) = false
   /\ reported_best tr_stuck = [S754_nan]
   /\ reported_average tr_stuck = [S754_nan]
   /\ SFleb (S754_zero false) S754_nan = false).
Proof.
  intros b tr tr_back tr_stuck. split; [| split].
  - split; [| split; [| split; [| repeat split; vm_compute; reflexivity]]];
      intros j;
      do 5 (destruct j as [| j]; [vm_compute; reflexivity |]);
      vm_compute; reflexivity.
  - split; [| split; [| repeat split; vm_compute; reflexivity]];
      intros j; destruct j as [| j]; vm_compute; reflexivity.
  - split; [| split; [| repeat split; vm_compute; reflexivity]];
      intros j; vm_compute; reflexivity.
Qed.

(** *** How far the average can fall below the best time *)

(** One turn of the loop, from below: the total after [I + 1] turns against
    [I + 1] times the best time. *)
Lemma total_lower_step (I b b' e T T' u eta : Q) :
  (0 <= u <= 1 -> 0 <= eta -> 0 <= I -> I * u <= 1 ->
   0 <= b' -> b' <= e -> 0 <= T ->
   (I == 0 \/ (b' <= b /\ I * b * (1 - I * u) - I * eta <= T)) ->
   (T + e) - (u * (T + e) + eta) <= T' ->
   (I + 1) * b' * (1 - (I + 1) * u) - (I + 1) * eta <= T')%Q.
Proof.
  intros Hu Heta HI HIu Hb' He HT Hinv HT'.
  assert (HIu' : (0 <= I * (1 - I * u))%Q)
    by (apply Qmult_le_0_compat; lra).
  assert (Hlow : (I * b' * (1 - I * u) - I * eta <= T)%Q).
  { destruct Hinv as [H0 | [Hb Hinv]].
    - rewrite H0. lra.
    - assert (H : (0 <= (b - b') * (I * (1 - I * u)))%Q)
        by (apply Qmult_le_0_compat; lra).
      lra. }
  assert (H1 : (0 <= (T + e - (I * b' * (1 - I * u) - I * eta + b')) * (1 - u))%Q)
    by (apply Qmult_le_0_compat; lra).
  assert (H2 : (0 <= b' * (I * u))%Q).
  { apply Qmult_le_0_compat; [lra |]. apply Qmult_le_0_compat; lra. }
  assert (H3 : (0 <= b' * ((I * u) * (I * u)))%Q).
  { apply Qmult_le_0_compat; [lra |].
    apply Qmult_le_0_compat; apply Qmult_le_0_compat; lra. }
  assert (H4 : (0 <= I * eta * u)%Q).
  { apply Qmult_le_0_compat; [| lra]. apply Qmult_le_0_compat; lra. }
  lra.
Qed.

(** One turn of the loop, from above. *)
Lemma total_upper_step (I e T T' u eta E : Q) :
  (0 <= u -> 2 * I * u + u <= 1 -> 0 <= eta -> 0 <= I ->
   0 <= e <= E -> 0 <= T <= 2 * I * (E + eta) ->
   T' <= (T + e) + (u * (T + e) + eta) ->
   T' <= 2 * (I + 1) * (E + eta))%Q.
Proof.
  intros Hu HIu Heta HI He HT HT'.
  assert (H1 : (0 <= u * (2 * I * (E + eta) + E - (T + e)))%Q)
    by (apply Qmult_le_0_compat; lra).
  assert (H2 : (0 <= (E + eta) * (1 - (2 * I * u + u)))%Q)
    by (apply Qmult_le_0_compat; lra).
  assert (H3 : (0 <= u * eta)%Q) by (apply Qmult_le_0_compat; lra).
  lra.
Qed.

(** The rounded average against the best time. *)
Lemma average_lower (N b T q A u eta : Q) :
  (0 <= u <= 1 -> 0 <= eta -> 0 < N -> 0 <= b ->
   N * b * (1 - N * u) - N * eta <= T ->
   q * N == T ->
   q - (u * q + eta) <= A ->
   b * (1 - (N + 1) * u) - 2 * eta <= A)%Q.
Proof.
  intros Hu Heta HN Hb HT Hq HA.
  assert (H1 : (b * (1 - N * u) - eta <= q)%Q).
  { apply Qnot_lt_le. intros Hlt.
    assert (H : (0 < (b * (1 - N * u) - eta - q) * N)%Q)
      by (apply Qmult_lt_0_compat; lra).
    lra. }
  assert (H2 : (0 <= (q - (b * (1 - N * u) - eta)) * (1 - u))%Q)
    by (apply Qmult_le_0_compat; lra).
  assert (H3 : (0 <= b * (N * (u * u)))%Q).
  { apply Qmult_le_0_compat; [lra |]. apply Qmult_le_0_compat; [lra |].
    apply Qmult_le_0_compat; lra. }
  assert (H4 : (0 <= eta * u)%Q) by (apply Qmult_le_0_compat; lra).
  lra.
Qed.

(** The constants of the [double] format. *)
Lemma binary64_constants :
  (pow2 (- 53) == 1 # 9007199254740992)%Q
  /\ emin 53 1024 - 1 = - 1075
  /\ (pow2 900 == (1 # 4) * pow2 902)%Q
  /\ (pow2 (1024 - 1) == inject_Z (2 ^ 121) * pow2 902)%Q
  /\ (4 <= pow2 902)%Q
  /\ (0 < pow2 (- 1075) <= 1)%Q.
Proof.
  split; [reflexivity |]. split; [reflexivity |].
  split; [rewrite (pow2_add (- 2) 902); reflexivity |].
  split; [change (1024 - 1) with (121 + 902); rewrite (pow2_add 121 902),
          (pow2_inject 121) by lia; reflexivity |].
  split; [change 4%Q with (pow2 2); apply pow2_le; lia |].
  split; [apply pow2_pos | change 1%Q with (pow2 0); apply pow2_le; lia].
Qed.

Section DoubleAverage.
Context {F : Type} {FA : Arith F}.
Variable env : Env spec_float.

Hypothesis clock_valid :
  forall j, valid_binary 53 1024 (current_time env j) = true.
Hypothesis clock_finite : forall j, is_finite (current_time env j) = true.
Hypothesis clock_steady :
  forall j, SFleb (current_time env j) (current_time env (S j)) = true.
Hypothesis clock_bounded :
  forall j, (Qabs (float_value (current_time env j)) <= pow2 900)%Q.

(** A measured time is a finite [double] between 0 and 2^902. *)
Lemma elapsed_double (j : nat) :
  let e := SFsub 53 1024 (current_time env (S j)) (current_time env j) in
  valid_binary 53 1024 e = true
  /\ is_finite e = true
  /\ nonnegative e = true
  /\ (float_value e <= pow2 902)%Q.
Proof.
  intros e.
  destruct binary64_constants as (Hu & Hemin & H900 & H1023 & HE & Heta).
  pose proof (clock_bounded j) as B1. pose proof (clock_bounded (S j)) as B2.
  apply Qabs_Qle_condition in B1, B2.
  pose proof (SFleb_value 53 1024 _ _ (clock_valid j) (clock_valid (S j))
                (clock_finite j) (clock_finite (S j)) (clock_steady j)) as Hle.
  set (t1 := float_value (current_time env j)) in *.
  set (t2 := float_value (current_time env (S j))) in *.
  set (E := pow2 902) in *. set (eta := pow2 (- 1075)) in *.
  assert (HK : (1 <= inject_Z (2 ^ 121))%Q).
  { change 1%Q with (inject_Z 1). rewrite <- Zle_Qle. lia. }
  assert (Hz : (Qabs (t2 - t1) <= (1 # 2) * E)%Q).
  { apply Qabs_Qle_condition. rewrite H900 in B1, B2. lra. }
  assert (Hover : (Qabs (t2 - t1) < pow2 (1024 - 1))%Q).
  { eapply Qle_lt_trans; [exact Hz |]. rewrite H1023. fold E.
    assert (0 <= (inject_Z (2 ^ 121) - 1) * E)%Q
      by (apply Qmult_le_0_compat; lra).
    lra. }
  split; [| split; [| split]].
  - apply SFsub_valid; try lia; auto.
  - now apply (SFsub_rounds 53 1024 ltac:(lia) ltac:(lia)).
  - apply SFsub_nonneg; auto.
  - pose proof (SFsub_rounds 53 1024 ltac:(lia) ltac:(lia) _ _
                  (clock_finite (S j)) (clock_finite j) Hover) as R.
    apply (rounds_to_interval 53 1024 _ ((1 # 2) * E)%Q) in R; [| exact Hz].
    rewrite Hemin, Hu in R. fold eta t1 t2 in R. destruct R as [_ R].
    fold e in R. rewrite H900 in B1, B2. lra.
Qed.

(** The timing loop in [double] arithmetic: the total stays finite, and
    after [i] turns it is at least [i] times the best time but for the
    roundings of [i] additions. *)
Lemma timing_loop_double (b : Blur F) (n : nat) :
  forall (out : Buffer F) (i : Z) (total best : spec_float) (c : nat),
    0 <= i -> i + Z.of_nat n <= 2 ^ 31 ->
    is_finite total = true ->
    nonnegative total = true ->
    (float_value total <= 2 * inject_Z i * (pow2 902 + pow2 (- 1075)))%Q ->
    (i = 0
     \/ (valid_binary 53 1024 best = true /\ is_finite best = true
         /\ (0 <= float_value best)%Q
         /\ (inject_Z i * float_value best * (1 - inject_Z i * pow2 (- 53))
             - inject_Z i * pow2 (- 1075) <= float_value total)%Q)) ->
    let r := result (@timing_loop F spec_float FA binary64 env b out n i
                       total best c) in
    let N := inject_Z (i + Z.of_nat n) in
    is_finite (fst r) = true
    /\ nonnegative (fst r) = true
    /\ (float_value (fst r) <= 2 * N * (pow2 902 + pow2 (- 1075)))%Q
    /\ (0 < i + Z.of_nat n ->
        is_finite (snd r) = true
        /\ (0 <= float_value (snd r))%Q
        /\ (N * float_value (snd r) * (1 - N * pow2 (- 53))
            - N * pow2 (- 1075) <= float_value (fst r))%Q).
Proof.
  destruct binary64_constants as (Hu & Hemin & H900 & H1023 & HE & Heta).
  induction n as [| n IH]; intros out i total best c Hi Hn Ft Nt Ut Inv r N.
  - subst r N. cbn [timing_loop ret result fst snd Z.of_nat].
    rewrite Z.add_0_r. split; [exact Ft |]. split; [exact Nt |].
    split; [exact Ut |]. intros Hpos.
    destruct Inv as [-> | (_ & Fb & Hb & Hlow)]; [lia |].
    split; [exact Fb |]. split; [exact Hb | exact Hlow].
  - subst r N. rewrite timing_loop_step.
    replace (i + Z.of_nat (S n)) with ((i + 1) + Z.of_nat n) by lia.
    destruct (elapsed_double c) as (Ve & Fe & Ne & HeE). cbv zeta in *.
    set (e := SFsub 53 1024 (current_time env (S c)) (current_time env c)) in *.
    change (@sub spec_float binary64 (current_time env (S c))
                 (current_time env c)) with e.
    cbn [add ltb binary64 binary_arith].
    pose proof (float_value_nonneg total Nt) as HT0.
    pose proof (float_value_nonneg e Ne) as He0.
    set (T := float_value total) in *. set (fe := float_value e) in *.
    set (E := pow2 902) in *. set (eta := pow2 (- 1075)) in *.
    assert (HI0 : (0 <= inject_Z i)%Q) by (apply inject_Z_nonneg; lia).
    assert (HI31 : (inject_Z i <= inject_Z (2 ^ 31))%Q)
      by (rewrite <- Zle_Qle; lia).
    change (inject_Z (2 ^ 31)) with (2147483648 # 1)%Q in HI31.
    set (I := inject_Z i) in *.
    assert (HIE : (0 <= (2147483648 - I) * (E + eta))%Q)
      by (apply Qmult_le_0_compat; lra).
    assert (Hz : (Qabs (T + fe) <= T + fe)%Q)
      by (rewrite Qabs_pos; lra).
    assert (Hover : (Qabs (float_value total + float_value e)
                     < pow2 (1024 - 1))%Q).
    { fold T fe. eapply Qle_lt_trans; [exact Hz |]. rewrite H1023. fold E.
      change (inject_Z (2 ^ 121))
        with (2658455991569831745807614120560689152 # 1)%Q.
      lra. }
    pose proof (SFadd_rounds 53 1024 ltac:(lia) ltac:(lia) total e Ft Fe Hover)
      as R.
    apply (rounds_to_interval 53 1024 _ (T + fe)%Q) in R; [| exact Hz].
    rewrite Hemin in R. change (pow2 (Z.opp 53)) with (pow2 (- 53)) in R.
    fold eta T fe in R. destruct R as [Ft' R].
    pose proof (SFadd_nonneg 53 1024 total e Nt Ne) as Nt'.
    set (total' := SFadd 53 1024 total e) in *.
    set (T' := float_value total') in *.
    set (u := pow2 (- 53)) in *.
    assert (Hu01 : (0 <= u <= 1)%Q) by (rewrite Hu; lra).
    assert (HIu : (I * u <= 1)%Q) by (rewrite Hu; lra).
    assert (HIu2 : (2 * I * u + u <= 1)%Q) by (rewrite Hu; lra).
    assert (HI1 : inject_Z (i + 1) = (I + 1)%Q)
      by (unfold I; rewrite inject_Z_plus; reflexivity).
    set (best' := if (i =? 0) || SFltb e best then e else best).
    assert (Hbest' :
              valid_binary 53 1024 best' = true /\ is_finite best' = true
              /\ (0 <= float_value best' <= fe)%Q
              /\ (I == 0
                  \/ (float_value best' <= float_value best
                      /\ I * float_value best * (1 - I * u) - I * eta <= T))%Q).
    { subst best'. destruct (Z.eqb_spec i 0) as [Hi0 | Hi0]; cbn [orb].
      - fold fe. repeat split; try assumption; try lra.
        left. unfold I. now rewrite Hi0.
      - destruct Inv as [-> | (Vb & Fb & Hb & Hlow)]; [contradiction |].
        destruct (SFltb_value 53 1024 e best Ve Vb Fe Fb) as [Hlt Hge].
        destruct (SFltb e best) eqn:Hc.
        + fold fe. repeat split; try assumption; try lra.
          right. split; [now apply Hlt | exact Hlow].
        + specialize (Hge eq_refl). fold fe in Hge.
          repeat split; try assumption; lra. }
    destruct Hbest' as (Vb' & Fb' & [Hb0 Hbe] & Hprev).
    apply IH; try assumption; try lia; rewrite HI1.
    + fold T'. apply (total_upper_step I fe T T' u eta E); lra.
    + right. split; [exact Vb' |]. split; [exact Fb' |]. split; [exact Hb0 |].
      fold T'.
      apply (total_lower_step I (float_value best) (float_value best') fe T T'
                              u eta); first [lra | exact Hprev].
Qed.

(** The report: the average is at least the best time but for the
    roundings of [num_runs] additions and one division. *)
Lemma report_double (b : Blur F) (num_runs : Z) (k : nat) :
  1 <= num_runs <= INT_MAX ->
  let r := result (@timing_loop F spec_float FA binary64 env b
                     (@realize F FA b (get_output_buffer b))
                     (Z.to_nat num_runs) 0
                     (@of_int spec_float binary64 0)
                     (@of_int spec_float binary64 0) k) in
  let average := @div spec_float binary64 (fst r)
                      (@of_int spec_float binary64 num_runs) in
  is_finite (snd r) = true
  /\ is_finite average = true
  /\ (float_value (snd r) * (1 - inject_Z (num_runs + 1) * pow2 (- 53))
      - 2 * pow2 (- 1075) <= float_value average)%Q.
Proof.
  intros Hruns r average.
  destruct binary64_constants as (Hu & Hemin & H900 & H1023 & HE & Heta).
  assert (Hmax : num_runs <= 2 ^ 31) by (unfold INT_MAX in Hruns; lia).
  destruct (timing_loop_double b (Z.to_nat num_runs)
              (@realize F FA b (get_output_buffer b)) 0
              (@of_int spec_float binary64 0) (@of_int spec_float binary64 0) k)
    as (Ft & Nt & Ut & Hbest);
    try reflexivity; try lia; try (now left).
  { cbn [of_int binary64 binary_arith binary_normalize float_value].
    change (inject_Z 0) with 0%Q. lra. }
  fold r in Ft, Nt, Ut, Hbest.
  rewrite Z.add_0_l, Z2Nat.id in Ut, Hbest by lia.
  destruct (Hbest ltac:(lia)) as (Fb & Hb0 & Hlow). clear Hbest.
  split; [exact Fb |].
  destruct (of_int_exact 53 1024 ltac:(lia) ltac:(lia) num_runs)
    as (m & e & Hof & Hval).
  { split; [lia |]. apply Z.le_lt_trans with (2 ^ 31); [exact Hmax |].
    apply Z.pow_lt_mono_r; lia. }
  subst average. cbn [div of_int binary64 binary_arith]. rewrite Hof.
  pose proof (float_value_nonneg _ Nt) as HT0.
  set (T := float_value (fst r)) in *. set (bv := float_value (snd r)) in *.
  set (E := pow2 902) in *. set (eta := pow2 (- 1075)) in *.
  set (N := inject_Z num_runs) in *.
  assert (HN1 : (1 <= N)%Q).
  { unfold N. change 1%Q with (inject_Z 1). rewrite <- Zle_Qle. lia. }
  assert (HN31 : (N <= 2147483648)%Q).
  { unfold N. change (2147483648 # 1)%Q with (inject_Z (2 ^ 31)).
    rewrite <- Zle_Qle. lia. }
  set (q := (T / N)%Q).
  assert (Hq : (q * N == T)%Q) by (unfold q; field; lra).
  assert (Hq0 : (0 <= q)%Q).
  { apply Qnot_lt_le. intros Hlt.
    assert (0 < (- q) * N)%Q by (apply Qmult_lt_0_compat; lra). lra. }
  assert (HqT : (q <= T)%Q).
  { assert (0 <= q * (N - 1))%Q by (apply Qmult_le_0_compat; lra). lra. }
  assert (Hquot : (T / float_value (S754_finite false m e) == q)%Q).
  { unfold q. rewrite Hval. reflexivity. }
  assert (Hz : (Qabs q <= q)%Q) by (rewrite Qabs_pos; lra).
  assert (HIE : (0 <= (2147483648 - N) * (E + eta))%Q)
    by (apply Qmult_le_0_compat; lra).
  assert (Hover : (Qabs (float_value (fst r)
                         / float_value (S754_finite false m e))
                   < pow2 (1024 - 1))%Q).
  { fold T. rewrite Hquot. eapply Qle_lt_trans; [exact Hz |].
    rewrite H1023. fold E.
    change (inject_Z (2 ^ 121))
      with (2658455991569831745807614120560689152 # 1)%Q.
    lra. }
  pose proof (SFdiv_rounds 53 1024 ltac:(lia) ltac:(lia) (fst r) false m e
                Ft Hover) as R.
  cbv zeta in R. fold T in R.
  apply (rounds_to_ext 53 1024 _ _ _ Hquot) in R.
  apply (rounds_to_interval 53 1024 _ q) in R; [| exact Hz].
  rewrite Hemin in R. change (pow2 (Z.opp 53)) with (pow2 (- 53)) in R.
  fold eta in R. destruct R as [Fa R].
  split; [exact Fa |].
  set (u := pow2 (- 53)) in *.
  assert (Hu01 : (0 <= u <= 1)%Q) by (rewrite Hu; lra).
  assert (HN1' : inject_Z (num_runs + 1) = (N + 1)%Q)
    by (unfold N; rewrite inject_Z_plus; reflexivity).
  rewrite HN1'.
  apply (average_lower N bv T q _ u eta); try lra.
Qed.

End DoubleAverage.

(** In [double] arithmetic, for a run count of at least 1 and a clock whose
    readings are finite [double]s of magnitude at most 2^900 that never
    decrease, the best time and the average [test_performance] reports are
    finite, and the average is at least the best time but for the roundings of
    the additions and of the division:
    [best * (1 - (num_runs + 1) * 2^-53) - 2 * 2^-1075 <= average]. *)
Theorem average_not_far_below_best (F : Type) (FA : Arith F)
        (env : Env spec_float) (b : Blur F) (num_runs : Z) (k : nat) :
  1 <= num_runs <= INT_MAX ->
  (forall j, valid_binary 53 1024 (current_time env j) = true) ->
  (forall j, is_finite (current_time env j) = true) ->
  (forall j, SFleb (current_time env j) (current_time env (S j)) = true) ->
  (forall j, (Qabs (float_value (current_time env j)) <= pow2 900)%Q) ->
  exists average best : spec_float,
    let tr := trace (@test_performance F spec_float FA binary64 env b
                       num_runs k) in
    reported_average tr = [average]
    /\ reported_best tr = [best]
    /\ is_finite average = true
    /\ is_finite best = true
    /\ (float_value best * (1 - inject_Z (num_runs + 1) * pow2 (- 53))
        - 2 * pow2 (- 1075) <= float_value average)%Q.
Proof.
  intros Hruns Hvalid Hfinite Hsteady Hbounded.
  destruct (@test_performance_report F spec_float FA binary64 env b
              num_runs k) as [Havg Hbest].
  destruct (@report_double F FA env Hvalid Hfinite Hsteady Hbounded b
              num_runs k Hruns) as (Fb & Fa & Hle).
  eexists. eexists. cbv zeta.
  split; [exact Havg |]. split; [exact Hbest |].
  split; [exact Fa |]. split; [exact Fb | exact Hle].
Qed.

Lemma average_not_far_below_best_witness :
  exists average best : spec_float,
    let tr := trace (@test_performance _ _ binary32 binary64
                       Examples.rounding_env
                       (mkBlur (constant_buffer Examples.small_extents
                                  Examples.f32_1) EmptyString)
                       3 0%nat) in
    reported_average tr = [average]
    /\ reported_best tr = [best]
    /\ is_finite average = true
    /\ is_finite best = true
    /\ (float_value best * (1 - inject_Z (3 + 1) * pow2 (- 53))
        - 2 * pow2 (- 1075) <= float_value average)%Q.
Proof.
  apply (average_not_far_below_best spec_float binary32 Examples.rounding_env
           (mkBlur (constant_buffer Examples.small_extents Examples.f32_1)
                   EmptyString) 3 0%nat).
  - unfold INT_MAX. lia.
  - intros j. do 5 (destruct j as [| j]; [vm_compute; reflexivity |]).
    vm_compute. reflexivity.
  - intros j. do 5 (destruct j as [| j]; [vm_compute; reflexivity |]).
    vm_compute. reflexivity.
  - intros j. do 5 (destruct j as [| j]; [vm_compute; reflexivity |]).
    vm_compute. reflexivity.
  - intros j. do 5 (destruct j as [| j]; [vm_compute; discriminate |]).
    vm_compute. discriminate.
Defined.


(** The average [test_performance] reports is the measured times added left
    to right onto 0.0, divided by the run count converted to [double], with
    every operation rounded as the arithmetic rounds; the [i]-th measured time
    is the difference of clock readings [2 i + 1] and [2 i] of the loop. *)
Theorem reported_average_is_mean (F T : Type) (FA : Arith F) (TA : Arith T)
        (env : Env T) (b : Blur F) (num_runs : Z) (k : nat) :
  let times := elapsed_times env k (Z.to_nat num_runs) in
  reported_average (trace (@test_performance F T FA TA env b num_runs k))
  = [div (fold_left add times (of_int 0)) (of_int num_runs)]
  /\ List.length times = Z.to_nat num_runs
  /\ forall i, (i < Z.to_nat num_runs)%nat ->
               nth_error times i
               = Some (sub (current_time env (k + 2 * i + 1))
                           (current_time env (k + 2 * i))).
Proof.
  intros times. split; [| split].
  - destruct (@test_performance_report F T FA TA env b num_runs k) as [Havg _].
    rewrite Havg. now rewrite timing_loop_total.
  - apply elapsed_times_length.
  - intros i Hi. now apply elapsed_times_nth.
Qed.

(** With at least one run the best time [test_performance] reports is one
    of the measured times, in any arithmetic: it is never a rounded or
    combined value. *)
Theorem reported_best_is_measured (F T : Type) (FA : Arith F) (TA : Arith T)
        (env : Env T) (b : Blur F) (num_runs : Z) (k : nat) :
  1 <= num_runs ->
  exists best,
    reported_best (trace (@test_performance F T FA TA env b num_runs k))
    = [best]
    /\ In best (elapsed_times env k (Z.to_nat num_runs)).
Proof.
  intros Hruns.
  destruct (@test_performance_report F T FA TA env b num_runs k) as [_ Hbest].
  eexists. split; [exact Hbest |].
  destruct (Z.to_nat num_runs) as [| n] eqn:Hn; [lia |].
  rewrite timing_loop_step. cbn [Z.eqb orb elapsed_times].
  match goal with
  | |- In (snd (result ?r)) _ =>
      match r with
      | timing_loop _ _ ?out _ ?i ?total ?best ?c =>
          destruct (@timing_loop_best_in F T FA TA env b n out i total best c)
            as [H | H]
      end
  end.
  - left. exact H.
  - right. exact H.
Qed.

Lemma reported_best_is_measured_witness :
  exists best,
    reported_best
      (trace (@test_performance _ _ binary32 binary64 Examples.rounding_env
                (mkBlur (constant_buffer Examples.small_extents Examples.f32_1)
                        EmptyString) 3 0%nat))
    = [best]
    /\ In best (elapsed_times (H := binary64) Examples.rounding_env 0 3).
Proof.
  apply (reported_best_is_measured _ _ binary32 binary64 Examples.rounding_env
           (mkBlur (constant_buffer Examples.small_extents Examples.f32_1)
                   EmptyString) 3 0%nat).
  lia.
Defined.

Section ExactBest.
Context {F : Type} {FA : Arith F}.
Variable env : Env Q.

Local Open Scope Q_scope.

(** In exact arithmetic the best time is at most every measured time, and
    at most the starting one unless the loop is at its first turn. *)
Lemma timing_loop_best_le (b : Blur F) (n : nat) :
  forall (out : Buffer F) (i : Z) (total best : Q) (c : nat),
    (0 <= i)%Z ->
    let r := snd (result (@timing_loop F Q FA exact env b out n i total best c)) in
    Forall (fun e => r <= e) (@elapsed_times Q exact env c n)
    /\ (i <> 0%Z -> r <= best).
Proof.
  induction n as [| n IH]; intros out i total best c Hi r.
  - subst r. cbn. split; [constructor | intros _; apply Qle_refl].
  - subst r. rewrite timing_loop_step. cbn [elapsed_times].
    set (e0 := @sub Q exact (current_time env (S c)) (current_time env c)).
    set (best' := if (i =? 0)%Z || @ltb Q exact e0 best then e0 else best).
    destruct (IH (realize b out) (i + 1)%Z (@add Q exact total e0) best'
                 (S (S c))) as [Hall Hbest']; [lia |].
    cbv zeta in Hall, Hbest'.
    specialize (Hbest' ltac:(lia)).
    assert (He0 : best' <= e0 /\ (i <> 0%Z -> best' <= best)).
    { subst best'. destruct (Z.eqb_spec i 0) as [-> | Hne]; cbn [orb].
      - split; [apply Qle_refl | intros H; now contradiction H].
      - destruct (@ltb Q exact e0 best) eqn:Hlt.
        + apply ltb_exact in Hlt. split; [apply Qle_refl | intros _; lra].
        + apply ltb_exact_false in Hlt. split; [exact Hlt | intros _; lra]. }
    destruct He0 as [He0 Hb]. split.
    + constructor; [lra | exact Hall].
    + intros Hne. specialize (Hb Hne). lra.
Qed.

End ExactBest.

(** In exact arithmetic, with at least one run, the best time
    [test_performance] reports is the minimum of the measured times: it is one
    of them and none is smaller. *)
Theorem reported_best_is_minimum (F : Type) (FA : Arith F) (env : Env Q)
        (b : Blur F) (num_runs : Z) (k : nat) :
  1 <= num_runs ->
  exists best : Q,
    let times := @elapsed_times Q exact env k (Z.to_nat num_runs) in
    reported_best (trace (@test_performance F Q FA exact env b num_runs k))
    = [best]
    /\ In best times
    /\ Forall (fun e => best <= e)%Q times.
Proof.
  intros Hruns.
  destruct (@test_performance_report F Q FA exact env b num_runs k)
    as [_ Hbest].
  eexists. cbv zeta. split; [exact Hbest |]. split.
  - destruct (Z.to_nat num_runs) as [| n] eqn:Hn; [lia |].
    rewrite timing_loop_step. cbn [Z.eqb orb elapsed_times].
    match goal with
    | |- In (snd (result ?r)) _ =>
        match r with
        | timing_loop _ _ ?out _ ?i ?total ?best ?c =>
            destruct (@timing_loop_best_in F Q FA exact env b n out i total
                        best c) as [H | H]
        end
    end.
    + left. exact H.
    + right. exact H.
  - apply (timing_loop_best_le env b (Z.to_nat num_runs)). lia.
Qed.

Lemma reported_best_is_minimum_witness :
  exists best : Q,
    let times := @elapsed_times Q exact Examples.cuda_env 0 (Z.to_nat 100) in
    reported_best
      (trace (@test_performance Q Q exact exact Examples.cuda_env
                (mkBlur (@random_input Q Q exact Examples.cuda_env)
                        EmptyString) 100 0%nat))
    = [best]
    /\ In best times
    /\ Forall (fun e => best <= e)%Q times.
Proof.
  apply (reported_best_is_minimum Q exact Examples.cuda_env
           (mkBlur (@random_input Q Q exact Examples.cuda_env) EmptyString)
           100 0%nat).
  lia.
Defined.

(** ** Further properties of the stage graph *)

(** The blur commutes with translation, in any arithmetic: blurring an image
    shifted by [(dn, dc, dx, dy)] gives the blurred image shifted alike. *)
Theorem blur_shift_invariant (F : Type) (A : Arith F)
        (inp : Z -> Z -> Z -> Z -> F) (dn dc dx dy n c x y : Z) :
  consumer (fun n c x y => inp (n + dn) (c + dc) (x + dx) (y + dy)) n c x y
  = consumer inp (n + dn) (c + dc) (x + dx) (y + dy).
Proof.
  unfold consumer, producer.
  rewrite !(Z.add_shuffle0 x _ dx), !(Z.add_shuffle0 y _ dy).
  reflexivity.
Qed.

(** In exact arithmetic the blur is linear in the image. *)
Theorem blur_linear (f g : Z -> Z -> Z -> Z -> Q) (a b : Q) (n c x y : Z) :
  (@consumer Q exact
     (fun n c x y => a * f n c x y + b * g n c x y) n c x y
   == a * @consumer Q exact f n c x y + b * @consumer Q exact g n c x y)%Q.
Proof.
  rewrite !consumer_taps, !producer_taps, !avg3_exact. ring.
Qed.

(** In exact arithmetic the blur never leaves the range of the cells it
    reads: if the nine cells loaded for an output coordinate lie between [lo]
    and [hi], so does the output there. *)
Theorem blur_within_range (b : Blur Q) (out : Buffer Q) (lo hi : Q)
        (n c x y : Z) :
  (forall n' c' x' y',
      In (n', c', x', y') (consumer_loads n c x y) ->
      (lo <= @load Q exact (input b) n' c' x' y' <= hi)%Q) ->
  (lo <= @load Q exact (@realize Q exact b out) n c x y <= hi)%Q.
Proof.
  intros Hrange.
  rewrite consumer_loads_taps in Hrange.
  assert (H : forall i j, (0 <= i <= 2)%Z -> (0 <= j <= 2)%Z ->
                          (lo <= @load Q exact (input b) n c (x + i) (y + j) <= hi)%Q).
  { intros i j Hi Hj. apply Hrange. cbn [In].
    assert (Hi' : i = 0%Z \/ i = 1%Z \/ i = 2%Z) by lia.
    assert (Hj' : j = 0%Z \/ j = 1%Z \/ j = 2%Z) by lia.
    destruct Hi' as [-> | [-> | ->]], Hj' as [-> | [-> | ->]];
      rewrite ?Z.add_0_r; tauto. }
  rewrite load_realize, consumer_taps, !producer_taps, !avg3_exact.
  pose proof (H 0 0 ltac:(lia) ltac:(lia))%Z as H00.
  pose proof (H 1 0 ltac:(lia) ltac:(lia))%Z as H10.
  pose proof (H 2 0 ltac:(lia) ltac:(lia))%Z as H20.
  pose proof (H 0 1 ltac:(lia) ltac:(lia))%Z as H01.
  pose proof (H 1 1 ltac:(lia) ltac:(lia))%Z as H11.
  pose proof (H 2 1 ltac:(lia) ltac:(lia))%Z as H21.
  pose proof (H 0 2 ltac:(lia) ltac:(lia))%Z as H02.
  pose proof (H 1 2 ltac:(lia) ltac:(lia))%Z as H12.
  pose proof (H 2 2 ltac:(lia) ltac:(lia))%Z as H22.
  rewrite !Z.add_0_r in *.
  lra.
Qed.

Lemma blur_within_range_witness :
  let b := mkBlur ramp_buffer EmptyString in
  (0 <= @load Q exact (@realize Q exact b (get_output_buffer b)) 0 0 0 0 <= 2)%Q.
Proof.
  intro b.
  apply (blur_within_range b (get_output_buffer b) 0 2 0 0 0 0).
  intros n' c' x' y' Hin.
  rewrite consumer_loads_taps in Hin. cbn [In] in Hin.
  repeat (destruct Hin as [Hin | Hin];
          [inversion Hin; subst; vm_compute; split; discriminate |]).
  contradiction.
Defined.

Section NaN.
Variables prec emax : Z.

Lemma SFadd_nan_l (y : spec_float) : SFadd prec emax S754_nan y = S754_nan.
Proof. reflexivity. Qed.

Lemma SFadd_nan_r (x : spec_float) : SFadd prec emax x S754_nan = S754_nan.
Proof. destruct x as [s | s | | s m e]; reflexivity. Qed.

Lemma SFdiv_nan_l (y : spec_float) : SFdiv prec emax S754_nan y = S754_nan.
Proof. reflexivity. Qed.

(** The average of three taps is NaN as soon as one tap is. *)
Lemma avg3_nan (a b c : spec_float) :
  a = S754_nan \/ b = S754_nan \/ c = S754_nan ->
  @avg3 _ (binary_arith prec emax) a b c = S754_nan.
Proof.
  unfold avg3. cbn [add div of_int binary_arith].
  intros [-> | [-> | ->]];
    now rewrite ?SFadd_nan_l, ?SFadd_nan_r, ?SFadd_nan_l, ?SFdiv_nan_l.
Qed.

End NaN.

(** In [float] arithmetic a NaN in any of the nine cells loaded for an
    output coordinate makes the output there NaN. *)
Theorem blur_nan_propagates (b : Blur spec_float) (out : Buffer spec_float)
        (n c x y n' c' x' y' : Z) :
  In (n', c', x', y') (consumer_loads n c x y) ->
  @load _ binary32 (input b) n' c' x' y' = S754_nan ->
  @load _ binary32 (@realize _ binary32 b out) n c x y = S754_nan.
Proof.
  intros Hin Hnan.
  rewrite (@load_realize _ binary32), (@consumer_taps _ binary32).
  rewrite !(@producer_taps _ binary32).
  rewrite consumer_loads_taps in Hin. cbn [In] in Hin.
  unfold binary32.
  repeat (destruct Hin as [Hin | Hin];
          [inversion Hin; subst;
           apply avg3_nan;
           first [ left; apply avg3_nan; tauto
                 | right; left; apply avg3_nan; tauto
                 | right; right; apply avg3_nan; tauto ] |]).
  contradiction.
Qed.

Lemma blur_nan_propagates_witness :
  let b := mkBlur nan_corner_buffer EmptyString in
  @load _ binary32 (@realize _ binary32 b (get_output_buffer b)) 0 0 0 0
  = S754_nan.
Proof.
  intro b.
  apply (blur_nan_propagates b (get_output_buffer b) 0 0 0 0 0 0 2 2).
  - rewrite consumer_loads_taps. cbn. tauto.
  - reflexivity.
Defined.

(** ** Further properties of shapes *)

(** When the input is at least 3 x 3 in height and width, every cell of
    the input is loaded for some coordinate of the output buffer: the output
    shape leaves no part of the input unread. *)
Theorem input_fully_read (F : Type) (b : Blur F) (batch channels h w : Z)
        (p : coord) :
  extents (input b) = [batch; channels; h; w] ->
  3 <= h <= INT_MAX ->
  3 <= w <= INT_MAX ->
  in_bounds (extents (input b)) p ->
  exists n c x y,
    in_bounds (extents (get_output_buffer b)) (n, c, x, y)
    /\ In p (consumer_loads n c x y).
Proof.
  intros Hext Hh Hw Hp.
  destruct p as [[[n c] x'] y'].
  unfold get_output_buffer, dim_extent. cbn [extents].
  rewrite Hext in *. cbn [nth in_bounds] in *.
  rewrite (sub32_extent h), (sub32_extent w) by lia.
  exists n, c, (Z.min x' (h - 3)), (Z.min y' (w - 3)).
  split; [lia |].
  rewrite consumer_loads_taps. cbn [In].
  assert (Hx : x' = Z.min x' (h - 3) \/ x' = Z.min x' (h - 3) + 1
               \/ x' = Z.min x' (h - 3) + 2) by lia.
  assert (Hy : y' = Z.min y' (w - 3) \/ y' = Z.min y' (w - 3) + 1
               \/ y' = Z.min y' (w - 3) + 2) by lia.
  generalize dependent (Z.min x' (h - 3)).
  generalize dependent (Z.min y' (w - 3)).
  intros y0 Hy x0 Hx.
  destruct Hx as [-> | [-> | ->]], Hy as [-> | [-> | ->]]; tauto.
Qed.

Lemma input_fully_read_witness :
  exists n c x y,
    in_bounds (extents (get_output_buffer
                          (mkBlur (@random_input Q Q exact Examples.cuda_env)
                                  EmptyString))) (n, c, x, y)
    /\ In (31, 7, 257, 257) (consumer_loads n c x y).
Proof.
  apply (input_fully_read Q
           (mkBlur (@random_input Q Q exact Examples.cuda_env) EmptyString)
           32 8 258 258 (31, 7, 257, 257)).
  - reflexivity.
  - unfold INT_MAX. lia.
  - unfold INT_MAX. lia.
  - vm_compute. intuition discriminate.
Defined.



(** ** Further properties of scheduling and of [main] *)

Section TraceFacts.
Context {F T : Type} {FA : Arith F} {TA : Arith T}.
Variable env : Env T.
Context {X : Type}.
Variable f : event T -> list X.

(** What [find_gpu_target] emits is standard output. *)
Lemma flat_map_find (k : nat) :
  (forall fmt args, f (Print stdout fmt args) = []) ->
  flat_map f (trace (find_gpu_target env k)) = [].
Proof.
  intros Hp. rewrite find_gpu_target_run.
  destruct (first_supported env (get_host_target env)
              (features_to_try (get_host_target env)));
    cbn [trace fst snd flat_map]; [reflexivity |].
  now rewrite Hp.
Qed.

Lemma flat_map_iterations (r : Runnable) (ext : list Z) (n : nat) :
  f DeviceSync = [] ->
  flat_map f (List.concat (repeat (iteration_events r ext) n))
  = List.concat (repeat (f (Realize r ext)) n).
Proof.
  intros Hd. induction n as [| n IH]; [reflexivity |].
  cbn [repeat List.concat iteration_events app flat_map].
  now rewrite Hd, IH, app_nil_l.
Qed.

Lemma flat_map_test_performance (b : Blur F) (num_runs : Z) (k : nat) :
  (forall fmt args, f (Print stdout fmt args) = []) ->
  (forall ext, f (NewBuffer ext) = []) ->
  f DeviceSync = [] ->
  flat_map f (trace (@test_performance F T FA TA env b num_runs k))
  = List.concat
      (repeat (f (Realize (runnable_of b) (extents (get_output_buffer b))))
              (S (Z.to_nat num_runs))).
Proof.
  intros Hp Hn Hd. rewrite test_performance_trace.
  change (?a :: ?c :: ?l ++ ?m) with ([a] ++ [c] ++ l ++ m).
  rewrite !flat_map_app, flat_map_iterations by exact Hd.
  cbn [flat_map repeat List.concat app].
  now rewrite Hn, !Hp, !app_nil_r, app_nil_l.
Qed.

End TraceFacts.

Lemma concat_repeat_singleton {A} (a : A) (n : nat) :
  List.concat (repeat [a] n) = repeat a n.
Proof. induction n as [| n IH]; [reflexivity | cbn; now rewrite IH]. Qed.

Lemma concat_repeat_nil {A} (n : nat) :
  List.concat (repeat (@nil A) n) = [].
Proof. induction n as [| n IH]; [reflexivity | exact IH]. Qed.

(** [schedule_for_gpu] returns true exactly when the resolved target has a
    GPU feature, and exactly then it has compiled, once, what
    [test_performance] will realize: [consumer] for an empty scheduler string,
    [auto_blur] otherwise.  It realizes nothing itself. *)
Theorem schedule_result_iff_compiled (F T : Type) (env : Env T) (b : Blur F)
        (k : nat) :
  let s := schedule_for_gpu env b k in
  result s = Target.has_gpu_feature (result (find_gpu_target env k))
  /\ runnables_compiled (trace s)
     = (if result s then [runnable_of b] else [])
  /\ runnables_realized (trace s) = [].
Proof.
  intros s. subst s. rewrite schedule_for_gpu_run.
  unfold runnables_compiled, runnables_realized, runnable_of.
  destruct (Target.has_gpu_feature (result (find_gpu_target env k)));
    cbn [negb].
  - destruct (empty (scheduler b)); cbn [result trace fst snd].
    + destruct (Target.has_feature (result (find_gpu_target env k)) Target.CUDA);
        rewrite !flat_map_app, !flat_map_find by reflexivity;
        repeat split; reflexivity.
    + rewrite !flat_map_app, !flat_map_find by reflexivity.
      repeat split; reflexivity.
  - cbn [result trace fst snd].
    rewrite !flat_map_find by reflexivity. repeat split; reflexivity.
Qed.

(** [find_gpu_target] has two outcomes.  Either it returns, silently, a
    target the host supports, made of the host target and one candidate, with
    a GPU feature; or no candidate is supported and it returns the host target
    after one line of diagnostic on standard output. *)
Theorem resolver_outcome (T : Type) (env : Env T) (k : nat) :
  let host := get_host_target env in
  let found := find_gpu_target env k in
  (exists f,
      In f (features_to_try host)
      /\ result found = Target.with_feature host f
      /\ host_supports_target_device env (result found) = true
      /\ Target.has_gpu_feature (result found) = true
      /\ trace found = [])
  \/
  (result found = host
   /\ (forall f, In f (features_to_try host) ->
                 host_supports_target_device env (Target.with_feature host f)
                 = false)
   /\ trace found
      = [Print stdout
           "Requested GPU(s) are not supported. (Do you have the proper hardware and/or driver installed?)\n"
           []]).
Proof.
  intros host found. subst found. rewrite find_gpu_target_run. fold host.
  unfold features_to_try.
  destruct (Target.OS_eqb (Target.os host) Target.OSX);
    cbn [first_supported];
    match goal with
    | |- context [host_supports_target_device env ?t] =>
        destruct (host_supports_target_device env t) eqn:Hs
    end.
  - left. exists Target.Metal. cbn [result trace fst snd].
    repeat split; [now left | exact Hs |].
    unfold Target.has_gpu_feature, Target.has_feature. cbn.
    now rewrite !orb_true_r.
  - right. cbn [result trace fst snd]. repeat split.
    intros f [<- | []]. exact Hs.
  - left. exists Target.CUDA. cbn [result trace fst snd].
    repeat split; [now left | exact Hs].
  - right. cbn [result trace fst snd]. repeat split.
    intros f [<- | []]. exact Hs.
Qed.

(** [find_gpu_target] never changes the operating system of the host target
    and never drops one of its features. *)
Theorem resolver_keeps_host (T : Type) (env : Env T) (k : nat)
        (f : Target.Feature) :
  let host := get_host_target env in
  let found := result (find_gpu_target env k) in
  Target.os found = Target.os host
  /\ (Target.has_feature host f = true -> Target.has_feature found f = true).
Proof.
  intros host found. subst found. rewrite find_gpu_target_run. fold host.
  rewrite first_supported_find.
  destruct (find _ (features_to_try host)) as [g |];
    cbn [option_map result fst snd].
  - split; [reflexivity |].
    unfold Target.has_feature, Target.with_feature. cbn [Target.features existsb].
    intros ->. apply orb_true_r.
  - split; [reflexivity | trivial].
Qed.

Lemma resolver_keeps_host_witness :
  Target.has_feature (result (find_gpu_target Examples.cuda_env 0%nat))
                     (Target.HostFeature 0) = true.
Proof.
  apply (proj2 (resolver_keeps_host Q Examples.cuda_env 0%nat
                  (Target.HostFeature 0))).
  reflexivity.
Defined.

Section MainOrder.
Context {F T : Type} {FA : Arith F} {TA : Arith T}.
Variable env : Env T.

(** With a GPU target, scheduling ends with the one call of
    [compile_jit]. *)
Lemma schedule_ends_with_compile (b : Blur F) (k : nat) :
  Target.has_gpu_feature (result (find_gpu_target env k)) = true ->
  exists pre,
    trace (schedule_for_gpu env b k)
    = pre ++ [CompileJit (runnable_of b) (result (find_gpu_target env k))]
    /\ runnables_realized pre = []
    /\ runnables_compiled pre = [].
Proof.
  intros Hgpu. rewrite schedule_for_gpu_run, Hgpu. cbn [negb].
  unfold runnable_of, runnables_realized, runnables_compiled.
  set (found := find_gpu_target env k).
  destruct (empty (scheduler b)); cbn [trace fst snd].
  - destruct (Target.has_feature (result found) Target.CUDA).
    + exists (trace found ++ trace (@manual_cuda_schedule T k)
              ++ [Print stdout "Target: %s\n" [ATarget (result found)]]).
      split; [now rewrite <- !app_assoc |].
      subst found.
      rewrite !flat_map_app, !flat_map_find by reflexivity.
      split; reflexivity.
    + exists (trace found
              ++ [Print stdout "Target: %s\n" [ATarget (result found)]]).
      split; [now rewrite <- !app_assoc |].
      subst found.
      rewrite !flat_map_app, !flat_map_find by reflexivity.
      split; reflexivity.
  - exists (trace found
            ++ [SetEstimates consumer_func
                  [(0, dim_extent (input b) 0); (0, dim_extent (input b) 1);
                   (0, dim_extent (input b) 2); (0, dim_extent (input b) 3)];
                AutoSchedule (scheduler b) (result found)]).
    split; [now rewrite <- !app_assoc |].
    subst found.
    rewrite !flat_map_app, !flat_map_find by reflexivity.
    split; reflexivity.
Qed.

Lemma benchmark_compiles_first (sched : string) (k : nat) :
  let blur_layer := mkBlur (@random_input F T FA env) sched in
  Target.has_gpu_feature (result (find_gpu_target env k)) = true ->
  exists pre,
    trace (@benchmark F T FA TA env sched k)
    = pre
      ++ CompileJit (runnable_of blur_layer) (result (find_gpu_target env k))
         :: Print stdout "Testing performance on GPU:\n" []
         :: trace (@test_performance F T FA TA env blur_layer 100 k)
    /\ runnables_realized pre = []
    /\ runnables_compiled pre = [].
Proof.
  intros blur_layer Hgpu.
  destruct (@benchmark_run F T FA TA env sched k) as [_ Htr].
  fold blur_layer in Htr.
  destruct (schedule_ends_with_compile blur_layer k Hgpu)
    as (pre & Hs & Hr & Hc).
  rewrite Htr, Hs.
  exists ([Print stdout
             "Generating input with dimensions: batch_size: %d, height: %d, width: %d, channels: %d\n"
             [AInt 32; AInt 258; AInt 258; AInt 8];
           NewBuffer [32; 8; 258; 258];
           Print stdout "Running pipeline on GPU:\n" []] ++ pre).
  split; [rewrite <- !app_assoc; cbn [app]; reflexivity |].
  unfold runnables_realized, runnables_compiled in *.
  rewrite !flat_map_app, Hr, Hc. split; reflexivity.
Qed.

End MainOrder.

(** Started with no or one argument on a machine where a GPU target is
    found, [main] calls [compile_jit] exactly once, before the first
    realization, and all 101 realizations are of what was compiled:
    [consumer] when the scheduler string is empty, [auto_blur] otherwise. *)
Theorem main_compiles_before_running (F T : Type) (FA : Arith F)
        (TA : Arith T) (env : Env T) (argv : list string) (k : nat) :
  (List.length argv = 1 \/ List.length argv = 2)%nat ->
  Target.has_gpu_feature (result (find_gpu_target env k)) = true ->
  let r := runnable_of (mkBlur (@random_input F T FA env) (nth 1 argv "")) in
  let run := @main F T FA TA env argv k in
  runnables_compiled (trace run) = [r]
  /\ runnables_realized (trace run) = repeat r 101
  /\ exists pre post,
       trace run
       = pre ++ CompileJit r (result (find_gpu_target env k)) :: post
       /\ runnables_realized pre = [].
Proof.
  intros Hlen Hgpu.
  assert (Htp : forall b : Blur F,
             runnables_realized
               (trace (@test_performance F T FA TA env b 100 k))
             = repeat (runnable_of b) 101
             /\ runnables_compiled
                  (trace (@test_performance F T FA TA env b 100 k)) = []).
  { intros b. unfold runnables_realized, runnables_compiled.
    rewrite !(@flat_map_test_performance F T FA TA env) by reflexivity.
    rewrite concat_repeat_singleton, concat_repeat_nil.
    split; reflexivity. }
  destruct argv as [| prog [| name [| extra argv]]]; cbn in Hlen;
    try (exfalso; lia); cbn [nth].
  - rewrite main_no_args. cbn [trace fst snd].
    destruct (@benchmark_compiles_first F T FA TA env EmptyString k Hgpu)
      as (pre & Htr & Hr & Hc).
    destruct (Htp (mkBlur (@random_input F T FA env) EmptyString))
      as [Hreal Hcomp].
    rewrite Htr. clear Htr Htp.
    generalize dependent
      (trace (@test_performance F T FA TA env
                (mkBlur (@random_input F T FA env) EmptyString) 100 k)).
    intros tp Hreal Hcomp.
    unfold runnables_realized, runnables_compiled in *.
    split; [| split].
    + change (?e :: ?p ++ ?c :: ?q :: ?t) with ([e] ++ p ++ [c] ++ [q] ++ t).
      rewrite !flat_map_app, Hc, Hcomp. reflexivity.
    + change (?e :: ?p ++ ?c :: ?q :: ?t) with ([e] ++ p ++ [c] ++ [q] ++ t).
      rewrite !flat_map_app, Hr, Hreal. reflexivity.
    + eexists (_ :: pre), _. split; [reflexivity |].
      cbn [flat_map app]. exact Hr.
  - rewrite main_two_args. cbn [trace fst snd].
    destruct (@benchmark_compiles_first F T FA TA env name k Hgpu)
      as (pre & Htr & Hr & Hc).
    destruct (Htp (mkBlur (@random_input F T FA env) name))
      as [Hreal Hcomp].
    rewrite Htr. clear Htr Htp.
    generalize dependent
      (trace (@test_performance F T FA TA env
                (mkBlur (@random_input F T FA env) name) 100 k)).
    intros tp Hreal Hcomp.
    unfold runnables_realized, runnables_compiled in *.
    split; [| split].
    + change (?e :: ?e' :: ?p ++ ?c :: ?q :: ?t)
        with ([e; e'] ++ p ++ [c] ++ [q] ++ t).
      rewrite !flat_map_app, Hc, Hcomp. reflexivity.
    + change (?e :: ?e' :: ?p ++ ?c :: ?q :: ?t)
        with ([e; e'] ++ p ++ [c] ++ [q] ++ t).
      rewrite !flat_map_app, Hr, Hreal. reflexivity.
    + eexists (_ :: _ :: pre), _. split; [reflexivity |].
      cbn [flat_map app]. exact Hr.
Qed.

Lemma main_compiles_before_running_witness :
  let run := @main Q Q exact exact Examples.cuda_env ["blur"; "Li2018"] 0%nat in
  runnables_compiled (trace run) = [run_auto_blur]
  /\ runnables_realized (trace run) = repeat run_auto_blur 101.
Proof.
  intro run.
  destruct (main_compiles_before_running Q Q exact exact Examples.cuda_env
              ["blur"; "Li2018"] 0%nat (or_intror eq_refl) eq_refl)
    as (Hc & Hr & _).
  split; [exact Hc | exact Hr].
Defined.

Section StandardError.
Context {F T : Type} {FA : Arith F} {TA : Arith T}.
Variable env : Env T.

Lemma stderr_schedule (b : Blur F) (k : nat) :
  stderr_lines (trace (schedule_for_gpu env b k)) = [].
Proof.
  rewrite schedule_for_gpu_run. unfold stderr_lines.
  destruct (Target.has_gpu_feature (result (find_gpu_target env k)));
    cbn [negb].
  - destruct (empty (scheduler b)); cbn [trace fst snd].
    + destruct (Target.has_feature (result (find_gpu_target env k)) Target.CUDA);
        rewrite !flat_map_app, !flat_map_find by reflexivity; reflexivity.
    + rewrite !flat_map_app, !flat_map_find by reflexivity; reflexivity.
  - cbn [trace fst snd]. now rewrite flat_map_find.
Qed.

Lemma stderr_benchmark (sched : string) (k : nat) :
  stderr_lines (trace (@benchmark F T FA TA env sched k)) = [].
Proof.
  destruct (@benchmark_run F T FA TA env sched k) as [_ ->].
  change (?l ++ ?m ++ ?x :: ?n) with (l ++ m ++ [x] ++ n).
  unfold stderr_lines at 1.
  rewrite !flat_map_app.
  change (flat_map _ (trace (schedule_for_gpu ?e ?b ?c)))
    with (stderr_lines (trace (schedule_for_gpu e b c))).
  rewrite stderr_schedule.
  rewrite (@flat_map_test_performance F T FA TA env) by reflexivity.
  now rewrite concat_repeat_nil.
Qed.

End StandardError.

(** The exit status of [main] depends on the argument count alone.  With no
    or one argument it is 0 and nothing is written to standard error, even
    when no GPU is found (that diagnostic goes to standard output).  With any
    other count, an empty [argv] included, it is 1 and the usage line is the
    only thing written. *)
Theorem main_exit_status (F T : Type) (FA : Arith F) (TA : Arith T)
        (env : Env T) (argv : list string) (k : nat) :
  let run := @main F T FA TA env argv k in
  if ((List.length argv =? 1) || (List.length argv =? 2))%nat
  then result run = 0 /\ stderr_lines (trace run) = []
  else result run = 1
       /\ trace run = [Print stderr "Usage: .//relu_gpu [autoscheduler]\n" []].
Proof.
  intros run. subst run.
  destruct argv as [| prog [| name [| extra argv]]];
    cbn [List.length Nat.eqb orb].
  - split; reflexivity.
  - rewrite main_no_args. cbn [result trace fst snd]. split.
    + apply (@benchmark_run F T FA TA env EmptyString k).
    + cbn [stderr_lines flat_map app].
      apply (@stderr_benchmark F T FA TA env EmptyString k).
  - rewrite main_two_args. cbn [result trace fst snd]. split.
    + apply (@benchmark_run F T FA TA env name k).
    + cbn [stderr_lines flat_map app].
      apply (@stderr_benchmark F T FA TA env name k).
  - unfold main.
    destruct (Z.eqb_spec (Z.of_nat (List.length (prog :: name :: extra :: argv))) 2)
      as [E | _]; [cbn [List.length] in E; lia |].
    destruct (Z.eqb_spec (Z.of_nat (List.length (prog :: name :: extra :: argv))) 1)
      as [E | _]; [cbn [List.length] in E; lia |].
    split; reflexivity.
Qed.

(** On the automatic path the estimates given to the autoscheduler are the
    extents of the input, not of the output: for an input of shape (batch,
    channels, height, width) they are 0..batch, 0..channels, 0..height and
    0..width, while the buffer later realized has height - 2 rows and
    width - 2 columns. *)
Theorem estimates_are_input_extents (F T : Type) (env : Env T) (b : Blur F)
        (batch channels h w : Z) (k : nat) :
  extents (input b) = [batch; channels; h; w] ->
  0 <= h <= INT_MAX ->
  0 <= w <= INT_MAX ->
  empty (scheduler b) = false ->
  Target.has_gpu_feature (result (find_gpu_target env k)) = true ->
  estimates_set (trace (schedule_for_gpu env b k))
  = [[(0, batch); (0, channels); (0, h); (0, w)]]
  /\ extents (get_output_buffer b) = [batch; channels; h - 2; w - 2].
Proof.
  intros Hext Hh Hw Hempty Hgpu. split.
  - rewrite schedule_for_gpu_run, Hgpu, Hempty. cbn [negb trace fst snd].
    unfold estimates_set, dim_extent.
    rewrite flat_map_app, flat_map_find by reflexivity.
    rewrite Hext. reflexivity.
  - unfold get_output_buffer, dim_extent. cbn [extents].
    rewrite Hext. cbn [nth].
    now rewrite (sub32_extent h Hh), (sub32_extent w Hw).
Qed.

Lemma estimates_are_input_extents_witness :
  let b := mkBlur (@random_input Q Q exact Examples.cuda_env) "Li2018" in
  estimates_set (trace (schedule_for_gpu Examples.cuda_env b 0%nat))
  = [[(0, 32); (0, 8); (0, 258); (0, 258)]]
  /\ extents (get_output_buffer b) = [32; 8; 256; 256].
Proof.
  intro b.
  apply (estimates_are_input_extents Q Q Examples.cuda_env b 32 8 258 258
           0%nat).
  - reflexivity.
  - unfold INT_MAX. lia.
  - unfold INT_MAX. lia.
  - reflexivity.
  - reflexivity.
Defined.

(** In exact arithmetic the two passes of the blur can be exchanged:
    blurring the transposed image gives the transposed blurred image. *)
Theorem blur_transpose_exact (inp : Z -> Z -> Z -> Z -> Q) (n c x y : Z) :
  (@consumer Q exact (transpose inp) n c x y
   == @consumer Q exact inp n c y x)%Q.
Proof.
  rewrite !consumer_taps, !producer_taps, !avg3_exact.
  unfold transpose. ring.
Qed.

Section MainBuffers.
Context {F T : Type} {FA : Arith F} {TA : Arith T}.
Variable env : Env T.

Lemma buffers_schedule (b : Blur F) (k : nat) :
  buffers_allocated (trace (schedule_for_gpu env b k)) = [].
Proof.
  rewrite schedule_for_gpu_run. unfold buffers_allocated.
  destruct (Target.has_gpu_feature (result (find_gpu_target env k)));
    cbn [negb].
  - destruct (empty (scheduler b)); cbn [trace fst snd].
    + destruct (Target.has_feature (result (find_gpu_target env k)) Target.CUDA);
        rewrite !flat_map_app, !flat_map_find by reflexivity; reflexivity.
    + rewrite !flat_map_app, !flat_map_find by reflexivity; reflexivity.
  - cbn [trace fst snd]. now rewrite flat_map_find.
Qed.

Lemma buffers_test_performance (b : Blur F) (num_runs : Z) (k : nat) :
  buffers_allocated (trace (@test_performance F T FA TA env b num_runs k))
  = [extents (get_output_buffer b)].
Proof.
  rewrite test_performance_trace. unfold buffers_allocated.
  change (?a :: ?c :: ?l ++ ?m) with ([a] ++ [c] ++ l ++ m).
  rewrite !flat_map_app, flat_map_iterations by reflexivity.
  cbn [flat_map app]. now rewrite concat_repeat_nil.
Qed.

Lemma buffers_allocated_app (tr tr' : list (event T)) :
  buffers_allocated (tr ++ tr') = buffers_allocated tr ++ buffers_allocated tr'.
Proof. apply flat_map_app. Qed.

Lemma autoschedulers_invoked_app (tr tr' : list (event T)) :
  autoschedulers_invoked (tr ++ tr')
  = autoschedulers_invoked tr ++ autoschedulers_invoked tr'.
Proof. apply flat_map_app. Qed.

Lemma buffers_benchmark (sched : string) (k : nat) :
  buffers_allocated (trace (@benchmark F T FA TA env sched k))
  = [[32; 8; 258; 258]; [32; 8; 256; 256]].
Proof.
  destruct (@benchmark_run F T FA TA env sched k) as [_ ->].
  change (?l ++ ?m ++ ?x :: ?n) with (l ++ m ++ [x] ++ n).
  rewrite !buffers_allocated_app, buffers_schedule, buffers_test_performance.
  reflexivity.
Qed.

Lemma autoschedulers_test_performance (b : Blur F) (num_runs : Z) (k : nat) :
  autoschedulers_invoked (trace (@test_performance F T FA TA env b num_runs k))
  = [].
Proof.
  unfold autoschedulers_invoked.
  rewrite (@flat_map_test_performance F T FA TA env) by reflexivity.
  apply concat_repeat_nil.
Qed.

Lemma autoschedulers_schedule (b : Blur F) (k : nat) :
  autoschedulers_invoked (trace (schedule_for_gpu env b k))
  = if Target.has_gpu_feature (result (find_gpu_target env k))
       && negb (empty (scheduler b))
    then [scheduler b] else [].
Proof.
  rewrite schedule_for_gpu_run. unfold autoschedulers_invoked.
  destruct (Target.has_gpu_feature (result (find_gpu_target env k)));
    cbn [negb andb].
  - destruct (empty (scheduler b)); cbn [trace fst snd negb].
    + destruct (Target.has_feature (result (find_gpu_target env k)) Target.CUDA);
        rewrite !flat_map_app, !flat_map_find by reflexivity; reflexivity.
    + rewrite !flat_map_app, !flat_map_find by reflexivity; reflexivity.
  - cbn [trace fst snd]. now rewrite flat_map_find.
Qed.

Lemma autoschedulers_benchmark (sched : string) (k : nat) :
  autoschedulers_invoked (trace (@benchmark F T FA TA env sched k))
  = if Target.has_gpu_feature (result (find_gpu_target env k))
       && negb (empty sched)
    then [sched] else [].
Proof.
  destruct (@benchmark_run F T FA TA env sched k) as [_ ->].
  change (?l ++ ?m ++ ?x :: ?n) with (l ++ m ++ [x] ++ n).
  rewrite !autoschedulers_invoked_app, autoschedulers_schedule,
    autoschedulers_test_performance.
  cbn [scheduler autoschedulers_invoked flat_map app]. now rewrite app_nil_r.
Qed.

End MainBuffers.

(** Started with no or one argument, [main] constructs exactly two buffers,
    whatever the machine and the scheduler: the 32 x 8 x 258 x 258 input and,
    for the benchmark, a 32 x 8 x 256 x 256 output. *)
Theorem main_buffers (F T : Type) (FA : Arith F) (TA : Arith T)
        (env : Env T) (argv : list string) (k : nat) :
  (List.length argv = 1 \/ List.length argv = 2)%nat ->
  buffers_allocated (trace (@main F T FA TA env argv k))
  = [[32; 8; 258; 258]; [32; 8; 256; 256]].
Proof.
  intros Hlen.
  destruct argv as [| prog [| name [| extra argv]]]; cbn in Hlen;
    try (exfalso; lia).
  - rewrite main_no_args. cbn [trace fst snd buffers_allocated flat_map app].
    apply (@buffers_benchmark F T FA TA env EmptyString k).
  - rewrite main_two_args. cbn [trace fst snd buffers_allocated flat_map app].
    apply (@buffers_benchmark F T FA TA env name k).
Qed.

Lemma main_buffers_witness :
  buffers_allocated
    (trace (@main Q Q exact exact Examples.no_gpu_env ["blur"; "Li2018"] 0%nat))
  = [[32; 8; 258; 258]; [32; 8; 256; 256]].
Proof.
  apply (main_buffers Q Q exact exact Examples.no_gpu_env ["blur"; "Li2018"]
           0%nat).
  right. reflexivity.
Defined.

(** Started with one argument, [main] always loads the plugin, but calls
    the autoscheduler, with the argument as its name, only when a GPU target is
    found and the argument is not the empty string; with an empty argument the
    plugin is loaded and the manual path is taken. *)
Theorem autoscheduler_invocation (F T : Type) (FA : Arith F) (TA : Arith T)
        (env : Env T) (prog name : string) (k : nat) :
  let tr := trace (@main F T FA TA env [prog; name] k) in
  plugins_loaded tr = ["autoschedule_li2018"]
  /\ autoschedulers_invoked tr
     = if Target.has_gpu_feature (result (find_gpu_target env k))
          && negb (empty name)
       then [name] else [].
Proof.
  intros tr. subst tr. rewrite main_two_args. cbn [trace fst snd]. split.
  - cbn [plugins_loaded flat_map app]. f_equal.
    apply (@plugins_loaded_benchmark F T FA TA env name k).
  - cbn [autoschedulers_invoked flat_map app].
    apply (@autoschedulers_benchmark F T FA TA env name k).
Qed.
